(** * The S3 provider of LocalStack: object and multipart storage engine

    A shallow embedding of
    [localstack-core/localstack/services/s3/provider.py]: conditional
    writes ([put_object], [complete_multipart_upload]), checksum-type
    validation of [create_multipart_upload], version-id generation,
    [delete_object] on unversioned buckets and the paginated listings
    [list_objects] and [list_objects_v2].

    Python values are modelled as follows: [str] is [string] (compared
    by code unit, as Python compares code points), [None]-able values are
    [option]s, [datetime] is a [Z] timestamp, dictionaries are [gmap]s,
    raised exceptions are the [Raise] branch of [result]. *)

From Stdlib Require Import ZArith String Ascii List Bool Lia.
From stdpp Require Import gmap strings list sorting.

Local Open Scope string_scope.

(** ** Python built-ins used by the provider *)

Module Py.

  (** Truthiness of an optional string ([None] and [""] are falsy). *)
Definition truthy (o : option string) : bool :=
    match o with
    | Some (String _ _) => true
    | _ => false
    end.

  (** Truthiness of an optional integer ([None] and [0] are falsy). *)
Definition truthy_int (o : option Z) : bool :=
    match o with
    | Some z => negb (z =? 0)%Z
    | None => false
    end.

  (** [o or d] on strings. *)
Definition or_str (o : option string) (d : string) : string :=
    match o with
    | Some (String c s) => String c s
    | _ => d
    end.

  (** [o or d] on integers. *)
Definition or_int (o : option Z) (d : Z) : Z :=
    if truthy_int o then default d o else d.

Definition eqb_opt (o : option string) (s : string) : bool :=
    match o with
    | Some s' => String.eqb s' s
    | None => false
    end.

  (** [s.startswith(p)] *)
Definition startswith (s p : string) : bool := String.prefix p s.

Fixpoint drop (n : nat) (s : string) : string :=
    match n, s with
    | O, _ => s
    | S n', String _ s' => drop n' s'
    | S _, EmptyString => EmptyString
    end.

  (** [s.removeprefix(p)] *)
Definition removeprefix (s p : string) : string :=
    if startswith s p then drop (String.length p) s else s.

  (** [d in s] *)
Fixpoint contains (d s : string) : bool :=
    String.prefix d s ||
    match s with
    | EmptyString => false
    | String _ s' => contains d s'
    end.

  (** [s.partition(d)] for a non-empty separator: the part before the
      first occurrence, the separator, the part after; [(s, "", "")]
      when the separator does not occur. *)
Fixpoint partition (d s : string) : string * string * string :=
    if String.prefix d s then (EmptyString, d, drop (String.length d) s)
    else
      match s with
      | EmptyString => (EmptyString, EmptyString, EmptyString)
      | String c s' =>
          let '(a, sep, b) := partition d s' in (String c a, sep, b)
      end.

Definition is_lower (c : ascii) : bool :=
    (97 <=? nat_of_ascii c)%nat && (nat_of_ascii c <=? 122)%nat.

Definition is_upper (c : ascii) : bool :=
    (65 <=? nat_of_ascii c)%nat && (nat_of_ascii c <=? 90)%nat.

Definition upper_char (c : ascii) : ascii :=
    if is_lower c then ascii_of_nat (nat_of_ascii c - 32) else c.

Definition lower_char (c : ascii) : ascii :=
    if is_upper c then ascii_of_nat (nat_of_ascii c + 32) else c.

Fixpoint map_chars (f : ascii → ascii) (s : string) : string :=
    match s with
    | EmptyString => EmptyString
    | String c s' => String (f c) (map_chars f s')
    end.

  (** [s.upper()] and [s.lower()] on ASCII letters. *)
Definition upper : string → string := map_chars upper_char.
Definition lower : string → string := map_chars lower_char.

Fixpoint lstrip (c : ascii) (s : string) : string :=
    match s with
    | String c' s' => if Ascii.eqb c' c then lstrip c s' else s
    | EmptyString => EmptyString
    end.

Fixpoint rstrip (c : ascii) (s : string) : string :=
    match s with
    | EmptyString => EmptyString
    | String c' s' =>
        match rstrip c s' with
        | EmptyString => if Ascii.eqb c' c then EmptyString else String c' EmptyString
        | r => String c' r
        end
    end.

  (** [s.strip(c)] for a single character [c]. *)
Definition strip (c : ascii) (s : string) : string := rstrip c (lstrip c s).

  (** The double quote character. *)
Definition dquote : ascii := ascii_of_nat 34.

  (** [a < b] and [a <= b] on strings. *)
Definition lt (a b : string) : bool := String.ltb a b.
Definition le (a b : string) : bool := String.leb a b.

(** [a <= b] as a relation, for sorting. *)
Definition le_prop (a b : string) : Prop := le a b = true.

Global Instance le_prop_dec a b : Decision (le_prop a b).
Proof. unfold le_prop. apply _. Defined.

End Py.

(** ** Exceptions and the error monad *)

Inductive S3Error : Type :=
  | NoSuchBucket
  | InvalidStorageClass
  | NotImplementedException (Header : string)
  | PreconditionFailed (Condition : string)
  | ConditionalRequestConflict (Condition : string)
  | NoSuchKey
  | NoSuchUpload
  | InvalidDigest
  | BadDigest
  | InvalidRequest (message : string)
  | InvalidPartOrder
  | InvalidArgument (ArgumentName : string)
  | AccessDenied
  | OtherError (code : string).

Global Instance S3Error_eq_dec : EqDecision S3Error.
Proof. solve_decision. Defined.

Inductive result (A : Type) : Type :=
  | Ok (a : A)
  | Raise (e : S3Error).
Arguments Ok {A} a.
Arguments Raise {A} e.

Global Instance result_ret : MRet result := λ A a, Ok a.
Global Instance result_bind : MBind result := λ A B f m,
  match m with
  | Ok a => f a
  | Raise e => Raise e
  end.

Global Instance result_fmap : FMap result := λ A B f m,
  match m with
  | Ok a => Ok (f a)
  | Raise e => Raise e
  end.

Definition is_ok {A} (r : result A) : bool :=
  match r with Ok _ => true | Raise _ => false end.

(** [raise_if b e] raises [e] when the guard [b] holds. *)
Definition raise_if (b : bool) (e : S3Error) : result unit :=
  if b then Raise e else Ok tt.

(** ** Data model *)

Module S3Object.
  (** The fields of [S3Object] that the provider code below reads or
      writes; metadata, ACL, lock and encryption fields are carried by
      the collaborators and not represented. *)
Record t : Type := mk {
    key : string;
    version_id : option string;
    etag : string;
    size : Z;
    last_modified : Z;
    storage_class : option string;
    checksum_algorithm : option string;
    checksum_value : option string;
    checksum_type : option string;
    sse_key_hash : option string;
    kms_key_id : option string;
    expiration : option string;
  }.

Definition quoted_etag (o : t) : string :=
    String Py.dquote (etag o +:+ String Py.dquote EmptyString).

Definition with_version_id (v : option string) (o : t) : t :=
    mk (key o) v (etag o) (size o) (last_modified o) (storage_class o)
       (checksum_algorithm o) (checksum_value o) (checksum_type o)
       (sse_key_hash o) (kms_key_id o) (expiration o).

Definition with_checksum_algorithm (a : option string) (o : t) : t :=
    mk (key o) (version_id o) (etag o) (size o) (last_modified o)
       (storage_class o) a (checksum_value o) (checksum_type o)
       (sse_key_hash o) (kms_key_id o) (expiration o).

Definition with_checksum_value (c : option string) (o : t) : t :=
    mk (key o) (version_id o) (etag o) (size o) (last_modified o)
       (storage_class o) (checksum_algorithm o) c (checksum_type o)
       (sse_key_hash o) (kms_key_id o) (expiration o).

Definition with_checksum_type (c : option string) (o : t) : t :=
    mk (key o) (version_id o) (etag o) (size o) (last_modified o)
       (storage_class o) (checksum_algorithm o) (checksum_value o) c
       (sse_key_hash o) (kms_key_id o) (expiration o).

  (** What the storage backend records on the object when the stream is
      written: the MD5 etag and the size. *)
Definition with_content (e : string) (n : Z) (o : t) : t :=
    mk (key o) (version_id o) e n (last_modified o) (storage_class o)
       (checksum_algorithm o) (checksum_value o) (checksum_type o)
       (sse_key_hash o) (kms_key_id o) (expiration o).
End S3Object.

Module S3DeleteMarker.
Record t : Type := mk {
    key : string;
    version_id : option string;
    last_modified : Z;
  }.
End S3DeleteMarker.

(** [S3Object] and [S3DeleteMarker] share the key store; every read site
    tells them apart with [isinstance]. *)
Inductive S3Version : Type :=
  | Object (o : S3Object.t)
  | DeleteMarker (m : S3DeleteMarker.t).

Definition version_key (v : S3Version) : string :=
  match v with
  | Object o => S3Object.key o
  | DeleteMarker m => S3DeleteMarker.key m
  end.

Definition version_version_id (v : S3Version) : option string :=
  match v with
  | Object o => S3Object.version_id o
  | DeleteMarker m => S3DeleteMarker.version_id m
  end.

Definition isinstance_S3DeleteMarker (v : S3Version) : bool :=
  match v with
  | Object _ => false
  | DeleteMarker _ => true
  end.

Module S3Part.
Record t : Type := mk {
    part_number : Z;
    etag : string;
    size : Z;
    last_modified : Z;
    checksum_algorithm : option string;
    checksum_value : option string;
  }.
End S3Part.

Definition Tagging : Type := list (string * string).

Module S3Multipart.
Record t : Type := mk {
    id : string;
    object : S3Object.t;
    initiated : Z;
    precondition : bool;
    parts : gmap Z S3Part.t;
    checksum_algorithm : option string;
    checksum_type : option string;
    tagging : option Tagging;
  }.

Definition with_object (o : S3Object.t) (m : t) : t :=
    mk (id m) o (initiated m) (precondition m) (parts m)
       (checksum_algorithm m) (checksum_type m) (tagging m).
End S3Multipart.

(** *** The key store

    [models.py] is not part of the sources; the store is modelled from
    the specification of [VersionedKeyStore]. *)

Module KeyStore.
  (** Modelled from the spec: the [KeyStore]/[VersionedKeyStore] classes
      of [models.py] are missing. "Ordered multi-version map from object
      key to sequence of live versions (object or delete-marker)";
      "versions are ordered by insertion time, newest first". *)
Abbreviation t := (gmap string (list S3Version)).

  (** Modelled from the spec: "[get(key)] returns the current version",
      the most recently inserted one. *)
Definition get (s : t) (k : string) : option S3Version :=
    s !! k ≫= head.

  (** Modelled from the spec: "[get(key, version_id)] returns the named
      version or nothing". *)
Definition get_version (s : t) (k : string) (v : option string)
    : option S3Version :=
    s !! k ≫= λ vs,
      head (filter (λ x, version_version_id x = v) vs).

  (** Modelled from the spec: with versioning unset "the store behaves
      as a flat key -> object map (no version history)"; otherwise the
      inserted version becomes the newest, hence the current one
      ("[get(key)] equals the most recently inserted version"). The spec
      does not say what becomes of a version of the key that already
      carries the version id of the inserted one, as the id ["null"] on a
      [Suspended] bucket: what is proved of the versions that a write
      keeps is proved of the versions with another version id, or for a
      version id that no version of the key carries. *)
Definition set (versioned : bool) (k : string) (v : S3Version) (s : t) : t :=
    if versioned then <[k := v :: default [] (s !! k)]> s
    else <[k := [v]]> s.

  (** Modelled from the spec: "[pop(key)] removes all versions"; as
      Python's [dict.pop(key, None)] it returns what it removed, here
      the current version. *)
Definition pop (s : t) (k : string) : option S3Version * t :=
    (get s k, delete k s).

  (** Modelled from the spec: "[pop(key, version_id)] removes one version
    and, if it was current, promotes the next-newest to current"; a key
    left without versions leaves the store. *)
Definition pop_version (s : t) (k : string) (v : option string) : t :=
  match filter (λ x, version_version_id x ≠ v) (default [] (s !! k)) with
  | [] => delete k s
  | vs => <[k := vs]> s
  end.

(** [key in store] *)
Definition mem (s : t) (k : string) : bool :=
    bool_decide (is_Some (s !! k)).

(** The order of the keys, [a.key <= b.key], as a relation for sorting. *)
Definition le_key (a b : S3Object.t) : Prop :=
  String.le (S3Object.key a) (S3Object.key b).

Global Instance le_key_dec a b : Decision (le_key a b).
Proof. unfold le_key. apply _. Defined.

Definition current_object (vs : list S3Version) : option S3Object.t :=
    match vs with
    | Object o :: _ => Some o
    | _ => None
    end.

  (** Modelled from the spec: "[values()] - one entry per key (the
      current version)"; a delete marker "hides the key from unversioned
      reads", so a key whose current version is a delete marker has no
      entry. The order of a dictionary is its insertion order, which the
      listings never rely on: they sort the values by key. *)
Definition values (s : t) : list S3Object.t :=
    omap (λ kv, current_object kv.2) (map_to_list s).

  (** [sorted(values, key=lambda r: r.key)] *)
Definition sorted_by_key (l : list S3Object.t) : list S3Object.t :=
    merge_sort le_key l.
End KeyStore.

Module S3Bucket.
Record t : Type := mk {
    name : string;
    versioning_status : option string;
    object_lock_enabled : bool;
    bucket_region : string;
    objects : KeyStore.t;
    multiparts : gmap string S3Multipart.t;
  }.

Definition with_objects (o : KeyStore.t) (b : t) : t :=
    mk (name b) (versioning_status b) (object_lock_enabled b)
       (bucket_region b) o (multiparts b).

Definition with_multiparts (m : gmap string S3Multipart.t) (b : t) : t :=
    mk (name b) (versioning_status b) (object_lock_enabled b)
       (bucket_region b) (objects b) m.

  (** The bucket holds a versioned store as soon as a versioning status
      has been set. *)
Definition versioned (b : t) : bool :=
    bool_decide (is_Some (versioning_status b)).
End S3Bucket.

(** ** Requests and responses *)

Module PutObjectRequest.
(** [Params] holds the request members that only collaborators read
    (checksum headers, SSE-C, ACL, lock and metadata members). *)
Record t : Type := mk {
  Bucket : string;
  Key : string;
  StorageClass : option string;
  SSEKMSKeyId : option string;
  IfMatch : option string;
  IfNoneMatch : option string;
  ContentMD5 : option string;
  Body : string;
  Params : gmap string string;
}.
End PutObjectRequest.

Module PutObjectOutput.
(** The response members the provider sets from the object; the
    lifecycle [Expiration] and the encryption echoes, which come from
    collaborators, are not represented. *)
Record t : Type := mk {
  ETag : string;
  VersionId : option string;
  ChecksumAlgorithm : option string;
  ChecksumValue : option string;
  SSECustomerKeyMD5 : option string;
}.
End PutObjectOutput.

Module CompletedPart.
Record t : Type := mk {
  PartNumber : Z;
  ETag : string;
}.
End CompletedPart.

Module CompleteMultipartUploadRequest.
Record t : Type := mk {
  Bucket : string;
  Key : string;
  UploadId : string;
  Parts : list CompletedPart.t;
  ChecksumCRC32 : option string;
  ChecksumCRC32C : option string;
  ChecksumCRC64NVME : option string;
  ChecksumSHA1 : option string;
  ChecksumSHA256 : option string;
  ChecksumType : option string;
  MpuObjectSize : option Z;
  IfMatch : option string;
  IfNoneMatch : option string;
}.
End CompleteMultipartUploadRequest.

Module CompleteMultipartUploadOutput.
Record t : Type := mk {
  Bucket : string;
  Key : string;
  ETag : string;
  VersionId : option string;
  ChecksumValue : option string;
  ChecksumType : option string;
}.
End CompleteMultipartUploadOutput.

Module CreateMultipartUploadRequest.
Record t : Type := mk {
  Bucket : string;
  Key : string;
  StorageClass : option string;
  SSEKMSKeyId : option string;
  Tagging : option string;
  ChecksumAlgorithm : option string;
  ChecksumType : option string;
  SSECustomerKeyMD5 : option string;
  Params : gmap string string;
}.
End CreateMultipartUploadRequest.

Module CreateMultipartUploadOutput.
Record t : Type := mk {
  Bucket : string;
  Key : string;
  UploadId : string;
  ChecksumAlgorithm : option string;
  ChecksumType : option string;
}.
End CreateMultipartUploadOutput.

Module DeleteObjectOutput.
Record t : Type := mk {
  VersionId : option string;
  DeleteMarker : option bool;
}.
End DeleteObjectOutput.

(** The [Object] entries of a listing's [Contents]. *)
Module ObjectData.
Record t : Type := mk {
  Key : string;
  ETag : string;
  Size : Z;
  LastModified : Z;
  StorageClass : option string;
  ChecksumAlgorithm : option string;
}.
End ObjectData.

Module ListObjectsOutput.
Record t : Type := mk {
  IsTruncated : bool;
  Name : string;
  MaxKeys : Z;
  Prefix : string;
  Marker : string;
  Contents : list ObjectData.t;
  EncodingType : option string;
  Delimiter : option string;
  CommonPrefixes : list string;
  NextMarker : option string;
}.
End ListObjectsOutput.

Module ListObjectsV2Output.
Record t : Type := mk {
  IsTruncated : bool;
  Name : string;
  MaxKeys : Z;
  Prefix : string;
  KeyCount : Z;
  Contents : list ObjectData.t;
  EncodingType : option string;
  Delimiter : option string;
  CommonPrefixes : list string;
  NextContinuationToken : option string;
  ContinuationToken : option string;
  StartAfter : option string;
}.
End ListObjectsV2Output.

(** What the request attributes amount to once the helpers of [utils.py]
    and [validation.py] have run on a [PutObjectRequest] (lines 733-802
    of [put_object]: checksum members, SSE-C validation, encryption, lock
    and ACL parameters, the tagging header, the aws-chunked decoding). *)
Module ObjectFields.
Record t : Type := mk {
  checksum_algorithm : option string;
  checksum_value : option string;
  sse_c_key_md5 : option string;
  kms_key_id : option string;
  tagging : option Tagging;
  body : string;
}.
End ObjectFields.

(** The members of the API enumerations [ChecksumAlgorithm],
    [ChecksumType] and [StorageClass] that the provider names. *)
Definition CRC64NVME : string := "CRC64NVME".
Definition FULL_OBJECT : string := "FULL_OBJECT".
Definition COMPOSITE : string := "COMPOSITE".
Definition OUTPOSTS : string := "OUTPOSTS".

(** ** Collaborators

    Functions and constants that [provider.py] imports from modules that
    are not part of the sources, and the Python standard library
    functions it calls. They are the parameters of the development. *)
Class Collaborators : Type := {
  (** the source of randomness of the token generators *)
  Entropy : Type;
  (** [utils.generate_safe_version_id], which is not part of the
      sources: the token that a call draws from the entropy. Of the
      token itself nothing is assumed. *)
  generate_safe_version_id : Entropy → string * Entropy;
  (** the upload id drawn by the [S3Multipart] constructor *)
  generate_upload_id : Entropy → string * Entropy;
  STORAGE_CLASSES : list string;
  CHECKSUM_ALGORITHMS : list string;
  S3_SKIP_KMS_KEY_VALIDATION : bool;
  validate_kms_key_id : string → S3Bucket.t → result unit;
  validate_object_key : string → result unit;
  base_64_content_md5_to_etag : string → string;
  etag_to_base_64_content_md5 : string → string;
  validate_checksum_value : string → option string → bool;
  put_object_fields : PutObjectRequest.t → S3Bucket.t → result ObjectFields.t;
  parse_tagging_header : string → result Tagging;
  (** [validate_sse_c] and the encryption, lock and ACL helpers run by
      [create_multipart_upload]; yields the KMS key id of the upload *)
  create_multipart_upload_fields :
    CreateMultipartUploadRequest.t → S3Bucket.t → result (option string);
  (** [hashlib.md5(body).hexdigest()] and the checksum of the declared
      algorithm, as the storage backend computes them on write *)
  md5_hexdigest : string → string;
  stored_checksum : option string → string → option string;
  (** [S3Multipart.complete_multipart] of [models.py], whether its
      signature has [mpu_size], and the checksum the backend holds for
      the assembled object *)
  multipart_complete :
    S3Multipart.t → list CompletedPart.t → option Z → option string →
    result S3Multipart.t;
  multipart_has_mpu_size : S3Multipart.t → bool;
  multipart_stored_checksum : S3Multipart.t → option string;
  (** [S3Object.is_locked] *)
  is_locked : S3Version → option bool → bool;
  get_unique_key_id : string → string → option string → string;
  (** [urllib.parse.quote] *)
  quote : string → string;
  (** [base64.urlsafe_b64encode] and [base64.urlsafe_b64decode] on the
      UTF-8 encoding of a string; decoding fails on malformed input *)
  urlsafe_b64encode : string → string;
  urlsafe_b64decode : string → option string;
  urlsafe_b64decode_encode :
    ∀ s, urlsafe_b64decode (urlsafe_b64encode s) = Some s;
  urlsafe_b64encode_nonempty :
    ∀ s, s ≠ EmptyString → urlsafe_b64encode s ≠ EmptyString;
}.

(** ** Provider state *)

(** Calls made to the storage backend ([S3ObjectStore]). *)
Inductive BackendCall : Type :=
  | BackendWrite (bucket : string) (o : S3Object.t) (body : string)
  | BackendRemove (bucket : string) (o : S3Version)
  | BackendCompleteMultipart (bucket upload_id : string) (parts : list Z)
  | BackendRemoveMultipart (bucket upload_id : string).

(** An entry of [Parts] in the answer of ListParts; [Checksum] is the
    member [Checksum<ALGORITHM>] with its value. *)
Module Part.
Record t : Type := mk {
  ETag : string;
  LastModified : Z;
  PartNumber : Z;
  Size : Z;
  Checksum : option (string * option string);
}.
End Part.

(** [Initiator] and [Owner] are left out: they come from the request
    context. An empty [Parts] stands for the absent member. *)
Module ListPartsOutput.
Record t : Type := mk {
  Bucket : string;
  Key : string;
  UploadId : string;
  StorageClass : option string;
  IsTruncated : bool;
  MaxParts : Z;
  PartNumberMarker : Z;
  NextPartNumberMarker : Z;
  Parts : list Part.t;
  ChecksumAlgorithm : option string;
  ChecksumType : option string;
}.
End ListPartsOutput.

(** Modelled from the spec: [VersionedKeyStore.from_key_store] of
    [models.py] is missing. "On transition to [Enabled] all existing
    objects migrate with [version_id = "null"]". *)
Definition migrated (v : S3Version) : S3Version :=
  match v with
  | Object o => Object (S3Object.with_version_id (Some "null") o)
  | DeleteMarker m => DeleteMarker m
  end.

Definition from_key_store (s : KeyStore.t) : KeyStore.t :=
  fmap (M := gmap string) (fmap (M := list) migrated) s.

Section Provider.
Context `{C : Collaborators}.

(** The state an operation runs on once [_get_cross_account_bucket]
    has resolved [(store, s3_bucket)]: the bucket, the tag table of the
    store, the calls made so far to the storage backend, the
    notifications sent, the clock and the entropy. *)
Record State : Type := mkState {
  bucket : S3Bucket.t;
  tags : gmap string Tagging;
  backend : list BackendCall;
  notifications : list (string * S3Version);
  now : Z;
  entropy : Entropy;
}.

Definition set_bucket (b : S3Bucket.t) (st : State) : State :=
  mkState b (tags st) (backend st) (notifications st) (now st) (entropy st).

Definition set_tags (t : gmap string Tagging) (st : State) : State :=
  mkState (bucket st) t (backend st) (notifications st) (now st) (entropy st).

Definition set_entropy (e : Entropy) (st : State) : State :=
  mkState (bucket st) (tags st) (backend st) (notifications st) (now st) e.

Definition call_backend (c : BackendCall) (st : State) : State :=
  mkState (bucket st) (tags st) (backend st ++ [c]) (notifications st)
          (now st) (entropy st).

Definition notify (operation : string) (v : S3Version) (st : State) : State :=
  mkState (bucket st) (tags st) (backend st)
          (notifications st ++ [(operation, v)]) (now st) (entropy st).

(** [s3_bucket.objects.set(key, v)] on the bucket of the state *)
Definition objects_set (key : string) (v : S3Version) (st : State) : State :=
  let b := bucket st in
  set_bucket
    (S3Bucket.with_objects
       (KeyStore.set (S3Bucket.versioned b) key v (S3Bucket.objects b)) b) st.

(** [s3_bucket.multiparts[id] = m], also the write-back of a mutation of
    a multipart that the bucket holds *)
Definition multiparts_set (m : S3Multipart.t) (st : State) : State :=
  let b := bucket st in
  set_bucket
    (S3Bucket.with_multiparts (<[S3Multipart.id m := m]> (S3Bucket.multiparts b)) b)
    st.

Definition multiparts_pop (id : string) (st : State) : State :=
  let b := bucket st in
  set_bucket (S3Bucket.with_multiparts (delete id (S3Bucket.multiparts b)) b) st.

(** [store.TAGS.tags.pop(key_id, None)], then the new entry if any *)
Definition tags_replace (key_id : string) (tagging : option Tagging)
    (st : State) : State :=
  match tagging with
  | Some (t :: ts) => set_tags (<[key_id := t :: ts]> (delete key_id (tags st))) st
  | _ => set_tags (delete key_id (tags st)) st
  end.

(** State and exceptions: a raised exception keeps the effects that
    happened before it. *)
Definition M (A : Type) : Type := State → result A * State.

Global Instance M_ret : MRet M := λ A a st, (Ok a, st).

Global Instance M_bind : MBind M := λ A B f m st,
  match m st with
  | (Ok a, st') => f a st'
  | (Raise e, st') => (Raise e, st')
  end.

Definition raise {A} (e : S3Error) : M A := λ st, (Raise e, st).
Definition lift {A} (r : result A) : M A := λ st, (r, st).
Definition gets {A} (f : State → A) : M A := λ st, (Ok (f st), st).
Definition modify (f : State → State) : M unit := λ st, (Ok tt, f st).

(** *** [generate_version_id] (line 4437) *)
Definition generate_version_id (bucket_versioning_status : option string)
  : M (option string) :=
  if negb (Py.truthy bucket_versioning_status) then mret None
  else if String.eqb (Py.lower (default "" bucket_versioning_status)) "enabled"
  then
    e ← gets entropy;
    let '(tok, e') := generate_safe_version_id e in
    modify (set_entropy e');;
    mret (Some tok)
  else mret (Some "null").

(** *** [object_exists_for_precondition_write] (line 4654) *)
Definition object_exists_for_precondition_write
    (s3_bucket : S3Bucket.t) (key : string) : bool :=
  match KeyStore.get (S3Bucket.objects s3_bucket) key with
  | Some existing => negb (isinstance_S3DeleteMarker existing)
  | None => false
  end.

(** *** [verify_object_equality_precondition_write] (line 4658) *)
Definition verify_object_equality_precondition_write
    (s3_bucket : S3Bucket.t) (key : string) (etag : string)
    (initiated : option Z) : result unit :=
  match KeyStore.get (S3Bucket.objects s3_bucket) key with
  | None | Some (DeleteMarker _) => Raise NoSuchKey
  | Some (Object existing) =>
      if negb (String.eqb (S3Object.etag existing) (Py.strip Py.dquote etag))
      then Raise (PreconditionFailed "If-Match")
      else
        match initiated with
        | Some i =>
            if (i <? S3Object.last_modified existing)%Z
            then Raise (ConditionalRequestConflict "If-Match")
            else Ok tt
        | None => Ok tt
        end
  end.

(** *** [put_object] (line 677) *)

(** Lines 689-699: the storage class, the KMS key and the object key. *)
Definition put_object_validate_parameters (s3_bucket : S3Bucket.t)
    (request : PutObjectRequest.t) : result unit :=
  let storage_class := PutObjectRequest.StorageClass request in
  raise_if
    (match storage_class with
     | Some c =>
         negb (bool_decide (c ∈ STORAGE_CLASSES)) || String.eqb c OUTPOSTS
     | None => false
     end) InvalidStorageClass;;
  (if negb S3_SKIP_KMS_KEY_VALIDATION
      && Py.truthy (PutObjectRequest.SSEKMSKeyId request)
   then validate_kms_key_id
          (default "" (PutObjectRequest.SSEKMSKeyId request)) s3_bucket
   else Ok tt);;
  validate_object_key (PutObjectRequest.Key request).

(** Lines 701-715: the conditional headers. *)
Definition put_object_validate_conditions
    (request : PutObjectRequest.t) : result unit :=
  let if_match := PutObjectRequest.IfMatch request in
  let if_none_match := PutObjectRequest.IfNoneMatch request in
  if Py.truthy if_none_match && Py.truthy if_match
  then Raise (NotImplementedException "If-Match,If-None-Match")
  else if (Py.truthy if_none_match && negb (Py.eqb_opt if_none_match "*"))
          || (Py.truthy if_match && Py.eqb_opt if_match "*")
  then Raise (NotImplementedException
                (if Py.truthy if_none_match then "If-None-Match" else "If-Match"))
  else Ok tt.

(** Lines 808-815: the conditions checked inside the writer guard. *)
Definition put_object_precondition (s3_bucket : S3Bucket.t)
    (request : PutObjectRequest.t) : result unit :=
  let key := PutObjectRequest.Key request in
  let if_match := PutObjectRequest.IfMatch request in
  let if_none_match := PutObjectRequest.IfNoneMatch request in
  if Py.truthy if_none_match
     && object_exists_for_precondition_write s3_bucket key
  then Raise (PreconditionFailed "If-None-Match")
  else if Py.truthy if_match
  then verify_object_equality_precondition_write
         s3_bucket key (default "" if_match) None
  else Ok tt.

(** Lines 819-843: the checks on the written stream; a failure removes
    the stored bytes before raising. *)
Definition put_object_verify_content (bucket_name : string)
    (content_md5 : option string) (s3_object : S3Object.t) (body : string)
  : M S3Object.t :=
  let checksum := stored_checksum (S3Object.checksum_algorithm s3_object) body in
  s3_object ←
    (if Py.truthy (S3Object.checksum_algorithm s3_object)
     then
       if negb (Py.truthy (S3Object.checksum_value s3_object))
       then mret (S3Object.with_checksum_value checksum s3_object)
       else if negb (validate_checksum_value
                       (default "" (S3Object.checksum_value s3_object))
                       (S3Object.checksum_algorithm s3_object))
       then
         modify (call_backend (BackendRemove bucket_name (Object s3_object)));;
         raise (InvalidRequest
                  ("Value for x-amz-checksum-"
                   +:+ Py.lower (default "" (S3Object.checksum_algorithm s3_object))
                   +:+ " header is invalid."))
       else if negb (bool_decide (S3Object.checksum_value s3_object = checksum))
       then
         modify (call_backend (BackendRemove bucket_name (Object s3_object)));;
         raise BadDigest
       else mret s3_object
     else mret s3_object);
  (if Py.truthy content_md5
      && negb (String.eqb
                 (etag_to_base_64_content_md5 (S3Object.etag s3_object))
                 (default "" content_md5))
   then
     modify (call_backend (BackendRemove bucket_name (Object s3_object)));;
     raise BadDigest
   else mret tt);;
  mret s3_object.

(** Lines 760-882: the object record, the writer guard of the storage
    backend with the preconditions checked inside it, the commit to the
    key store, the tags, the response and the notification. *)
Definition put_object_write (request : PutObjectRequest.t)
    (version_id : option string) (fields : ObjectFields.t)
  : M PutObjectOutput.t :=
  let bucket_name := PutObjectRequest.Bucket request in
  let key := PutObjectRequest.Key request in
  let content_md5 := PutObjectRequest.ContentMD5 request in
  created ← gets now;
  let s3_object :=
    S3Object.mk key version_id "" 0 created
      (PutObjectRequest.StorageClass request)
      (ObjectFields.checksum_algorithm fields)
      (ObjectFields.checksum_value fields) None
      (ObjectFields.sse_c_key_md5 fields) (ObjectFields.kms_key_id fields) None in
  let body := ObjectFields.body fields in
  (* with self._storage_backend.open(bucket_name, s3_object, mode="w") *)
  s3_bucket ← gets bucket;
  lift (put_object_precondition s3_bucket request);;
  modify (call_backend (BackendWrite bucket_name s3_object body));;
  let s3_object :=
    S3Object.with_content (md5_hexdigest body)
      (Z.of_nat (String.length body)) s3_object in
  s3_object ← put_object_verify_content bucket_name content_md5 s3_object body;
  modify (objects_set key (Object s3_object));;
  let key_id := get_unique_key_id bucket_name key version_id in
  modify (tags_replace key_id (ObjectFields.tagging fields));;
  let response :=
    PutObjectOutput.mk
      (S3Object.quoted_etag s3_object)
      (if Py.eqb_opt (S3Bucket.versioning_status s3_bucket) "Enabled"
       then S3Object.version_id s3_object else None)
      (if Py.truthy (S3Object.checksum_algorithm s3_object)
       then S3Object.checksum_algorithm s3_object else None)
      (if Py.truthy (S3Object.checksum_algorithm s3_object)
       then S3Object.checksum_value s3_object else None)
      (if Py.truthy (ObjectFields.sse_c_key_md5 fields)
       then ObjectFields.sse_c_key_md5 fields else None) in
  modify (notify "PutObject" (Object s3_object));;
  mret response.

(** Lines 723-758: the [Content-MD5] header and the attributes that the
    collaborators derive from the request. *)
Definition put_object_fields_of (s3_bucket : S3Bucket.t)
    (request : PutObjectRequest.t) : result ObjectFields.t :=
  let content_md5 := PutObjectRequest.ContentMD5 request in
  raise_if
    (Py.truthy content_md5
     && String.eqb (base_64_content_md5_to_etag (default "" content_md5)) "")
    InvalidDigest;;
  put_object_fields request s3_bucket.

Definition put_object (request : PutObjectRequest.t) : M PutObjectOutput.t :=
  s3_bucket ← gets bucket;
  lift (put_object_validate_parameters s3_bucket request);;
  lift (put_object_validate_conditions request);;
  version_id ← generate_version_id (S3Bucket.versioning_status s3_bucket);
  fields ← lift (put_object_fields_of s3_bucket request);
  put_object_write request version_id fields.

(** *** [complete_multipart_upload] (line 2497) *)

(** Lines 2531-2566: the conditional headers of the completion. *)
Definition complete_multipart_upload_precondition
    (s3_bucket : S3Bucket.t) (s3_multipart : S3Multipart.t)
    (key : string) (if_match if_none_match : option string) : result unit :=
  if Py.truthy if_none_match && Py.truthy if_match
  then Raise (NotImplementedException "If-Match,If-None-Match")
  else if Py.truthy if_none_match
  then
    if negb (Py.eqb_opt if_none_match "*")
    then Raise (NotImplementedException "If-None-Match")
    else if object_exists_for_precondition_write s3_bucket key
    then Raise (PreconditionFailed "If-None-Match")
    else if S3Multipart.precondition s3_multipart
    then Raise (ConditionalRequestConflict "If-None-Match")
    else Ok tt
  else if Py.truthy if_match
  then
    if Py.eqb_opt if_match "*"
    then Raise (NotImplementedException "If-None-Match")
    else verify_object_equality_precondition_write
           s3_bucket key (default "" if_match)
           (Some (S3Multipart.initiated s3_multipart))
  else Ok tt.

(** Lines 2522-2529: the upload named by the request. *)
Definition get_multipart (s3_bucket : S3Bucket.t) (upload_id key : string)
  : result S3Multipart.t :=
  match S3Bucket.multiparts s3_bucket !! upload_id with
  | Some m =>
      if negb (String.eqb (S3Object.key (S3Multipart.object m)) key)
      then Raise NoSuchUpload else Ok m
  | None => Raise NoSuchUpload
  end.

(** [sorted(parts_numbers)] *)
Definition sorted_numbers (l : list Z) : list Z := merge_sort Z.le l.

(** Lines 2568-2580: the list of parts; returns [parts_numbers]. *)
Definition complete_multipart_upload_parts
    (parts : list CompletedPart.t) : result (list Z) :=
  match parts with
  | [] => Raise (InvalidRequest "You must specify at least one part")
  | _ =>
      let parts_numbers := CompletedPart.PartNumber <$> parts in
      if negb (bool_decide (sorted_numbers parts_numbers = parts_numbers))
      then Raise InvalidPartOrder
      else Ok parts_numbers
  end.

(** [checksum_map.get(checksum_algorithm)] *)
Definition checksum_map_get (request : CompleteMultipartUploadRequest.t)
    (checksum_algorithm : option string) : option string :=
  match checksum_algorithm with
  | Some "crc32" => CompleteMultipartUploadRequest.ChecksumCRC32 request
  | Some "crc32c" => CompleteMultipartUploadRequest.ChecksumCRC32C request
  | Some "crc64nvme" => CompleteMultipartUploadRequest.ChecksumCRC64NVME request
  | Some "sha1" => CompleteMultipartUploadRequest.ChecksumSHA1 request
  | Some "sha256" => CompleteMultipartUploadRequest.ChecksumSHA256 request
  | _ => None
  end.

(** [any(value for name, value in checksum_map.items() if name != checksum_algorithm)] *)
Definition checksum_map_any_other (request : CompleteMultipartUploadRequest.t)
    (checksum_algorithm : option string) : bool :=
  existsb
    (λ entry : string * option string,
       negb (bool_decide (Some entry.1 = checksum_algorithm)) && Py.truthy entry.2)
    [ ("crc32", CompleteMultipartUploadRequest.ChecksumCRC32 request);
      ("crc32c", CompleteMultipartUploadRequest.ChecksumCRC32C request);
      ("crc64nvme", CompleteMultipartUploadRequest.ChecksumCRC64NVME request);
      ("sha1", CompleteMultipartUploadRequest.ChecksumSHA1 request);
      ("sha256", CompleteMultipartUploadRequest.ChecksumSHA256 request) ].

Definition complete_multipart_upload
    (request : CompleteMultipartUploadRequest.t)
  : M CompleteMultipartUploadOutput.t :=
  let bucket_name := CompleteMultipartUploadRequest.Bucket request in
  let key := CompleteMultipartUploadRequest.Key request in
  let upload_id := CompleteMultipartUploadRequest.UploadId request in
  let checksum_type := CompleteMultipartUploadRequest.ChecksumType request in
  s3_bucket ← gets bucket;
  s3_multipart ← lift (get_multipart s3_bucket upload_id key);
  lift (complete_multipart_upload_precondition s3_bucket s3_multipart key
          (CompleteMultipartUploadRequest.IfMatch request)
          (CompleteMultipartUploadRequest.IfNoneMatch request));;
  let parts := CompleteMultipartUploadRequest.Parts request in
  parts_numbers ← lift (complete_multipart_upload_parts parts);
  let mpu_checksum_algorithm := S3Multipart.checksum_algorithm s3_multipart in
  let mpu_checksum_type := S3Multipart.checksum_type s3_multipart in
  lift (raise_if
          (Py.truthy checksum_type
           && negb (bool_decide (checksum_type = mpu_checksum_type)))
          (InvalidRequest
             ("The upload was created using the "
              +:+ Py.or_str mpu_checksum_type "null"
              +:+ " checksum mode. The complete request must use the same checksum mode.")));;
  version_id ← generate_version_id (S3Bucket.versioning_status s3_bucket);
  let s3_multipart :=
    S3Multipart.with_object
      (S3Object.with_version_id version_id (S3Multipart.object s3_multipart))
      s3_multipart in
  modify (multiparts_set s3_multipart);;
  s3_multipart ←
    (if multipart_has_mpu_size s3_multipart
     then
       let checksum_algorithm :=
         if Py.truthy mpu_checksum_algorithm
         then Py.lower <$> mpu_checksum_algorithm else None in
       let checksum_value := checksum_map_get request checksum_algorithm in
       completed ←
         lift (multipart_complete s3_multipart parts
                 (CompleteMultipartUploadRequest.MpuObjectSize request)
                 checksum_value);
       modify (multiparts_set completed);;
       (if Py.truthy mpu_checksum_algorithm
           && ((Py.truthy checksum_value
                && Py.eqb_opt mpu_checksum_type FULL_OBJECT
                && negb (Py.truthy checksum_type))
               || checksum_map_any_other request checksum_algorithm)
        then raise BadDigest
        else mret completed)
     else
       completed ← lift (multipart_complete s3_multipart parts None None);
       modify (multiparts_set completed);;
       mret completed);
  modify (call_backend
            (BackendCompleteMultipart bucket_name upload_id parts_numbers));;
  let s3_object :=
    if negb (Py.truthy (S3Multipart.checksum_algorithm s3_multipart))
       && Py.truthy (S3Object.checksum_algorithm (S3Multipart.object s3_multipart))
    then
      S3Object.with_checksum_type (Some FULL_OBJECT)
        (S3Object.with_checksum_value
           (multipart_stored_checksum s3_multipart)
           (S3Multipart.object s3_multipart))
    else S3Multipart.object s3_multipart in
  modify (objects_set key (Object s3_object));;
  modify (call_backend (BackendRemoveMultipart bucket_name upload_id));;
  modify (multiparts_pop (S3Multipart.id s3_multipart));;
  let key_id := get_unique_key_id bucket_name key version_id in
  modify (tags_replace key_id (S3Multipart.tagging s3_multipart));;
  let with_checksum :=
    Py.truthy (S3Object.checksum_algorithm s3_object)
    && negb (Py.truthy (S3Object.kms_key_id s3_object)) in
  let response :=
    CompleteMultipartUploadOutput.mk bucket_name key
      (S3Object.quoted_etag s3_object)
      (if Py.truthy (S3Object.version_id s3_object)
       then S3Object.version_id s3_object else None)
      (if with_checksum then S3Object.checksum_value s3_object else None)
      (if with_checksum then S3Object.checksum_type s3_object else None) in
  modify (notify "CompleteMultipartUpload" (Object s3_object));;
  mret response.

(** *** [create_multipart_upload] (line 2114) *)

(** Lines 2144-2172: the checksum algorithm and the checksum type of the
    upload; returns the resolved [checksum_type]. *)
Definition create_multipart_upload_checksum
    (checksum_algorithm checksum_type : option string)
  : result (option string) :=
  raise_if
    (Py.truthy checksum_algorithm
     && negb (bool_decide (default "" checksum_algorithm ∈ CHECKSUM_ALGORITHMS)))
    (InvalidRequest
       "Checksum algorithm provided is unsupported. Please try again with any of the valid types: [CRC32, CRC32C, SHA1, SHA256]");;
  checksum_type ←
    (if negb (Py.truthy checksum_type) && Py.truthy checksum_algorithm
     then
       if Py.eqb_opt checksum_algorithm CRC64NVME
       then Ok (Some FULL_OBJECT)
       else Ok (Some COMPOSITE)
     else if Py.truthy checksum_type && negb (Py.truthy checksum_algorithm)
     then Raise (InvalidRequest
                   "The x-amz-checksum-type header can only be used with the x-amz-checksum-algorithm header.")
     else Ok checksum_type);
  if Py.eqb_opt checksum_type COMPOSITE
     && Py.eqb_opt checksum_algorithm CRC64NVME
  then Raise (InvalidRequest
                "The COMPOSITE checksum type cannot be used with the crc64nvme checksum algorithm.")
  else if Py.eqb_opt checksum_type FULL_OBJECT
          && Py.startswith (Py.upper (default "" checksum_algorithm)) "SHA"
  then Raise (InvalidRequest
                ("The FULL_OBJECT checksum type cannot be used with the "
                 +:+ Py.lower (default "" checksum_algorithm)
                 +:+ " checksum algorithm."))
  else Ok checksum_type.

(** Lines 2125-2136: the storage class, the KMS key and the tagging
    header; returns the parsed tagging. *)
Definition create_multipart_upload_validate (s3_bucket : S3Bucket.t)
    (request : CreateMultipartUploadRequest.t) : result (option Tagging) :=
  let storage_class := CreateMultipartUploadRequest.StorageClass request in
  raise_if
    (match storage_class with
     | Some c =>
         negb (bool_decide (c ∈ STORAGE_CLASSES)) || String.eqb c OUTPOSTS
     | None => false
     end) InvalidStorageClass;;
  (if negb S3_SKIP_KMS_KEY_VALIDATION
      && Py.truthy (CreateMultipartUploadRequest.SSEKMSKeyId request)
   then validate_kms_key_id
          (default "" (CreateMultipartUploadRequest.SSEKMSKeyId request))
          s3_bucket
   else Ok tt);;
  if Py.truthy (CreateMultipartUploadRequest.Tagging request)
  then Some <$> parse_tagging_header
                  (default "" (CreateMultipartUploadRequest.Tagging request))
  else Ok None.

Definition create_multipart_upload (request : CreateMultipartUploadRequest.t)
  : M CreateMultipartUploadOutput.t :=
  let bucket_name := CreateMultipartUploadRequest.Bucket request in
  s3_bucket ← gets bucket;
  let storage_class := CreateMultipartUploadRequest.StorageClass request in
  tagging ← lift (create_multipart_upload_validate s3_bucket request);
  let key := CreateMultipartUploadRequest.Key request in
  let checksum_algorithm := CreateMultipartUploadRequest.ChecksumAlgorithm request in
  checksum_type ←
    lift (create_multipart_upload_checksum checksum_algorithm
            (CreateMultipartUploadRequest.ChecksumType request));
  let sse_c_key_md5 := CreateMultipartUploadRequest.SSECustomerKeyMD5 request in
  kms_key_id ← lift (create_multipart_upload_fields request s3_bucket);
  created ← gets now;
  e ← gets entropy;
  let '(upload_id, e') := generate_upload_id e in
  modify (set_entropy e');;
  let object :=
    S3Object.mk key None "" 0 created storage_class
      (if Py.truthy sse_c_key_md5 then None else checksum_algorithm)
      None checksum_type sse_c_key_md5 kms_key_id None in
  let s3_multipart :=
    S3Multipart.mk upload_id object created
      (object_exists_for_precondition_write s3_bucket key) ∅
      checksum_algorithm checksum_type tagging in
  modify (multiparts_set s3_multipart);;
  mret (CreateMultipartUploadOutput.mk bucket_name key upload_id
          (if Py.truthy checksum_algorithm then checksum_algorithm else None)
          (if Py.truthy checksum_algorithm then checksum_type else None)).

(** *** [delete_object] (line 1168) *)
Definition delete_object (bucket_name key : string)
    (version_id : option string) (bypass_governance_retention : option bool)
  : M DeleteObjectOutput.t :=
  s3_bucket ← gets bucket;
  lift (raise_if
          (bool_decide (is_Some bypass_governance_retention)
           && negb (S3Bucket.object_lock_enabled s3_bucket))
          (InvalidArgument "x-amz-bypass-governance-retention"));;
  match S3Bucket.versioning_status s3_bucket with
  | None =>
      lift (raise_if
              (Py.truthy version_id && negb (Py.eqb_opt version_id "null"))
              (InvalidArgument "versionId"));;
      let '(found_object, objects) :=
        KeyStore.pop (S3Bucket.objects s3_bucket) key in
      modify (λ st, set_bucket (S3Bucket.with_objects objects (bucket st)) st);;
      match found_object with
      | Some found =>
          modify (call_backend (BackendRemove bucket_name found));;
          modify (notify "DeleteObject" found);;
          modify (λ st,
            set_tags
              (delete (get_unique_key_id bucket_name key version_id) (tags st))
              st)
      | None => mret tt
      end;;
      mret (DeleteObjectOutput.mk None None)
  | Some versioning_status =>
      if negb (Py.truthy version_id)
      then
        delete_marker_id ← generate_version_id (Some versioning_status);
        created ← gets now;
        let delete_marker := S3DeleteMarker.mk key delete_marker_id created in
        modify (objects_set key (DeleteMarker delete_marker));;
        modify (notify "DeleteObject:MarkerCreated" (DeleteMarker delete_marker));;
        mret (DeleteObjectOutput.mk delete_marker_id (Some true))
      else if negb (KeyStore.mem (S3Bucket.objects s3_bucket) key)
      then mret (DeleteObjectOutput.mk None None)
      else
        match KeyStore.get_version (S3Bucket.objects s3_bucket) key version_id with
        | None => raise (InvalidArgument "versionId")
        | Some s3_object =>
            lift (raise_if (is_locked s3_object bypass_governance_retention)
                    AccessDenied);;
            modify (λ st,
              set_bucket
                (S3Bucket.with_objects
                   (KeyStore.pop_version (S3Bucket.objects (bucket st)) key version_id)
                   (bucket st)) st);;
            (if isinstance_S3DeleteMarker s3_object then mret tt
             else
               modify (call_backend (BackendRemove bucket_name s3_object));;
               modify (λ st,
                 set_tags
                   (delete (get_unique_key_id bucket_name key version_id) (tags st))
                   st));;
            modify (notify "DeleteObject" s3_object);;
            mret (DeleteObjectOutput.mk (version_version_id s3_object)
                    (if isinstance_S3DeleteMarker s3_object then Some true else None))
        end
  end.

(** *** The listings (lines 1592 and 1703) *)

(** The variables of the listing loops. *)
Record Listing : Type := mkListing {
  common_prefixes : gset string;
  count : Z;
  is_truncated : bool;
  next_token : option string;
  s3_objects : list ObjectData.t;
}.

Definition Listing_init : Listing := mkListing ∅ 0 false None [].

Definition object_data (key : string) (s3_object : S3Object.t) : ObjectData.t :=
  ObjectData.mk key (S3Object.quoted_etag s3_object) (S3Object.size s3_object)
    (S3Object.last_modified s3_object) (S3Object.storage_class s3_object)
    (if Py.truthy (S3Object.checksum_algorithm s3_object)
     then S3Object.checksum_algorithm s3_object else None).

(** The prefix up to and including the first delimiter after [prefix],
    for a key with a delimiter there. *)
Definition prefix_including_delimiter (prefix delimiter key : string)
  : option string :=
  let key_no_prefix := Py.removeprefix key prefix in
  if Py.truthy (Some delimiter) && Py.contains delimiter key_no_prefix
  then
    let pre_delimiter := (Py.partition delimiter key_no_prefix).1.1 in
    Some (prefix +:+ pre_delimiter +:+ delimiter)
  else None.

(** One turn of the loop adds either a [CommonPrefix] or an [Object]
    and increases the counter. *)
Definition listing_add (pid : option string) (data : ObjectData.t)
    (acc : Listing) : Listing :=
  if Py.truthy pid
  then mkListing ({[default "" pid]} ∪ common_prefixes acc) (count acc + 1)
         (is_truncated acc) (next_token acc) (s3_objects acc)
  else mkListing (common_prefixes acc) (count acc + 1)
         (is_truncated acc) (next_token acc) (s3_objects acc ++ [data]).

Definition listing_truncate (token : option string) (acc : Listing) : Listing :=
  mkListing (common_prefixes acc) (count acc) true token (s3_objects acc).

(** [sorted(common_prefixes)] *)
Definition sorted_prefixes (cps : gset string) : list string :=
  merge_sort String.le (elements cps).

(** The loop of [list_objects] (lines 1625-1676). *)
Fixpoint list_objects_loop (encoding_type marker : option string)
    (prefix delimiter : string) (max_keys : Z) (last_key : option S3Object.t)
    (all_keys : list S3Object.t) (acc : Listing) : Listing :=
  match all_keys with
  | [] => acc
  | s3_object :: rest =>
      let continue :=
        list_objects_loop encoding_type marker prefix delimiter max_keys
          last_key rest in
      let key :=
        if Py.truthy encoding_type then quote (S3Object.key s3_object)
        else S3Object.key s3_object in
      if Py.truthy marker && Py.le key (default "" marker) then continue acc
      else if Py.truthy (Some prefix) && negb (Py.startswith key prefix)
      then continue acc
      else
        let pid := prefix_including_delimiter prefix delimiter key in
        if match pid with
           | Some p =>
               bool_decide (p ∈ common_prefixes acc)
               || (Py.truthy marker && Py.startswith (default "" marker) p)
           | None => false
           end
        then continue acc
        else
          let acc := listing_add pid (object_data key s3_object) acc in
          if (max_keys <=? count acc)%Z
             && negb (bool_decide
                        (S3Object.key <$> last_key = Some (S3Object.key s3_object)))
          then
            listing_truncate
              (if Py.truthy pid then pid
               else ObjectData.Key <$> last (s3_objects acc)) acc
          else continue acc
  end.

Definition list_objects (bucket_name : string)
    (delimiter encoding_type marker : option string) (max_keys : option Z)
    (prefix : option string) : M ListObjectsOutput.t :=
  s3_bucket ← gets bucket;
  let max_keys := Py.or_int max_keys 1000 in
  let prefix := Py.or_str prefix "" in
  let delimiter := Py.or_str delimiter "" in
  let prefix := if Py.truthy encoding_type then quote prefix else prefix in
  let delimiter := if Py.truthy encoding_type then quote delimiter else delimiter in
  let all_keys :=
    KeyStore.sorted_by_key (KeyStore.values (S3Bucket.objects s3_bucket)) in
  let last_key := last all_keys in
  let r :=
    list_objects_loop encoding_type marker prefix delimiter max_keys last_key
      all_keys Listing_init in
  mret (ListObjectsOutput.mk (is_truncated r) bucket_name max_keys prefix
          (Py.or_str marker "") (s3_objects r)
          (if Py.truthy encoding_type then Some "url" else None)
          (if Py.truthy (Some delimiter) then Some delimiter else None)
          (sorted_prefixes (common_prefixes r))
          (if Py.truthy (Some delimiter) && Py.truthy (next_token r)
           then next_token r else None)).

(** The loop of [list_objects_v2] (lines 1746-1806). *)
Fixpoint list_objects_v2_loop
    (encoding_type continuation_token decoded_continuation_token
       start_after : option string)
    (prefix delimiter : string) (max_keys : Z)
    (all_keys : list S3Object.t) (acc : Listing) : Listing :=
  match all_keys with
  | [] => acc
  | s3_object :: rest =>
      let continue :=
        list_objects_v2_loop encoding_type continuation_token
          decoded_continuation_token start_after prefix delimiter max_keys rest in
      let key :=
        if Py.truthy encoding_type then quote (S3Object.key s3_object)
        else S3Object.key s3_object in
      if if Py.truthy continuation_token
         then Py.lt key (default "" decoded_continuation_token)
         else Py.truthy start_after && Py.le key (default "" start_after)
      then continue acc
      else if Py.truthy (Some prefix) && negb (Py.startswith key prefix)
      then continue acc
      else
        let pid := prefix_including_delimiter prefix delimiter key in
        if match pid with
           | Some p => bool_decide (p ∈ common_prefixes acc)
           | None => false
           end
        then continue acc
        else if (max_keys <=? count acc)%Z
        then
          listing_truncate
            (Some (urlsafe_b64encode (S3Object.key s3_object))) acc
        else continue (listing_add pid (object_data key s3_object) acc)
  end.

Definition list_objects_v2 (bucket_name : string)
    (delimiter encoding_type : option string) (max_keys : option Z)
    (prefix continuation_token start_after : option string)
  : M ListObjectsV2Output.t :=
  s3_bucket ← gets bucket;
  lift (raise_if (bool_decide (continuation_token = Some ""))
          (InvalidArgument "continuation-token"));;
  let max_keys := Py.or_int max_keys 1000 in
  let prefix := Py.or_str prefix "" in
  let delimiter := Py.or_str delimiter "" in
  let prefix := if Py.truthy encoding_type then quote prefix else prefix in
  let delimiter := if Py.truthy encoding_type then quote delimiter else delimiter in
  decoded_continuation_token ←
    lift (if Py.truthy continuation_token
          then
            match urlsafe_b64decode (default "" continuation_token) with
            | Some d => Ok (Some d)
            | None => Raise (OtherError "binascii.Error")
            end
          else Ok None);
  let r :=
    list_objects_v2_loop encoding_type continuation_token
      decoded_continuation_token start_after prefix delimiter max_keys
      (KeyStore.sorted_by_key (KeyStore.values (S3Bucket.objects s3_bucket)))
      Listing_init in
  mret (ListObjectsV2Output.mk (is_truncated r) bucket_name max_keys prefix
          (count r) (s3_objects r)
          (if Py.truthy encoding_type then Some "url" else None)
          (if Py.truthy (Some delimiter) then Some delimiter else None)
          (sorted_prefixes (common_prefixes r))
          (if Py.truthy (next_token r) then next_token r else None)
          (if Py.truthy continuation_token then continuation_token else None)
          (if negb (Py.truthy continuation_token) && Py.truthy start_after
           then start_after else None)).

(** *** [abort_multipart_upload] (line 2683) *)
Definition abort_multipart_upload (bucket_name key upload_id : string) : M unit :=
  s3_bucket ← gets bucket;
  s3_multipart ← lift (get_multipart s3_bucket upload_id key);
  modify (multiparts_pop upload_id);;
  modify (call_backend
            (BackendRemoveMultipart bucket_name (S3Multipart.id s3_multipart)));;
  mret tt.

(** *** [list_parts] (line 2712) *)

(** Modelled from the spec: [S3Part.quoted_etag] of [models.py] is
    missing; as for objects, the "etag" between double quotes. *)
Definition part_quoted_etag (part : S3Part.t) : string :=
  String Py.dquote (S3Part.etag part +:+ String Py.dquote EmptyString).

(** [sorted(s3_multipart.parts.items())]: the part numbers of a
    dictionary are distinct, so the pairs are compared by part number. *)
Definition le_part_number (a b : Z * S3Part.t) : Prop := (a.1 ≤ b.1)%Z.

Global Instance le_part_number_dec a b : Decision (le_part_number a b).
Proof. unfold le_part_number. apply _. Defined.

Definition sorted_items (parts : gmap Z S3Part.t) : list (Z * S3Part.t) :=
  merge_sort le_part_number (map_to_list parts).

(** Lines 2756-2763: the entry of a part. *)
Definition part_item (mpu_checksum_algorithm : option string)
    (part_number : Z) (part : S3Part.t) : Part.t :=
  Part.mk (part_quoted_etag part) (S3Part.last_modified part) part_number
    (S3Part.size part)
    (if Py.truthy mpu_checksum_algorithm
        && Py.truthy (S3Part.checksum_algorithm part)
     then Some ("Checksum"
                +:+ Py.upper (default "" (S3Part.checksum_algorithm part)),
                S3Part.checksum_value part)
     else None).

(** The loop of [list_parts] (lines 2753-2770); returns [parts] and
    [is_truncated]. *)
Fixpoint list_parts_loop (mpu_checksum_algorithm : option string)
    (part_number_marker max_parts : Z) (last_part_number : option Z)
    (all_parts : list (Z * S3Part.t)) (parts : list Part.t) (count : Z)
  : list Part.t * bool :=
  match all_parts with
  | [] => (parts, false)
  | (part_number, part) :: rest =>
      if (part_number <=? part_number_marker)%Z
      then list_parts_loop mpu_checksum_algorithm part_number_marker max_parts
             last_part_number rest parts count
      else
        let parts :=
          (parts ++ [part_item mpu_checksum_algorithm part_number part])%list in
        let count := (count + 1)%Z in
        if (max_parts <=? count)%Z
           && negb (bool_decide
                      (Some (S3Part.part_number part) = last_part_number))
        then (parts, true)
        else list_parts_loop mpu_checksum_algorithm part_number_marker
               max_parts last_part_number rest parts count
  end.

Definition list_parts (bucket_name key upload_id : string)
    (max_parts part_number_marker : option Z) : M ListPartsOutput.t :=
  s3_bucket ← gets bucket;
  s3_multipart ← lift (get_multipart s3_bucket upload_id key);
  let part_number_marker := Py.or_int part_number_marker 0 in
  let max_parts := Py.or_int max_parts 1000 in
  let all_parts := sorted_items (S3Multipart.parts s3_multipart) in
  let last_part_number := fst <$> last all_parts in
  let '(parts, is_truncated) :=
    list_parts_loop (S3Multipart.checksum_algorithm s3_multipart)
      part_number_marker max_parts last_part_number all_parts [] 0 in
  mret (ListPartsOutput.mk bucket_name key upload_id
          (S3Object.storage_class (S3Multipart.object s3_multipart))
          is_truncated max_parts part_number_marker
          (default 0%Z (Part.PartNumber <$> last parts))
          parts
          (if Py.truthy (S3Multipart.checksum_algorithm s3_multipart)
           then S3Object.checksum_algorithm (S3Multipart.object s3_multipart)
           else None)
          (if Py.truthy (S3Multipart.checksum_algorithm s3_multipart)
           then S3Multipart.checksum_type s3_multipart else None)).

(** *** [put_bucket_versioning] (line 2929) and [get_bucket_versioning]
    (line 2960) *)

(** [s3_bucket.versioning_status = versioning_status], after the
    migration of the key store of a bucket that had no status. *)
Definition set_versioning_status (versioning_status : string) (st : State)
  : State :=
  let b := bucket st in
  set_bucket
    (S3Bucket.mk (S3Bucket.name b) (Some versioning_status)
       (S3Bucket.object_lock_enabled b) (S3Bucket.bucket_region b)
       (if negb (Py.truthy (S3Bucket.versioning_status b))
        then from_key_store (S3Bucket.objects b) else S3Bucket.objects b)
       (S3Bucket.multiparts b))
    st.

(** [Status] is [versioning_configuration.get("Status")]. *)
Definition put_bucket_versioning (bucket_name : string) (Status : option string)
  : M unit :=
  s3_bucket ← gets bucket;
  lift (raise_if (negb (Py.truthy Status))
          (OtherError "IllegalVersioningConfigurationException"));;
  let versioning_status := default "" Status in
  lift (raise_if
          (negb (bool_decide (versioning_status ∈ ["Enabled"; "Suspended"])))
          (OtherError "MalformedXML"));;
  lift (raise_if
          (S3Bucket.object_lock_enabled s3_bucket
           && String.eqb versioning_status "Suspended")
          (OtherError "InvalidBucketState"));;
  modify (set_versioning_status versioning_status).

(** Returns [Status] of the output, absent for the empty output. *)
Definition get_bucket_versioning (bucket_name : string) : M (option string) :=
  s3_bucket ← gets bucket;
  if negb (Py.truthy (S3Bucket.versioning_status s3_bucket))
  then mret None
  else mret (S3Bucket.versioning_status s3_bucket).

End Provider.

(** * Verification *)

(** ** Python built-ins on examples *)

Example strip_etag :
  Py.strip Py.dquote (String Py.dquote ("abc" +:+ String Py.dquote "")) = "abc".
Proof. reflexivity. Qed.

Example partition_found : Py.partition "/" "a/1/2" = ("a", "/", "1/2").
Proof. reflexivity. Qed.

Example partition_missing : Py.partition "/" "abc" = ("abc", "", "").
Proof. reflexivity. Qed.

Example upper_sha : Py.startswith (Py.upper "sha256") "SHA" = true.
Proof. reflexivity. Qed.


(** ** A reference set of collaborators

    A concrete instance of [Collaborators], on which the statements below
    are exercised: validators accept every request, digests are the
    content itself, tokens are drawn from a counter. *)

Definition token_alphabet : list ascii :=
  list_ascii_of_string
    "ABCDEFGHIJKLMNOPQRSTUVWXYZabcdefghijklmnopqrstuvwxyz0123456789._".

Fixpoint token_digits (n : nat) (e : N) : string :=
  match n with
  | O => EmptyString
  | S n' =>
      String (nth (N.to_nat (e mod 64)) token_alphabet "A"%char)
             (token_digits n' (e / 64))
  end.

Definition reference_key_id (bucket key : string) (version_id : option string)
  : string :=
  bucket +:+ "/" +:+ key +:+ "/" +:+ Py.or_str version_id "null".

Definition reference_fields (request : PutObjectRequest.t) (b : S3Bucket.t)
  : result ObjectFields.t :=
  Ok (ObjectFields.mk None None None None None (PutObjectRequest.Body request)).

Definition reference_b64encode (s : string) : string := "b64:" +:+ s.

Definition reference_b64decode (s : string) : option string :=
  if Py.startswith s "b64:" then Some (Py.drop 4 s) else None.

Lemma reference_b64_roundtrip s :
  reference_b64decode (reference_b64encode s) = Some s.
Proof.
  unfold reference_b64decode, reference_b64encode, Py.startswith.
  cbn. by destruct s.
Qed.

Lemma reference_b64_nonempty s :
  s ≠ EmptyString → reference_b64encode s ≠ EmptyString.
Proof. discriminate. Qed.

Definition reference : Collaborators := {|
  Entropy := N;
  generate_safe_version_id := λ e, (token_digits 32 e, N.succ e);
  generate_upload_id := λ e, (token_digits 16 e, N.succ e);
  STORAGE_CLASSES :=
    ["STANDARD"; "REDUCED_REDUNDANCY"; "STANDARD_IA"; "ONEZONE_IA";
     "INTELLIGENT_TIERING"; "GLACIER"; "DEEP_ARCHIVE"; "OUTPOSTS";
     "GLACIER_IR"];
  CHECKSUM_ALGORITHMS := ["CRC32"; "CRC32C"; "SHA1"; "SHA256"; "CRC64NVME"];
  S3_SKIP_KMS_KEY_VALIDATION := false;
  validate_kms_key_id := λ _ _, Ok tt;
  validate_object_key := λ _, Ok tt;
  base_64_content_md5_to_etag := λ s, s;
  etag_to_base_64_content_md5 := λ s, s;
  validate_checksum_value := λ _ _, true;
  put_object_fields := reference_fields;
  parse_tagging_header := λ _, Ok [];
  create_multipart_upload_fields := λ _ _, Ok None;
  md5_hexdigest := λ body, body;
  stored_checksum := λ alg body, if Py.truthy alg then Some body else None;
  multipart_complete := λ m _ _ _, Ok m;
  multipart_has_mpu_size := λ _, true;
  multipart_stored_checksum := λ _, None;
  is_locked := λ _ _, false;
  get_unique_key_id := reference_key_id;
  quote := λ s, s;
  urlsafe_b64encode := reference_b64encode;
  urlsafe_b64decode := reference_b64decode;
  urlsafe_b64decode_encode := reference_b64_roundtrip;
  urlsafe_b64encode_nonempty := reference_b64_nonempty;
|}.

(** Buckets and states for the examples. *)
Definition example_object (key etag : string) (last_modified : Z) : S3Object.t :=
  S3Object.mk key None etag 0 last_modified None None None None None None None.

Definition example_bucket (versioning_status : option string)
    (objects : KeyStore.t) (multiparts : gmap string S3Multipart.t) : S3Bucket.t :=
  S3Bucket.mk "b" versioning_status false "us-east-1" objects multiparts.

Definition example_state (b : S3Bucket.t) : State (C := reference) :=
  @mkState reference b ∅ [] [] 100 0%N.

(** ** The state monad *)

Section MonadLaws.
Context `{C : Collaborators}.

Lemma bind_gets {A B} (f : State → A) (k : A → M B) st :
  (gets f ≫= k) st = k (f st) st.
Proof. reflexivity. Qed.

Lemma bind_modify {B} (f : State → State) (k : unit → M B) st :
  (modify f ≫= k) st = k tt (f st).
Proof. reflexivity. Qed.

Lemma bind_lift_ok {A B} (r : result A) a (k : A → M B) st :
  r = Ok a → (lift r ≫= k) st = k a st.
Proof. by intros ->. Qed.

Lemma bind_lift_raise {A B} (r : result A) e (k : A → M B) st :
  r = Raise e → (lift r ≫= k) st = (Raise e, st).
Proof. by intros ->. Qed.

Lemma bind_ret {A B} (a : A) (k : A → M B) st :
  (mret a ≫= k) st = k a st.
Proof. reflexivity. Qed.

Lemma bind_run_ok {A B} (m : M A) (k : A → M B) st a st' :
  m st = (Ok a, st') → (m ≫= k) st = k a st'.
Proof. unfold mbind, M_bind. by intros ->. Qed.

Lemma bind_run_raise {A B} (m : M A) (k : A → M B) st e st' :
  m st = (Raise e, st') → (m ≫= k) st = (Raise e, st').
Proof. unfold mbind, M_bind. by intros ->. Qed.

End MonadLaws.

(** ** Conditional headers that are not implemented (C6) *)

(** The header combinations the specification lists as unsupported: both
    headers at once, an [If-None-Match] other than [*], an [If-Match]
    equal to [*]. A header is supplied when its value is not empty. *)
Definition unsupported_conditions (if_match if_none_match : option string) : Prop :=
  (Py.truthy if_none_match = true ∧ Py.truthy if_match = true)
  ∨ (Py.truthy if_none_match = true ∧ if_none_match ≠ Some "*")
  ∨ if_match = Some "*".

Section ConditionalHeaders.
Context `{C : Collaborators}.

Lemma put_object_validate_conditions_rejects request :
  unsupported_conditions (PutObjectRequest.IfMatch request)
    (PutObjectRequest.IfNoneMatch request) →
  ∃ h, put_object_validate_conditions request = Raise (NotImplementedException h).
Proof.
  unfold put_object_validate_conditions.
  intros [[H1 H2]|[[H1 H2]|H]].
  - rewrite H1, H2. eauto.
  - rewrite H1. destruct (Py.truthy (PutObjectRequest.IfMatch request)); [eauto|].
    destruct (PutObjectRequest.IfNoneMatch request) as [s|]; [|done].
    simpl. destruct (String.eqb_spec s "*"); [congruence|]. simpl. eauto.
  - rewrite H. simpl. destruct (Py.truthy _); simpl; eauto.
Qed.

Lemma complete_multipart_upload_precondition_rejects b m key if_match if_none_match :
  unsupported_conditions if_match if_none_match →
  ∃ h, complete_multipart_upload_precondition b m key if_match if_none_match
       = Raise (NotImplementedException h).
Proof.
  unfold complete_multipart_upload_precondition.
  intros [[H1 H2]|[[H1 H2]|H]].
  - rewrite H1, H2. eauto.
  - rewrite H1. destruct (Py.truthy if_match); [eauto|].
    destruct if_none_match as [s|]; [|done].
    simpl. destruct (String.eqb_spec s "*"); [congruence|]. simpl. eauto.
  - rewrite H. simpl. destruct (Py.truthy _); simpl; eauto.
Qed.

(** C6: a PutObject or CompleteMultipartUpload request with both
    [If-Match] and [If-None-Match], with an [If-None-Match] other than
    ["*"], or with [If-Match] equal to ["*"] is rejected and leaves the
    state as it was: nothing reaches the storage backend. The error is
    [NotImplemented] as soon as the request gets to the check of the
    conditional headers, that is when the parameters checked before it
    (storage class, KMS key, object key, resp. the upload id) are valid. *)
Theorem conditional_headers_not_implemented (st : State)
    (if_match if_none_match : option string) :
  unsupported_conditions if_match if_none_match →
  (∀ request,
     PutObjectRequest.IfMatch request = if_match →
     PutObjectRequest.IfNoneMatch request = if_none_match →
     (∃ e, put_object request st = (Raise e, st))
     ∧ (put_object_validate_parameters (bucket st) request = Ok tt →
        ∃ h, put_object request st = (Raise (NotImplementedException h), st)))
  ∧ (∀ request,
     CompleteMultipartUploadRequest.IfMatch request = if_match →
     CompleteMultipartUploadRequest.IfNoneMatch request = if_none_match →
     (∃ e, complete_multipart_upload request st = (Raise e, st))
     ∧ (is_ok (get_multipart (bucket st)
                 (CompleteMultipartUploadRequest.UploadId request)
                 (CompleteMultipartUploadRequest.Key request)) = true →
        ∃ h, complete_multipart_upload request st
             = (Raise (NotImplementedException h), st))).
Proof.
  intros Hc. split.
  - intros request <- <-.
    destruct (put_object_validate_conditions_rejects request Hc) as [h Hh].
    assert (Hok : put_object_validate_parameters (bucket st) request = Ok tt →
            put_object request st = (Raise (NotImplementedException h), st)).
    { intros Hp. unfold put_object. rewrite bind_gets.
      rewrite (bind_lift_ok _ tt) by done.
      by rewrite (bind_lift_raise _ (NotImplementedException h)). }
    split; [|eauto].
    destruct (put_object_validate_parameters (bucket st) request) as [[]|e] eqn:Hp.
    + eauto.
    + exists e. unfold put_object. rewrite bind_gets.
      by rewrite (bind_lift_raise _ e).
  - intros request <- <-.
    unfold complete_multipart_upload. rewrite bind_gets.
    destruct (get_multipart _ _ _) as [m|e] eqn:Hm.
    + destruct (complete_multipart_upload_precondition_rejects (bucket st) m
                  (CompleteMultipartUploadRequest.Key request) _ _ Hc) as [h Hh].
      rewrite (bind_lift_ok _ m) by done.
      rewrite (bind_lift_raise _ (NotImplementedException h)) by done.
      eauto.
    + rewrite (bind_lift_raise _ e) by done. split; [eauto|done].
Qed.

End ConditionalHeaders.

Definition conditional_put (if_match if_none_match : option string)
  : PutObjectRequest.t :=
  PutObjectRequest.mk "b" "k" None None if_match if_none_match None "data" ∅.

Lemma conditional_headers_not_implemented_witness :
  unsupported_conditions (Some "abc") (Some "*")
  ∧ ∃ h, put_object (C := reference) (conditional_put (Some "abc") (Some "*"))
           (example_state (example_bucket None ∅ ∅))
         = (Raise (NotImplementedException h),
            example_state (example_bucket None ∅ ∅)).
Proof.
  assert (H : unsupported_conditions (Some "abc") (Some "*")) by (left; done).
  split; [exact H|].
  destruct (conditional_headers_not_implemented (C := reference)
              (example_state (example_bucket None ∅ ∅)) _ _ H) as [Hput _].
  destruct (Hput (conditional_put (Some "abc") (Some "*")) eq_refl eq_refl)
    as [_ Hni].
  apply Hni. reflexivity.
Defined.

(** ** Checksum type of a multipart upload (C7) *)

(** The checksum type the specification gives to an upload that declares
    an algorithm and no type. *)
Definition default_checksum_type (checksum_algorithm : string) : string :=
  if String.eqb checksum_algorithm "CRC64NVME" then "FULL_OBJECT" else "COMPOSITE".

(** The combinations of type and algorithm the specification rejects. *)
Definition rejected_checksum_combination
    (checksum_algorithm checksum_type : option string) : Prop :=
  (checksum_type = Some "COMPOSITE" ∧ checksum_algorithm = Some "CRC64NVME")
  ∨ (checksum_type = Some "FULL_OBJECT"
     ∧ (checksum_algorithm = Some "SHA1" ∨ checksum_algorithm = Some "SHA256")).

Section ChecksumType.
Context `{C : Collaborators}.

Lemma create_multipart_upload_checksum_default algorithm checksum_type :
  algorithm ≠ "" → algorithm ∈ CHECKSUM_ALGORITHMS →
  Py.truthy checksum_type = false →
  create_multipart_upload_checksum (Some algorithm) checksum_type
  = Ok (Some (default_checksum_type algorithm)).
Proof.
  intros Hne Hin Hty. unfold create_multipart_upload_checksum.
  assert (Htr : Py.truthy (Some algorithm) = true) by by destruct algorithm.
  rewrite Htr, Hty. simpl. rewrite bool_decide_true by done. simpl.
  unfold default_checksum_type, CRC64NVME.
  destruct (String.eqb_spec algorithm "CRC64NVME") as [->|Hn]; [done|].
  simpl. unfold CRC64NVME. by destruct (String.eqb_spec algorithm "CRC64NVME").
Qed.

Lemma create_multipart_upload_checksum_rejects algorithm checksum_type :
  rejected_checksum_combination algorithm checksum_type →
  ∃ message,
    create_multipart_upload_checksum algorithm checksum_type
    = Raise (InvalidRequest message).
Proof.
  unfold create_multipart_upload_checksum.
  intros [[-> ->]|[-> [->| ->]]]; simpl; case_bool_decide; simpl; eauto.
Qed.

(** C7: [create_multipart_upload] gives an upload that declares a
    supported checksum algorithm and no checksum type the type
    [FULL_OBJECT] for [CRC64NVME] and [COMPOSITE] for every other
    algorithm: this is the type of the stored upload and of the response
    whenever the request passes the other validations. It rejects
    [COMPOSITE] with [CRC64NVME] and [FULL_OBJECT] with [SHA1] or
    [SHA256] with [InvalidRequest], leaving the state as it was, once the
    storage class, the KMS key and the tagging header are accepted. *)
Theorem create_multipart_upload_checksum_type (st : State)
    (request : CreateMultipartUploadRequest.t) (tagging : option Tagging) :
  create_multipart_upload_validate (bucket st) request = Ok tagging →
  let algorithm := CreateMultipartUploadRequest.ChecksumAlgorithm request in
  let checksum_type := CreateMultipartUploadRequest.ChecksumType request in
  (∀ a, algorithm = Some a → a ≠ "" → a ∈ CHECKSUM_ALGORITHMS →
        Py.truthy checksum_type = false →
        create_multipart_upload_checksum algorithm checksum_type
        = Ok (Some (default_checksum_type a))
        ∧ ∀ kms_key_id,
            create_multipart_upload_fields request (bucket st) = Ok kms_key_id →
            ∃ response st',
              create_multipart_upload request st = (Ok response, st')
              ∧ CreateMultipartUploadOutput.ChecksumType response
                = Some (default_checksum_type a)
              ∧ S3Multipart.checksum_type
                  <$> S3Bucket.multiparts (bucket st')
                        !! CreateMultipartUploadOutput.UploadId response
                = Some (Some (default_checksum_type a)))
  ∧ (rejected_checksum_combination algorithm checksum_type →
     ∃ message,
       create_multipart_upload request st = (Raise (InvalidRequest message), st)).
Proof.
  intros Hv algorithm checksum_type. split.
  - intros a Ha Hne Hin Hty.
    pose proof (create_multipart_upload_checksum_default a checksum_type Hne Hin Hty)
      as Hd.
    subst algorithm checksum_type. rewrite Ha. split; [done|].
    intros kms Hk. unfold create_multipart_upload.
    rewrite bind_gets, (bind_lift_ok _ tagging) by done.
    rewrite (bind_lift_ok _ (Some (default_checksum_type a)))
      by (by rewrite Ha).
    rewrite (bind_lift_ok _ kms) by done.
    rewrite !bind_gets.
    destruct (generate_upload_id (entropy st)) as [upload_id e'] eqn:He.
    rewrite bind_modify. rewrite bind_modify.
    eexists _, _. split; [reflexivity|]. rewrite Ha.
    assert (Htr : Py.truthy (Some a) = true) by by destruct a.
    rewrite Htr. split; [done|]. simpl.
    by rewrite lookup_insert_eq.
  - intros Hr.
    destruct (create_multipart_upload_checksum_rejects _ _ Hr) as [message Hm].
    exists message. unfold create_multipart_upload.
    rewrite bind_gets, (bind_lift_ok _ tagging) by done.
    by rewrite (bind_lift_raise _ (InvalidRequest message)).
Qed.

End ChecksumType.

Definition sha256_upload (checksum_type : option string)
  : CreateMultipartUploadRequest.t :=
  CreateMultipartUploadRequest.mk "b" "k" None None None (Some "SHA256")
    checksum_type None ∅.

Lemma create_multipart_upload_checksum_type_witness :
  create_multipart_upload_validate (C := reference)
    (example_bucket None ∅ ∅) (sha256_upload (Some "FULL_OBJECT")) = Ok None
  ∧ ∃ message,
      create_multipart_upload (C := reference) (sha256_upload (Some "FULL_OBJECT"))
        (example_state (example_bucket None ∅ ∅))
      = (Raise (InvalidRequest message), example_state (example_bucket None ∅ ∅)).
Proof.
  split; [reflexivity|].
  apply (create_multipart_upload_checksum_type (C := reference)
           (example_state (example_bucket None ∅ ∅))
           (sha256_upload (Some "FULL_OBJECT")) None eq_refl).
  right. split; [reflexivity|]. by right.
Defined.

Example create_multipart_upload_sha256_default :
  fst (create_multipart_upload (C := reference) (sha256_upload None)
         (example_state (example_bucket None ∅ ∅)))
  = Ok (CreateMultipartUploadOutput.mk "b" "k" "AAAAAAAAAAAAAAAA"
          (Some "SHA256") (Some "COMPOSITE")).
Proof. reflexivity. Qed.

(** ** Conditional writes (C1, C2) *)

(** "A live non-delete-marker object currently exists for the key": the
    current version of the key is an object. *)
Definition live_object (b : S3Bucket.t) (key : string) (o : S3Object.t) : Prop :=
  KeyStore.get (S3Bucket.objects b) key = Some (Object o).

Section ConditionalWrites.
Context `{C : Collaborators}.

(** An operation fails with [e] before it touches the bucket, the tags
    or the storage backend. *)
Definition fails_with {A} (m : M A) (st : State) (e : S3Error) : Prop :=
  ∃ st', m st = (Raise e, st')
         ∧ bucket st' = bucket st ∧ tags st' = tags st
         ∧ backend st' = backend st ∧ notifications st' = notifications st.

Lemma object_exists_live b key :
  object_exists_for_precondition_write b key = true ↔ ∃ o, live_object b key o.
Proof.
  unfold object_exists_for_precondition_write, live_object.
  destruct (KeyStore.get _ _) as [[o|m]|]; simpl; split;
    try done; eauto; by intros [? ?].
Qed.

Lemma object_exists_not_live b key :
  object_exists_for_precondition_write b key = false ↔ ¬ ∃ o, live_object b key o.
Proof.
  rewrite <- object_exists_live. by destruct (object_exists_for_precondition_write b key).
Qed.

Lemma generate_version_id_run status st :
  ∃ v e, generate_version_id status st = (Ok v, set_entropy e st).
Proof.
  unfold generate_version_id. destruct st as [b t bk n nw e].
  destruct (negb (Py.truthy status)); [by exists None, e|].
  destruct (String.eqb _ _); [|by exists (Some "null"), e].
  rewrite bind_gets. simpl.
  destruct (generate_safe_version_id e) as [tok e']. by exists (Some tok), e'.
Qed.

Lemma put_object_guard request st fields :
  put_object_validate_parameters (bucket st) request = Ok tt →
  put_object_validate_conditions request = Ok tt →
  put_object_fields_of (bucket st) request = Ok fields →
  ∃ v e, put_object request st
         = put_object_write request v fields (set_entropy e st).
Proof.
  intros Hp Hc Hf. unfold put_object.
  destruct (generate_version_id_run
              (S3Bucket.versioning_status (bucket st)) st) as (v & e & Hg).
  exists v, e. rewrite bind_gets.
  rewrite (bind_lift_ok _ tt), (bind_lift_ok _ tt) by done.
  rewrite (bind_run_ok _ _ _ _ _ Hg).
  by rewrite (bind_lift_ok _ fields).
Qed.

Lemma put_object_precondition_fails request st fields e :
  put_object_validate_parameters (bucket st) request = Ok tt →
  put_object_validate_conditions request = Ok tt →
  put_object_fields_of (bucket st) request = Ok fields →
  put_object_precondition (bucket st) request = Raise e →
  fails_with (put_object request) st e.
Proof.
  intros Hp Hc Hf He.
  destruct (put_object_guard request st fields Hp Hc Hf) as (v & en & Heq).
  exists (set_entropy en st). rewrite Heq. split; [|done].
  unfold put_object_write. rewrite !bind_gets.
  by rewrite (bind_lift_raise _ e).
Qed.

Lemma complete_multipart_upload_precondition_fails request st m e :
  get_multipart (bucket st) (CompleteMultipartUploadRequest.UploadId request)
    (CompleteMultipartUploadRequest.Key request) = Ok m →
  complete_multipart_upload_precondition (bucket st) m
    (CompleteMultipartUploadRequest.Key request)
    (CompleteMultipartUploadRequest.IfMatch request)
    (CompleteMultipartUploadRequest.IfNoneMatch request) = Raise e →
  complete_multipart_upload request st = (Raise e, st).
Proof.
  intros Hm He. unfold complete_multipart_upload.
  rewrite bind_gets, (bind_lift_ok _ m) by done.
  by rewrite (bind_lift_raise _ e).
Qed.

(** The checks on the written stream raise [InvalidRequest] or
    [BadDigest] only. *)
Lemma put_object_verify_content_raises bucket_name md5 o body st e st' :
  put_object_verify_content bucket_name md5 o body st = (Raise e, st') →
  e = BadDigest ∨ ∃ message, e = InvalidRequest message.
Proof.
  unfold put_object_verify_content, mbind, M_bind, mret, M_ret, modify, raise.
  repeat match goal with
         | |- context [if ?b then _ else _] => destruct b; simpl
         end;
    intros [= <- _]; eauto.
Qed.

(** What [put_object_write] raises past the preconditions comes from the
    checks on the stream. *)
Lemma put_object_write_raises request v fields st e st' :
  put_object_write request v fields st = (Raise e, st') →
  put_object_precondition (bucket st) request = Raise e
  ∨ e = BadDigest ∨ ∃ message, e = InvalidRequest message.
Proof.
  unfold put_object_write. rewrite !bind_gets.
  destruct (put_object_precondition (bucket st) request) as [[]|e0] eqn:Hpre.
  - rewrite (bind_lift_ok _ tt) by done. rewrite bind_modify.
    match goal with
    | |- context [put_object_verify_content ?b ?m ?o ?bd] =>
        destruct (put_object_verify_content b m o bd
                    (call_backend
                       (BackendWrite (PutObjectRequest.Bucket request)
                          (S3Object.mk (PutObjectRequest.Key request) v "" 0 (now st)
                             (PutObjectRequest.StorageClass request)
                             (ObjectFields.checksum_algorithm fields)
                             (ObjectFields.checksum_value fields) None
                             (ObjectFields.sse_c_key_md5 fields)
                             (ObjectFields.kms_key_id fields) None)
                          (ObjectFields.body fields)) st))
          as [[o'|e1] st1] eqn:Hv
    end.
    + rewrite (bind_run_ok _ _ _ _ _ Hv). rewrite !bind_modify. discriminate.
    + rewrite (bind_run_raise _ _ _ _ _ Hv). intros [= <- _].
      right. eapply put_object_verify_content_raises, Hv.
  - rewrite (bind_lift_raise _ e0) by done. intros [= <- _]. by left.
Qed.

Lemma put_object_validate_conditions_star request :
  PutObjectRequest.IfNoneMatch request = Some "*" →
  Py.truthy (PutObjectRequest.IfMatch request) = false →
  put_object_validate_conditions request = Ok tt.
Proof.
  unfold put_object_validate_conditions. by intros -> ->.
Qed.

Lemma put_object_validate_conditions_etag request etag :
  etag ≠ "" → etag ≠ "*" →
  PutObjectRequest.IfMatch request = Some etag →
  Py.truthy (PutObjectRequest.IfNoneMatch request) = false →
  put_object_validate_conditions request = Ok tt.
Proof.
  unfold put_object_validate_conditions. intros Hne Hstar -> ->. simpl.
  destruct (String.eqb_spec etag "*"); [done|]. by rewrite andb_false_r.
Qed.

(** C1, as the code has it: a PutObject or CompleteMultipartUpload
    request with [If-None-Match: *] (and no [If-Match]) fails the
    precondition with [PreconditionFailed] if and only if a live
    non-delete-marker object exists for the key, and the operation then
    fails with it before anything is written. When no such object
    exists, PutObject passes the precondition and goes on to the write;
    CompleteMultipartUpload fails with [ConditionalRequestConflict] when
    a live object existed at the creation of the upload (the
    [precondition] of the multipart), and passes the precondition
    otherwise. For PutObject the operation is taken at a request whose
    parameters and attributes are accepted, for CompleteMultipartUpload
    at a request that names an upload of the key. *)
Theorem if_none_match_star (st : State) (key : string) :
  let live := ∃ o, live_object (bucket st) key o in
  (∀ request,
     PutObjectRequest.Key request = key →
     PutObjectRequest.IfNoneMatch request = Some "*" →
     Py.truthy (PutObjectRequest.IfMatch request) = false →
     (put_object_precondition (bucket st) request
      = Raise (PreconditionFailed "If-None-Match") ↔ live)
     ∧ (¬ live → put_object_precondition (bucket st) request = Ok tt)
     ∧ ∀ fields,
         put_object_validate_parameters (bucket st) request = Ok tt →
         put_object_fields_of (bucket st) request = Ok fields →
         ((∃ st', put_object request st
                  = (Raise (PreconditionFailed "If-None-Match"), st')) ↔ live)
         ∧ (live →
            fails_with (put_object request) st (PreconditionFailed "If-None-Match")))
  ∧ (∀ request m,
     CompleteMultipartUploadRequest.Key request = key →
     CompleteMultipartUploadRequest.IfNoneMatch request = Some "*" →
     Py.truthy (CompleteMultipartUploadRequest.IfMatch request) = false →
     get_multipart (bucket st)
       (CompleteMultipartUploadRequest.UploadId request) key = Ok m →
     (complete_multipart_upload_precondition (bucket st) m key
        (CompleteMultipartUploadRequest.IfMatch request) (Some "*")
      = Raise (PreconditionFailed "If-None-Match") ↔ live)
     ∧ (live →
        complete_multipart_upload request st
        = (Raise (PreconditionFailed "If-None-Match"), st))
     ∧ (¬ live → S3Multipart.precondition m = true →
        complete_multipart_upload request st
        = (Raise (ConditionalRequestConflict "If-None-Match"), st))
     ∧ (¬ live → S3Multipart.precondition m = false →
        complete_multipart_upload_precondition (bucket st) m key
          (CompleteMultipartUploadRequest.IfMatch request) (Some "*") = Ok tt)).
Proof.
  intros live. split.
  - intros request Hkey Hinm Him.
    assert (Hpre : put_object_precondition (bucket st) request
                   = if object_exists_for_precondition_write (bucket st) key
                     then Raise (PreconditionFailed "If-None-Match") else Ok tt).
    { unfold put_object_precondition. rewrite Hkey, Hinm, Him. simpl.
      by destruct (object_exists_for_precondition_write _ _). }
    assert (Hiff : put_object_precondition (bucket st) request
                   = Raise (PreconditionFailed "If-None-Match") ↔ live).
    { rewrite Hpre. unfold live. rewrite <- object_exists_live.
      by destruct (object_exists_for_precondition_write _ _). }
    split; [exact Hiff|]. split.
    { intros Hn. rewrite Hpre.
      apply object_exists_not_live in Hn. by rewrite Hn. }
    intros fields Hp Hf.
    pose proof (put_object_validate_conditions_star request Hinm Him) as Hc.
    assert (Hfail : live → fails_with (put_object request) st
                             (PreconditionFailed "If-None-Match")).
    { intros Hl. eapply put_object_precondition_fails; eauto. by apply Hiff. }
    split; [|exact Hfail]. split.
    + intros [st' Hr].
      destruct (put_object_guard request st fields Hp Hc Hf) as (v & e & Heq).
      rewrite Heq in Hr. apply put_object_write_raises in Hr.
      destruct Hr as [Hr|[Hr|[message Hr]]]; [by apply Hiff|done|done].
    + intros Hl. destruct (Hfail Hl) as (st' & Hr & _). eauto.
  - intros request m Hkey Hinm Him Hm.
    assert (Hpre : complete_multipart_upload_precondition (bucket st) m key
                     (CompleteMultipartUploadRequest.IfMatch request) (Some "*")
                   = if object_exists_for_precondition_write (bucket st) key
                     then Raise (PreconditionFailed "If-None-Match")
                     else if S3Multipart.precondition m
                          then Raise (ConditionalRequestConflict "If-None-Match")
                          else Ok tt).
    { unfold complete_multipart_upload_precondition. by rewrite Him. }
    assert (Hop : ∀ e,
      complete_multipart_upload_precondition (bucket st) m key
        (CompleteMultipartUploadRequest.IfMatch request) (Some "*") = Raise e →
      complete_multipart_upload request st = (Raise e, st)).
    { intros e He. eapply complete_multipart_upload_precondition_fails.
      - rewrite Hkey. exact Hm.
      - by rewrite Hkey, Hinm. }
    unfold live. rewrite <- object_exists_not_live, <- object_exists_live.
    split; [|split; [|split]].
    + rewrite Hpre. destruct (object_exists_for_precondition_write _ _); [done|].
      by destruct (S3Multipart.precondition m).
    + intros Hl. apply Hop. by rewrite Hpre, Hl.
    + intros Hn Hs. apply Hop. by rewrite Hpre, Hn, Hs.
    + intros Hn Hs. by rewrite Hpre, Hn, Hs.
Qed.

(** C2: a write with [If-Match: <etag>] (a value other than ["*"], no
    [If-None-Match]) fails with [NoSuchKey] when no live non-delete-marker
    object exists for the key; otherwise with [PreconditionFailed] when
    the etag of the current object differs from the header value stripped
    of its quotes; and CompleteMultipartUpload, past these two checks,
    fails with [ConditionalRequestConflict] when the current object was
    modified after the upload was initiated. Nothing is written in any
    of these cases. *)
Theorem if_match_etag (st : State) (etag : string) :
  etag ≠ "" → etag ≠ "*" →
  (∀ request fields,
     PutObjectRequest.IfMatch request = Some etag →
     Py.truthy (PutObjectRequest.IfNoneMatch request) = false →
     put_object_validate_parameters (bucket st) request = Ok tt →
     put_object_fields_of (bucket st) request = Ok fields →
     let key := PutObjectRequest.Key request in
     ((¬ ∃ o, live_object (bucket st) key o) →
      fails_with (put_object request) st NoSuchKey)
     ∧ (∀ o, live_object (bucket st) key o →
             S3Object.etag o ≠ Py.strip Py.dquote etag →
             fails_with (put_object request) st (PreconditionFailed "If-Match")))
  ∧ (∀ request m,
     CompleteMultipartUploadRequest.IfMatch request = Some etag →
     Py.truthy (CompleteMultipartUploadRequest.IfNoneMatch request) = false →
     let key := CompleteMultipartUploadRequest.Key request in
     get_multipart (bucket st)
       (CompleteMultipartUploadRequest.UploadId request) key = Ok m →
     ((¬ ∃ o, live_object (bucket st) key o) →
      complete_multipart_upload request st = (Raise NoSuchKey, st))
     ∧ (∀ o, live_object (bucket st) key o →
             S3Object.etag o ≠ Py.strip Py.dquote etag →
             complete_multipart_upload request st
             = (Raise (PreconditionFailed "If-Match"), st))
     ∧ (∀ o, live_object (bucket st) key o →
             S3Object.etag o = Py.strip Py.dquote etag →
             (S3Multipart.initiated m < S3Object.last_modified o)%Z →
             complete_multipart_upload request st
             = (Raise (ConditionalRequestConflict "If-Match"), st))).
Proof.
  intros Hne Hstar.
  assert (Htr : Py.truthy (Some etag) = true) by by destruct etag.
  split.
  - intros request fields Him Hinm Hp Hf key.
    pose proof (put_object_validate_conditions_etag request etag
                  Hne Hstar Him Hinm) as Hc.
    assert (Hpre : put_object_precondition (bucket st) request
                   = verify_object_equality_precondition_write
                       (bucket st) key etag None).
    { unfold put_object_precondition. by rewrite Hinm, Him, Htr. }
    split.
    + intros Hn. eapply put_object_precondition_fails; eauto.
      rewrite Hpre. unfold verify_object_equality_precondition_write.
      unfold live_object in Hn.
      destruct (KeyStore.get _ _) as [[o|d]|]; [|done|done].
      destruct Hn. eauto.
    + intros o Ho Hd. eapply put_object_precondition_fails; eauto.
      rewrite Hpre. unfold verify_object_equality_precondition_write.
      unfold live_object in Ho. rewrite Ho.
      by destruct (String.eqb_spec (S3Object.etag o) (Py.strip Py.dquote etag)).
  - intros request m Him Hinm key Hm.
    assert (Hop : ∀ e,
      verify_object_equality_precondition_write (bucket st) key etag
        (Some (S3Multipart.initiated m)) = Raise e →
      complete_multipart_upload request st = (Raise e, st)).
    { intros e He. eapply complete_multipart_upload_precondition_fails; [exact Hm|].
      unfold complete_multipart_upload_precondition.
      rewrite Hinm, Him, Htr. simpl.
      by destruct (String.eqb_spec etag "*"). }
    split; [|split].
    + intros Hn. apply Hop. unfold verify_object_equality_precondition_write.
      unfold live_object in Hn.
      destruct (KeyStore.get _ _) as [[o|d]|]; [|done|done].
      destruct Hn. eauto.
    + intros o Ho Hd. apply Hop. unfold verify_object_equality_precondition_write.
      unfold live_object in Ho. rewrite Ho.
      by destruct (String.eqb_spec (S3Object.etag o) (Py.strip Py.dquote etag)).
    + intros o Ho He Hlt. apply Hop.
      unfold verify_object_equality_precondition_write.
      unfold live_object in Ho. rewrite Ho, He, String.eqb_refl. simpl.
      by rewrite (proj2 (Z.ltb_lt _ _) Hlt).
Qed.

End ConditionalWrites.

(** A bucket holding object [k] with etag [abc], modified at time 50, and
    an upload [u] of the same key initiated at time 10. *)
Definition upload_of (key : string) (initiated : Z) (precondition : bool)
  : S3Multipart.t :=
  S3Multipart.mk "u" (example_object key "" initiated) initiated precondition ∅
    None None None.

Definition bucket_with_k : S3Bucket.t :=
  example_bucket None {["k" := [Object (example_object "k" "abc" 50)]]}
    {["u" := upload_of "k" 10 true]}.

Definition complete_upload (if_match if_none_match : option string)
  : CompleteMultipartUploadRequest.t :=
  CompleteMultipartUploadRequest.mk "b" "k" "u"
    [CompletedPart.mk 1 "e1"] None None None None None None None
    if_match if_none_match.

Lemma if_match_etag_witness :
  ("abc" ≠ "" ∧ "abc" ≠ "*")
  ∧ complete_multipart_upload (C := reference)
      (complete_upload (Some "abc") None) (example_state bucket_with_k)
    = (Raise (ConditionalRequestConflict "If-Match"), example_state bucket_with_k).
Proof.
  assert (H1 : "abc" ≠ "") by discriminate.
  assert (H2 : "abc" ≠ "*") by discriminate.
  split; [done|].
  destruct (if_match_etag (C := reference) (example_state bucket_with_k)
              "abc" H1 H2) as [_ Hcmu].
  destruct (Hcmu (complete_upload (Some "abc") None) (upload_of "k" 10 true)
              eq_refl eq_refl eq_refl) as (_ & _ & Hconflict).
  apply (Hconflict (example_object "k" "abc" 50)); [reflexivity|reflexivity|done].
Defined.

(** The claim as stated fails for CompleteMultipartUpload: no live object
    exists for the key, and the completion is refused all the same,
    because one existed when the upload was created. *)
Lemma if_none_match_star_conflict :
  object_exists_for_precondition_write
    (example_bucket None ∅ {["u" := upload_of "k" 10 true]}) "k" = false
  ∧ complete_multipart_upload (C := reference) (complete_upload None (Some "*"))
      (example_state (example_bucket None ∅ {["u" := upload_of "k" 10 true]}))
    = (Raise (ConditionalRequestConflict "If-None-Match"),
       example_state (example_bucket None ∅ {["u" := upload_of "k" 10 true]})).
Proof. split; reflexivity. Qed.

Example put_if_none_match_existing :
  fst (put_object (C := reference) (conditional_put None (Some "*"))
         (example_state bucket_with_k))
  = Raise (PreconditionFailed "If-None-Match").
Proof. reflexivity. Qed.

Example put_if_none_match_absent :
  is_ok (fst (put_object (C := reference) (conditional_put None (Some "*"))
                (example_state (example_bucket None ∅ ∅)))) = true.
Proof. reflexivity. Qed.

(** ** The parts of a completion (C3) *)

(** Part numbers in ascending order, and in strictly ascending order. *)
Definition ascending (l : list Z) : Prop := Sorted Z.le l.
Definition strictly_ascending (l : list Z) : Prop := Sorted Z.lt l.

Section Parts.
Context `{C : Collaborators}.

Lemma sorted_numbers_fixpoint l : sorted_numbers l = l ↔ ascending l.
Proof.
  unfold sorted_numbers, ascending. split.
  - intros <-. apply Sorted_merge_sort. apply _.
  - intros Hs. apply (Sorted_unique Z.le); [|done|].
    + apply Sorted_merge_sort. apply _.
    + apply merge_sort_Permutation.
Qed.

Lemma strictly_ascending_ascending l : strictly_ascending l → ascending l.
Proof.
  unfold strictly_ascending, ascending. induction 1 as [|x l Hs IH Hd];
    constructor; [done|].
  destruct Hd; constructor. lia.
Qed.

Lemma complete_multipart_upload_parts_order parts :
  parts ≠ [] →
  complete_multipart_upload_parts parts
  = if bool_decide (ascending (CompletedPart.PartNumber <$> parts))
    then Ok (CompletedPart.PartNumber <$> parts)
    else Raise InvalidPartOrder.
Proof.
  intros Hne. unfold complete_multipart_upload_parts.
  destruct parts as [|p parts]; [done|].
  destruct (decide (ascending (CompletedPart.PartNumber <$> p :: parts))) as [Ha|Hn].
  - rewrite bool_decide_true by by apply sorted_numbers_fixpoint.
    by rewrite bool_decide_true.
  - rewrite (bool_decide_false (sorted_numbers _ = _))
      by by rewrite sorted_numbers_fixpoint.
    by rewrite bool_decide_false.
Qed.

(** C3, as the code has it: CompleteMultipartUpload fails when the list of
    parts is empty, with [InvalidRequest] once the upload is found and the
    conditional headers pass; it fails with [InvalidPartOrder] whenever the
    part numbers are not in ascending order, where a repeated number keeps
    the order ([sorted(parts_numbers) != parts_numbers]); for every
    non-empty list in ascending order, so for every strictly ascending one,
    the check passes and [InvalidPartOrder] is not raised. *)
Theorem complete_multipart_upload_part_order (st : State)
    (request : CompleteMultipartUploadRequest.t) :
  let parts := CompleteMultipartUploadRequest.Parts request in
  let numbers := CompletedPart.PartNumber <$> parts in
  let reaches_parts :=
    ∃ m, get_multipart (bucket st)
           (CompleteMultipartUploadRequest.UploadId request)
           (CompleteMultipartUploadRequest.Key request) = Ok m
         ∧ complete_multipart_upload_precondition (bucket st) m
             (CompleteMultipartUploadRequest.Key request)
             (CompleteMultipartUploadRequest.IfMatch request)
             (CompleteMultipartUploadRequest.IfNoneMatch request) = Ok tt in
  (parts = [] →
     (∃ e, complete_multipart_upload request st = (Raise e, st))
     ∧ (reaches_parts →
        complete_multipart_upload request st
        = (Raise (InvalidRequest "You must specify at least one part"), st)))
  ∧ (complete_multipart_upload_parts parts = Raise InvalidPartOrder
     ↔ parts ≠ [] ∧ ¬ ascending numbers)
  ∧ (¬ ascending numbers → reaches_parts →
     complete_multipart_upload request st = (Raise InvalidPartOrder, st))
  ∧ (parts ≠ [] → ascending numbers →
     complete_multipart_upload_parts parts = Ok numbers)
  ∧ (parts ≠ [] → strictly_ascending numbers →
     complete_multipart_upload_parts parts = Ok numbers).
Proof.
  intros parts numbers reaches_parts.
  assert (Hreach : ∀ e, reaches_parts →
    complete_multipart_upload_parts parts = Raise e →
    complete_multipart_upload request st = (Raise e, st)).
  { intros e (m & Hm & Hpre) He. unfold complete_multipart_upload.
    rewrite bind_gets, (bind_lift_ok _ m), (bind_lift_ok _ tt) by done.
    by rewrite (bind_lift_raise _ e). }
  assert (Hasc : parts ≠ [] → ascending numbers →
    complete_multipart_upload_parts parts = Ok numbers).
  { intros Hne Ha. rewrite complete_multipart_upload_parts_order by done.
    by rewrite bool_decide_true. }
  split; [|split; [|split; [|split]]].
  - intros Hnil. split.
    + unfold complete_multipart_upload. rewrite bind_gets.
      destruct (get_multipart _ _ _) as [m|e] eqn:Hm;
        [|rewrite (bind_lift_raise _ e) by done; eauto].
      rewrite (bind_lift_ok _ m) by done.
      destruct (complete_multipart_upload_precondition _ _ _ _ _) as [[]|e] eqn:Hp;
        [|rewrite (bind_lift_raise _ e) by done; eauto].
      rewrite (bind_lift_ok _ tt) by done. fold parts. rewrite Hnil.
      rewrite (bind_lift_raise _ (InvalidRequest "You must specify at least one part"))
        by done. eauto.
    + intros Hr. apply Hreach; [done|]. by rewrite Hnil.
  - destruct (decide (parts = [])) as [Hnil|Hne].
    + rewrite Hnil. split; [done|]. by intros [? _].
    + rewrite complete_multipart_upload_parts_order by done.
      case_bool_decide; split; try done. by intros [_ ?].
  - intros Hn Hr. apply Hreach; [done|].
    destruct (decide (parts = [])) as [Hnil|Hne].
    + exfalso. apply Hn. unfold numbers. rewrite Hnil. constructor.
    + rewrite complete_multipart_upload_parts_order by done.
      by rewrite bool_decide_false.
  - exact Hasc.
  - intros Hne Hs. apply Hasc; [done|]. by apply strictly_ascending_ascending.
Qed.

End Parts.

(** The claim as stated fails on a repeated part number: [1, 1] is not
    strictly ascending, and the check of lines 2568-2580 accepts it
    without raising [InvalidPartOrder]. *)
Lemma repeated_part_number_accepted :
  (strictly_ascending [1; 1]%Z → False)
  ∧ complete_multipart_upload_parts
      [CompletedPart.mk 1 "e1"; CompletedPart.mk 1 "e1"] = Ok [1; 1]%Z.
Proof.
  split; [|reflexivity].
  intros H. inversion H as [|? ? _ Hd]; subst.
  inversion Hd; subst. lia.
Qed.

Example parts_out_of_order :
  complete_multipart_upload_parts
    [CompletedPart.mk 2 "e2"; CompletedPart.mk 1 "e1"] = Raise InvalidPartOrder.
Proof. reflexivity. Qed.

(** ** Version ids (C8) *)

Section VersionIds.
Context `{C : Collaborators}.

Lemma KeyStore_get_set versioned key v (s : KeyStore.t) :
  KeyStore.get (KeyStore.set versioned key v s) key = Some v.
Proof.
  unfold KeyStore.get, KeyStore.set.
  destruct versioned; by rewrite lookup_insert_eq.
Qed.

Lemma bucket_tags_replace key_id tagging st :
  bucket (tags_replace key_id tagging st) = bucket st.
Proof. by destruct tagging as [[|? ?]|]. Qed.

Lemma entropy_tags_replace key_id tagging st :
  entropy (tags_replace key_id tagging st) = entropy st.
Proof. by destruct tagging as [[|? ?]|]. Qed.


Lemma generate_version_id_suspended st :
  generate_version_id (Some "Suspended") st = (Ok (Some "null"), st).
Proof. reflexivity. Qed.

Lemma generate_version_id_enabled st :
  generate_version_id (Some "Enabled") st
  = (Ok (Some (generate_safe_version_id (entropy st)).1),
     set_entropy (generate_safe_version_id (entropy st)).2 st).
Proof.
  unfold generate_version_id. simpl. rewrite bind_gets.
  by destruct (generate_safe_version_id (entropy st)).
Qed.




End VersionIds.

Definition plain_put (key body : string) : PutObjectRequest.t :=
  PutObjectRequest.mk "b" key None None None None None body ∅.


(** Two writes to an [Enabled] bucket get two different version ids. *)
Example put_object_twice :
  let st1 := snd (put_object (C := reference) (plain_put "k" "v1")
                    (example_state (example_bucket (Some "Enabled") ∅ ∅))) in
  (PutObjectOutput.VersionId <$>
     fst (put_object (C := reference) (plain_put "k" "v2") st1))
  = Ok (Some "BAAAAAAAAAAAAAAAAAAAAAAAAAAAAAAA").
Proof. reflexivity. Qed.

Example put_object_unversioned :
  (PutObjectOutput.VersionId <$>
     fst (put_object (C := reference) (plain_put "k" "v1")
            (example_state (example_bucket None ∅ ∅))))
  = Ok None.
Proof. reflexivity. Qed.

(** ** DeleteObject on an unversioned bucket (C10) *)

Section DeleteUnversioned.
Context `{C : Collaborators}.

(** The body of the unversioned branch (lines 1199-1206), for a request
    whose version id is accepted. *)
Lemma delete_object_unversioned_run st bucket_name key version_id bypass :
  S3Bucket.versioning_status (bucket st) = None →
  bypass = None ∨ S3Bucket.object_lock_enabled (bucket st) = true →
  Py.truthy version_id && negb (Py.eqb_opt version_id "null") = false →
  delete_object bucket_name key version_id bypass st
  = (Ok (DeleteObjectOutput.mk None None),
     match KeyStore.get (S3Bucket.objects (bucket st)) key with
     | Some found =>
         set_tags
           (delete (get_unique_key_id bucket_name key version_id) (tags st))
           (notify "DeleteObject" found
              (call_backend (BackendRemove bucket_name found)
                 (set_bucket
                    (S3Bucket.with_objects
                       (delete key (S3Bucket.objects (bucket st))) (bucket st))
                    st)))
     | None =>
         set_bucket
           (S3Bucket.with_objects
              (delete key (S3Bucket.objects (bucket st))) (bucket st)) st
     end).
Proof.
  intros Hs Hb Hv. unfold delete_object. rewrite bind_gets.
  rewrite (bind_lift_ok _ tt).
  2:{ destruct Hb as [-> | ->]; [done|]. by rewrite andb_false_r. }
  rewrite Hs. rewrite (bind_lift_ok _ tt) by by rewrite Hv.
  unfold KeyStore.pop. rewrite bind_modify.
  destruct (KeyStore.get _ _) as [found|]; reflexivity.
Qed.

Lemma set_bucket_same st :
  set_bucket
    (S3Bucket.with_objects (S3Bucket.objects (bucket st)) (bucket st)) st = st.
Proof. by destruct st as [[] ? ? ? ? ?]. Qed.

(** C10: on a bucket whose versioning status is unset, DeleteObject with
    the version id ["null"] answers as a delete without version id and
    has the same effect on the bucket, the storage backend and the
    notifications; the tag entry it drops is the one
    [get_unique_key_id] names for ["null"], so the two deletes coincide
    as soon as that helper names the same entry for an absent version id.
    Every other non-empty version id raises [InvalidArgument] and changes
    nothing. Deleting a key that the bucket does not hold returns the
    empty output and leaves the state as it was. The request is one that
    passes the check of [x-amz-bypass-governance-retention]. *)
Theorem delete_object_unversioned (st : State)
    (bucket_name key : string) (bypass : option bool) :
  S3Bucket.versioning_status (bucket st) = None →
  bypass = None ∨ S3Bucket.object_lock_enabled (bucket st) = true →
  let with_null := delete_object bucket_name key (Some "null") bypass st in
  let without := delete_object bucket_name key None bypass st in
  (with_null.1 = without.1
   ∧ bucket with_null.2 = bucket without.2
   ∧ backend with_null.2 = backend without.2
   ∧ notifications with_null.2 = notifications without.2
   ∧ (get_unique_key_id bucket_name key (Some "null")
      = get_unique_key_id bucket_name key None →
      with_null = without))
  ∧ (∀ version_id, version_id ≠ "" → version_id ≠ "null" →
       delete_object bucket_name key (Some version_id) bypass st
       = (Raise (InvalidArgument "versionId"), st))
  ∧ (S3Bucket.objects (bucket st) !! key = None →
     with_null = (Ok (DeleteObjectOutput.mk None None), st)
     ∧ without = (Ok (DeleteObjectOutput.mk None None), st)).
Proof.
  intros Hs Hb with_null without.
  assert (Hnull : with_null = _) by
    (apply (delete_object_unversioned_run st bucket_name key (Some "null") bypass);
     done).
  assert (Hnone : without = _) by
    (apply (delete_object_unversioned_run st bucket_name key None bypass); done).
  split; [|split].
  - rewrite Hnull, Hnone.
    destruct (KeyStore.get _ _) as [found|]; simpl; repeat split; try done.
    by intros ->.
  - intros version_id Hne Hnn. unfold delete_object. rewrite bind_gets.
    rewrite (bind_lift_ok _ tt).
    2:{ destruct Hb as [-> | ->]; [done|]. by rewrite andb_false_r. }
    rewrite Hs. rewrite (bind_lift_raise _ (InvalidArgument "versionId")); [done|].
    assert (Htr : Py.truthy (Some version_id) = true) by by destruct version_id.
    rewrite Htr. simpl. by destruct (String.eqb_spec version_id "null").
  - intros Hk. rewrite Hnull, Hnone.
    assert (Hget : KeyStore.get (S3Bucket.objects (bucket st)) key = None)
      by (unfold KeyStore.get; by rewrite Hk).
    rewrite Hget, delete_id by done. by rewrite set_bucket_same.
Qed.

End DeleteUnversioned.

Lemma delete_object_unversioned_witness :
  (S3Bucket.versioning_status (bucket (example_state bucket_with_k)) = None
   ∧ (@None bool = None
      ∨ S3Bucket.object_lock_enabled (bucket (example_state bucket_with_k)) = true))
  ∧ delete_object (C := reference) "b" "k" (Some "null") None
      (example_state bucket_with_k)
    = delete_object (C := reference) "b" "k" None None (example_state bucket_with_k)
  ∧ delete_object (C := reference) "b" "k" (Some "v1") None
      (example_state bucket_with_k)
    = (Raise (InvalidArgument "versionId"), example_state bucket_with_k).
Proof.
  assert (H1 : S3Bucket.versioning_status (bucket (example_state bucket_with_k))
               = None) by reflexivity.
  assert (H2 : @None bool = None
               ∨ S3Bucket.object_lock_enabled
                   (bucket (example_state bucket_with_k)) = true) by (by left).
  split; [done|].
  destruct (delete_object_unversioned (C := reference)
              (example_state bucket_with_k) "b" "k" None H1 H2)
    as ((_ & _ & _ & _ & Hsame) & Hother & _).
  split; [by apply Hsame|]. by apply Hother.
Defined.

Example delete_object_missing_key :
  delete_object (C := reference) "b" "other" None None (example_state bucket_with_k)
  = (Ok (DeleteObjectOutput.mk None None), example_state bucket_with_k).
Proof. vm_compute. reflexivity. Qed.

Example delete_object_removes_key :
  S3Bucket.objects
    (bucket (snd (delete_object (C := reference) "b" "k" (Some "null") None
                    (example_state bucket_with_k))))
    !! "k" = None.
Proof. reflexivity. Qed.

(** ** Listings with [max_keys = 0] (C5) *)

(** C5 at the failing input: a bucket that holds the one key [k] and a
    request with [max_keys = 0]. The claim asks for an empty page that is
    not truncated. [max_keys = max_keys or 1000] (lines 1612 and 1731)
    reads the 0 as an absent [max_keys]: ListObjects and ListObjectsV2
    both answer with the key in [Contents] and with 1000 as [MaxKeys],
    ListObjectsV2 with a [KeyCount] of 1. *)
Lemma max_keys_zero_lists_keys :
  (λ page, (ListObjectsOutput.Contents page,
            ListObjectsOutput.CommonPrefixes page,
            ListObjectsOutput.IsTruncated page,
            ListObjectsOutput.MaxKeys page))
    <$> (list_objects (C := reference) "b" None None None (Some 0%Z) None
           (example_state bucket_with_k)).1
  = Ok ([object_data "k" (example_object "k" "abc" 50)], [], false, 1000%Z)
  ∧ (λ page, (ListObjectsV2Output.Contents page,
              ListObjectsV2Output.CommonPrefixes page,
              ListObjectsV2Output.IsTruncated page,
              ListObjectsV2Output.MaxKeys page,
              ListObjectsV2Output.KeyCount page))
      <$> (list_objects_v2 (C := reference) "b" None None (Some 0%Z) None None None
             (example_state bucket_with_k)).1
    = Ok ([object_data "k" (example_object "k" "abc" 50)], [], false, 1000%Z,
          1%Z).
Proof. split; vm_compute; reflexivity. Qed.

(** ** Strings: prefixes, partition and the lexicographic order *)

Module Str.

Lemma append_cons c (a b : string) : String c a +:+ b = String c (a +:+ b).
Proof. reflexivity. Qed.

Lemma append_nil_l (a : string) : "" +:+ a = a.
Proof. reflexivity. Qed.

Lemma append_assoc (a b c : string) : (a +:+ b) +:+ c = a +:+ (b +:+ c).
Proof.
  induction a as [|x a IH]; [done|]. by rewrite !append_cons, IH.
Qed.

Lemma append_nil_r (a : string) : a +:+ "" = a.
Proof. induction a as [|x a IH]; [done|]. by rewrite append_cons, IH. Qed.

Lemma length_append (a b : string) :
  String.length (a +:+ b) = (String.length a + String.length b)%nat.
Proof.
  induction a as [|x a IH]; [done|]. rewrite append_cons. simpl. by rewrite IH.
Qed.

(** [startswith s p] holds exactly when [s] is [p] followed by a rest. *)
Lemma startswith_spec (s p : string) :
  Py.startswith s p = true ↔ ∃ w, s = p +:+ w.
Proof.
  unfold Py.startswith. revert s. induction p as [|x p IH]; intros s.
  - split; [eauto|]. by destruct s.
  - destruct s as [|y s]; [split; [done|by intros [w ?]]|]. simpl.
    destruct (Ascii.ascii_dec x y) as [->|Hn].
    + rewrite IH. split; intros [w Hw]; exists w.
      * by rewrite append_cons, Hw.
      * rewrite append_cons in Hw. by injection Hw.
    + split; [done|]. intros [w Hw]. rewrite append_cons in Hw.
      injection Hw as Hxy _. congruence.
Qed.

Lemma startswith_append (p w : string) : Py.startswith (p +:+ w) p = true.
Proof. apply startswith_spec. eauto. Qed.

Lemma startswith_refl (p : string) : Py.startswith p p = true.
Proof. apply startswith_spec. exists "". by rewrite append_nil_r. Qed.

Lemma startswith_trans (s p q : string) :
  Py.startswith s p = true → Py.startswith p q = true → Py.startswith s q = true.
Proof.
  rewrite !startswith_spec. intros [w ->] [v ->]. exists (v +:+ w).
  by rewrite append_assoc.
Qed.

Lemma drop_append (p w : string) : Py.drop (String.length p) (p +:+ w) = w.
Proof. induction p as [|x p IH]; [by destruct w|]. by rewrite append_cons. Qed.

Lemma removeprefix_append (p w : string) : Py.removeprefix (p +:+ w) p = w.
Proof.
  unfold Py.removeprefix. by rewrite startswith_append, drop_append.
Qed.

Lemma prefix_nil (s : string) : String.prefix "" s = true.
Proof. by destruct s. Qed.

(** Whether [d] starts a string depends on its first [length d]
    characters only. *)
Lemma prefix_append_long (d u x : string) :
  (String.length d ≤ String.length u)%nat →
  String.prefix d (u +:+ x) = String.prefix d u.
Proof.
  revert u. induction d as [|c d IH]; intros u Hl.
  - by rewrite !prefix_nil.
  - destruct u as [|y u]; [simpl in Hl; lia|].
    rewrite append_cons. cbn [String.prefix]. simpl in Hl.
    destruct (Ascii.ascii_dec c y); [|done]. apply IH. lia.
Qed.

(** [pre] is the part of [pre ++ d] before the first occurrence of [d]. *)
Definition first_occurrence (d pre : string) : Prop :=
  ∀ u v, pre +:+ d = u +:+ d +:+ v → u = pre.

Lemma first_occurrence_nil (d : string) : first_occurrence d "".
Proof.
  intros u v H. apply (f_equal String.length) in H.
  rewrite !length_append in H. simpl in H.
  destruct u; [done|]. simpl in H. lia.
Qed.

Lemma first_occurrence_tail (d : string) c pre :
  first_occurrence d (String c pre) → first_occurrence d pre.
Proof.
  intros H u v Huv. specialize (H (String c u) v).
  rewrite !append_cons, Huv in H. specialize (H eq_refl). by injection H.
Qed.

Lemma first_occurrence_not_prefix (d : string) c pre :
  first_occurrence d (String c pre) → String.prefix d (String c pre +:+ d) = false.
Proof.
  intros H. destruct (String.prefix d (String c pre +:+ d)) eqn:Hp; [|done].
  apply (proj1 (startswith_spec _ _)) in Hp as [v Hv].
  specialize (H "" v Hv). discriminate.
Qed.

Lemma contains_partition (d s : string) :
  Py.contains d s = true →
  ∃ pre post, Py.partition d s = (pre, d, post)
              ∧ s = pre +:+ d +:+ post ∧ first_occurrence d pre.
Proof.
  induction s as [|c s IH]; cbn [Py.contains Py.partition].
  - rewrite orb_false_r. intros Hp. rewrite Hp.
    exists "", (Py.drop (String.length d) ""). split; [done|].
    split; [|apply first_occurrence_nil].
    by destruct d.
  - destruct (String.prefix d (String c s)) eqn:Hp.
    + intros _. exists "", (Py.drop (String.length d) (String c s)).
      split; [done|]. split; [|apply first_occurrence_nil].
      apply (proj1 (startswith_spec _ _)) in Hp as [w Hw].
      rewrite Hw at 2. rewrite drop_append. exact Hw.
    + rewrite orb_false_l. intros Hc.
      destruct (IH Hc) as (pre & post & Hpart & Hs & Hf).
      rewrite Hpart. exists (String c pre), post. split; [done|].
      split; [by rewrite append_cons, Hs|].
      intros u v Huv. destruct u as [|c' u].
      * exfalso. rewrite append_nil_l, append_cons in Huv.
        rewrite Hs, <- append_cons, <- append_assoc in Hp.
        rewrite prefix_append_long in Hp.
        -- rewrite append_cons, Huv in Hp.
           pose proof (startswith_append d v) as Hd.
           unfold Py.startswith in Hd. congruence.
        -- rewrite length_append. lia.
      * rewrite !append_cons in Huv. injection Huv as -> Huv. f_equal.
        exact (Hf u v Huv).
Qed.

Lemma partition_first_occurrence (d pre w : string) :
  d ≠ "" → first_occurrence d pre →
  Py.contains d (pre +:+ d +:+ w) = true
  ∧ Py.partition d (pre +:+ d +:+ w) = (pre, d, w).
Proof.
  intros Hd. induction pre as [|c pre IH]; intros Hf.
  - rewrite append_nil_l.
    pose proof (startswith_append d w) as Hp. unfold Py.startswith in Hp.
    pose proof (drop_append d w) as Hdrop.
    destruct (d +:+ w) as [|x dw] eqn:Hdw.
    + destruct d; [done|discriminate].
    + simpl in *. rewrite Hp. by rewrite Hdrop.
  - destruct (IH (first_occurrence_tail _ _ _ Hf)) as [Hc Hp].
    assert (Hn : String.prefix d (String c pre +:+ d +:+ w) = false).
    { rewrite <- append_assoc. rewrite prefix_append_long.
      - by apply first_occurrence_not_prefix.
      - rewrite length_append. lia. }
    rewrite append_cons in *. split.
    + cbn [Py.contains]. rewrite Hc. apply orb_true_r.
    + cbn [Py.partition]. by rewrite Hn, Hp.
Qed.

End Str.

Module StrOrder.

(** [a < b] is the negation of [b <= a]. *)
Lemma lt_not_le (a b : string) : Py.lt a b = negb (Py.le b a).
Proof.
  unfold Py.lt, Py.le, String.ltb, String.leb.
  rewrite (String.compare_antisym a b).
  by destruct (String.compare b a).
Qed.

Lemma le_true (a b : string) : Py.le a b = true ↔ String.le a b.
Proof. unfold Py.le, String.le. by destruct (String.leb a b). Qed.

Lemma le_false (a b : string) : Py.le a b = false ↔ ¬ String.le a b.
Proof.
  unfold Py.le, String.le. destruct (String.leb a b); simpl; naive_solver.
Qed.

Lemma lt_true (a b : string) : Py.lt a b = true ↔ ¬ String.le b a.
Proof. rewrite lt_not_le, negb_true_iff. apply le_false. Qed.

Lemma lt_false (a b : string) : Py.lt a b = false ↔ String.le b a.
Proof. rewrite lt_not_le, negb_false_iff. apply le_true. Qed.

Lemma le_nil_l (a : string) : String.le "" a.
Proof. unfold String.le, String.leb. by destruct a. Qed.

Lemma le_nil_r (a : string) : String.le a "" → a = "".
Proof. unfold String.le, String.leb. by destruct a. Qed.

Lemma le_cons_inv x a y b :
  String.le (String x a) (String y b) →
  (N_of_ascii x < N_of_ascii y)%N ∨ (x = y ∧ String.le a b).
Proof.
  unfold String.le, String.leb. simpl.
  destruct (Ascii.compare x y) eqn:Hc.
  - apply Ascii.compare_eq_iff in Hc as ->. by right.
  - intros _. left. by apply N.compare_lt_iff.
  - done.
Qed.

(** A string is not below its own prefix. *)
Lemma le_append (p w : string) : String.le p (p +:+ w).
Proof.
  induction p as [|x p IH]; [apply le_nil_l|].
  rewrite Str.append_cons. unfold String.le, String.leb in *. simpl.
  unfold Ascii.compare. rewrite N.compare_refl. exact IH.
Qed.

Lemma startswith_le (s p : string) : Py.startswith s p = true → String.le p s.
Proof. intros [w ->]%Str.startswith_spec. apply le_append. Qed.

(** The strings that start with [p] form an interval of the order. *)
Lemma startswith_convex (p a b c : string) :
  String.le a b → String.le b c →
  Py.startswith a p = true → Py.startswith c p = true →
  Py.startswith b p = true.
Proof.
  revert a b c. induction p as [|x p IH]; intros a b c Hab Hbc Ha Hc.
  - apply Str.startswith_spec. by exists b.
  - apply Str.startswith_spec in Ha as [wa ->].
    apply Str.startswith_spec in Hc as [wc ->].
    rewrite Str.append_cons in Hab, Hbc.
    destruct b as [|y b]; [by apply le_nil_r in Hab|].
    apply le_cons_inv in Hab as [Hlt1|[-> Hab]];
      apply le_cons_inv in Hbc as [Hlt2|[Heq Hbc]]; try lia.
    + subst. lia.
    + assert (Hb : Py.startswith b p = true).
      { eapply (IH (p +:+ wa) b (p +:+ wc)); eauto using Str.startswith_append. }
      apply Str.startswith_spec in Hb as [wb ->].
      apply Str.startswith_spec. exists wb. by rewrite Str.append_cons.
Qed.

End StrOrder.

(** ** Common prefixes *)

Module Group.

(** The common prefixes of a listing: [prefix], then a part without the
    delimiter, then the delimiter. *)
Definition is_group (prefix delimiter p : string) : Prop :=
  ∃ pre, p = prefix +:+ pre +:+ delimiter ∧ Str.first_occurrence delimiter pre.

Lemma truthy_Some (s : string) : Py.truthy (Some s) = true ↔ s ≠ "".
Proof. by destruct s. Qed.

Lemma pid_delimiter prefix delimiter key p :
  prefix_including_delimiter prefix delimiter key = Some p → delimiter ≠ "".
Proof.
  unfold prefix_including_delimiter. destruct delimiter; [done|done].
Qed.

(** The common prefix of a key that starts with [prefix] is a group that
    the key starts with. *)
Lemma pid_group prefix delimiter key p :
  Py.startswith key prefix = true →
  prefix_including_delimiter prefix delimiter key = Some p →
  is_group prefix delimiter p ∧ Py.startswith key p = true.
Proof.
  intros [w ->]%Str.startswith_spec. unfold prefix_including_delimiter.
  rewrite Str.removeprefix_append.
  destruct (Py.truthy (Some delimiter)); [|done]. simpl.
  destruct (Py.contains delimiter w) eqn:Hc; [|done].
  destruct (Str.contains_partition _ _ Hc) as (pre & post & Hp & -> & Hf).
  rewrite Hp. simpl. intros [= <-]. split.
  - by exists pre.
  - apply Str.startswith_spec. exists post.
    by rewrite !Str.append_assoc.
Qed.

(** A key that starts with a group has this group as common prefix. *)
Lemma group_pid prefix delimiter key p :
  delimiter ≠ "" → is_group prefix delimiter p →
  Py.startswith key p = true →
  prefix_including_delimiter prefix delimiter key = Some p.
Proof.
  intros Hd (pre & -> & Hf) [w ->]%Str.startswith_spec.
  unfold prefix_including_delimiter.
  rewrite !Str.append_assoc, Str.removeprefix_append.
  destruct (Str.partition_first_occurrence delimiter pre w Hd Hf) as [Hc Hp].
  by rewrite (proj2 (truthy_Some delimiter) Hd), Hc, Hp.
Qed.

Lemma group_startswith_prefix prefix delimiter p :
  is_group prefix delimiter p → Py.startswith p prefix = true.
Proof. intros (pre & -> & _). apply Str.startswith_append. Qed.

Lemma group_nonempty prefix delimiter p :
  delimiter ≠ "" → is_group prefix delimiter p → p ≠ "".
Proof.
  intros Hd (pre & -> & _) H. apply (f_equal String.length) in H.
  rewrite !Str.length_append in H. destruct delimiter; [done|]. simpl in H. lia.
Qed.

(** Two groups of which one starts with the other are equal. *)
Lemma group_startswith_eq prefix delimiter p q :
  delimiter ≠ "" → is_group prefix delimiter p → is_group prefix delimiter q →
  Py.startswith p q = true → p = q.
Proof.
  intros Hd Hp Hq Hs.
  pose proof (group_pid prefix delimiter p q Hd Hq Hs) as H1.
  pose proof (group_pid prefix delimiter p p Hd Hp (Str.startswith_refl p)) as H2.
  congruence.
Qed.

End Group.

(** ** Paginated listings (C4, C9) *)

(** ** The entries of a listing *)

(** What a listing emits: an object of [Contents] or a common prefix. *)
Inductive Entry : Type :=
  | EObject (d : ObjectData.t)
  | EPrefix (p : string).

Definition entries_objects (es : list Entry) : list ObjectData.t :=
  omap (λ e, match e with EObject d => Some d | EPrefix _ => None end) es.

Definition entries_prefixes (es : list Entry) : list string :=
  omap (λ e, match e with EPrefix p => Some p | EObject _ => None end) es.

(** [a.key < b.key] *)
Definition lt_key (a b : S3Object.t) : Prop :=
  ¬ String.le (S3Object.key b) (S3Object.key a).

Section Entries.
Variables prefix delimiter : string.

(** The key passes the prefix filter. *)
Definition matches (o : S3Object.t) : bool :=
  Py.startswith (S3Object.key o) prefix.

(** The common prefix of the key of an object, if it has one. *)
Definition pid (o : S3Object.t) : option string :=
  prefix_including_delimiter prefix delimiter (S3Object.key o).

(** The common prefix under which a listed object is folded. *)
Definition group_of (o : S3Object.t) : option string :=
  if matches o then pid o else None.

(** The entries that a pass over the objects emits, one after the other,
    when the common prefixes of [seen] have been emitted already. *)
Fixpoint emit (seen : gset string) (l : list S3Object.t) : list Entry :=
  match l with
  | [] => []
  | o :: l' =>
      if negb (matches o) then emit seen l'
      else
        match pid o with
        | Some p =>
            if bool_decide (p ∈ seen) then emit seen l'
            else EPrefix p :: emit ({[p]} ∪ seen) l'
        | None => EObject (object_data (S3Object.key o) o) :: emit seen l'
        end
  end.

(** The common prefixes of the objects of a list. *)
Definition pids_of (l : list S3Object.t) : gset string :=
  list_to_set (omap group_of l).

Lemma elem_of_pids_of p l :
  p ∈ pids_of l ↔ ∃ o, o ∈ l ∧ matches o = true ∧ pid o = Some p.
Proof.
  unfold pids_of. rewrite elem_of_list_to_set, list_elem_of_omap.
  unfold group_of. split.
  - intros (o & Ho & Hg). exists o. destruct (matches o); [done|done].
  - intros (o & Ho & Hm & Hp). exists o. by rewrite Hm.
Qed.

Lemma pids_of_app l1 l2 : pids_of (l1 ++ l2) = pids_of l1 ∪ pids_of l2.
Proof. unfold pids_of. by rewrite omap_app, list_to_set_app_L. Qed.

Lemma pids_of_nil : pids_of [] = ∅.
Proof. done. Qed.

Lemma pids_of_cons o l : pids_of (o :: l) = pids_of [o] ∪ pids_of l.
Proof. apply (pids_of_app [o] l). Qed.

Lemma pids_of_cons_matches o l p :
  matches o = true → pid o = Some p → pids_of (o :: l) = {[p]} ∪ pids_of l.
Proof. intros Hm Hp. unfold pids_of. simpl. unfold group_of. by rewrite Hm, Hp. Qed.

Lemma pids_of_cons_object o l :
  matches o = true → pid o = None → pids_of (o :: l) = pids_of l.
Proof. intros Hm Hp. unfold pids_of. simpl. unfold group_of. by rewrite Hm, Hp. Qed.

Lemma pids_of_cons_skip o l :
  matches o = false → pids_of (o :: l) = pids_of l.
Proof. intros Hm. unfold pids_of. simpl. unfold group_of. by rewrite Hm. Qed.

Lemma emit_app seen l1 l2 :
  emit seen (l1 ++ l2)
  = (emit seen l1 ++ emit (seen ∪ pids_of l1) l2)%list.
Proof.
  revert seen. induction l1 as [|o l1 IH]; intros seen.
  - simpl. by rewrite pids_of_nil, (right_id_L ∅ (∪)).
  - simpl. destruct (matches o) eqn:Hm; simpl.
    + destruct (pid o) as [p|] eqn:Hp.
      * rewrite (pids_of_cons_matches o l1 p Hm Hp).
        case_bool_decide as Hin.
        -- rewrite IH. do 2 f_equal. set_solver.
        -- simpl. rewrite IH. do 3 f_equal. set_solver.
      * rewrite (pids_of_cons_object o l1 Hm Hp). simpl. by rewrite IH.
    + rewrite (pids_of_cons_skip o l1 Hm). by rewrite IH.
Qed.

(** The prefixes a pass emits are those of its objects that were not
    seen before. *)
Lemma emit_prefixes seen l :
  list_to_set (entries_prefixes (emit seen l)) ∪ seen = pids_of l ∪ seen.
Proof.
  revert seen. induction l as [|o l IH]; intros seen; [done|].
  simpl. destruct (matches o) eqn:Hm; simpl.
  - destruct (pid o) as [p|] eqn:Hp.
    + rewrite (pids_of_cons_matches o l p Hm Hp).
      case_bool_decide as Hin.
      * rewrite IH. set_solver.
      * cbn [entries_prefixes omap list_omap]. rewrite list_to_set_cons.
        fold (entries_prefixes (emit ({[p]} ∪ seen) l)).
        specialize (IH ({[p]} ∪ seen)). set_unfold. intros x.
        specialize (IH x). tauto.
    + rewrite (pids_of_cons_object o l Hm Hp). simpl. by rewrite IH.
  - rewrite (pids_of_cons_skip o l Hm). by rewrite IH.
Qed.

Lemma emit_prefixes_fresh seen l p :
  p ∈ entries_prefixes (emit seen l) → p ∉ seen.
Proof.
  revert seen. induction l as [|o l IH]; intros seen; simpl; [by intros ?%elem_of_nil|].
  destruct (matches o); simpl; [|apply IH].
  destruct (pid o) as [q|]; [|simpl; apply IH].
  case_bool_decide as Hin; [apply IH|]. simpl.
  intros [->|Hp]%elem_of_cons; [done|]. apply IH in Hp. set_solver.
Qed.

Lemma emit_prefixes_NoDup seen l : NoDup (entries_prefixes (emit seen l)).
Proof.
  revert seen. induction l as [|o l IH]; intros seen; simpl; [constructor|].
  destruct (matches o); simpl; [|apply IH].
  destruct (pid o) as [q|]; [|simpl; apply IH].
  case_bool_decide as Hin; [apply IH|]. simpl. constructor; [|apply IH].
  intros Hq%emit_prefixes_fresh. set_solver.
Qed.

(** The objects a pass emits are those that pass the filter and have no
    common prefix, whatever was seen before. *)
Lemma emit_objects seen l :
  entries_objects (emit seen l)
  = (λ o, object_data (S3Object.key o) o)
      <$> filter (λ o, matches o = true ∧ pid o = None) l.
Proof.
  revert seen. induction l as [|o l IH]; intros seen; [done|].
  rewrite filter_cons. cbn [emit]. destruct (decide _) as [[Hm Hp]|Hn].
  - rewrite Hm, Hp. simpl. by rewrite IH.
  - destruct (matches o) eqn:Hm; simpl; [|apply IH].
    destruct (pid o) as [q|] eqn:Hq; [|by destruct Hn].
    case_bool_decide; simpl; apply IH.
Qed.

(** A pass over objects none of which has its prefix in [seen] does not
    depend on [seen]. *)
Lemma emit_disjoint seen seen' l :
  pids_of l ## seen → emit (seen ∪ seen') l = emit seen' l.
Proof.
  revert seen'. induction l as [|o l IH]; intros seen' Hd; [done|].
  rewrite pids_of_cons in Hd. simpl.
  destruct (matches o) eqn:Hm; simpl; [|apply IH; set_solver].
  destruct (pid o) as [p|] eqn:Hp; [|f_equal; apply IH; set_solver].
  assert (Hin : p ∈ pids_of [o]).
  { apply elem_of_pids_of. exists o. split; [set_solver|done]. }
  assert (Hns : p ∉ seen) by set_solver.
  destruct (decide (p ∈ seen')) as [Hs|Hs].
  - rewrite !bool_decide_true by set_solver. apply IH. set_solver.
  - rewrite !bool_decide_false by set_solver. f_equal.
    replace ({[p]} ∪ (seen ∪ seen')) with (seen ∪ ({[p]} ∪ seen')) by set_solver.
    apply IH. set_solver.
Qed.

End Entries.

(** ** The keys of a bucket in order *)

(** Every version kept under a key carries this key, as [put_object],
    [complete_multipart_upload] and [delete_object] store them. *)
Definition store_wf (s : KeyStore.t) : Prop :=
  map_Forall (λ k vs, Forall (λ v, version_key v = k) vs) s.

(** Sorted by key, without two objects of the same key. *)
Definition sorted_keys (l : list S3Object.t) : Prop := StronglySorted lt_key l.

Global Instance le_key_trans : Transitive KeyStore.le_key.
Proof. intros a b c. unfold KeyStore.le_key. apply transitivity. Qed.

Global Instance le_key_total : Total KeyStore.le_key.
Proof. intros a b. unfold KeyStore.le_key. apply total, _. Qed.

Lemma lt_key_lt a b : lt_key a b → Py.lt (S3Object.key a) (S3Object.key b) = true.
Proof. intros H. by apply StrOrder.lt_true. Qed.

Lemma lt_key_le a b : lt_key a b → String.le (S3Object.key a) (S3Object.key b).
Proof.
  intros H. destruct (total String.le (S3Object.key a) (S3Object.key b)); [done|].
  by destruct H.
Qed.

Lemma lt_key_not_le a b :
  lt_key a b → Py.le (S3Object.key b) (S3Object.key a) = false.
Proof. intros H. by apply StrOrder.le_false. Qed.

Lemma lt_key_ne a b : lt_key a b → S3Object.key a ≠ S3Object.key b.
Proof. intros H Heq. apply H. rewrite Heq. apply reflexivity. Qed.

Lemma values_current s o :
  o ∈ KeyStore.values s ↔
  ∃ k vs, s !! k = Some vs ∧ KeyStore.current_object vs = Some o.
Proof.
  unfold KeyStore.values. rewrite list_elem_of_omap. split.
  - intros ([k vs] & Hin & Hc). apply elem_of_map_to_list in Hin. eauto.
  - intros (k & vs & Hk & Hc). exists (k, vs). split; [|done].
    by apply elem_of_map_to_list.
Qed.

Lemma current_object_elem vs o :
  KeyStore.current_object vs = Some o → Object o ∈ vs.
Proof.
  destruct vs as [|[o'|dm] vs]; simpl; [done| |done].
  intros [= ->]. apply list_elem_of_here.
Qed.

Lemma omap_keys_NoDup (l : list (string * list S3Version)) :
  NoDup l.*1 →
  Forall (λ kv, ∀ o, KeyStore.current_object kv.2 = Some o → S3Object.key o = kv.1) l →
  NoDup (S3Object.key <$> omap (λ kv, KeyStore.current_object kv.2) l)
  ∧ ∀ k, k ∈ S3Object.key <$> omap (λ kv, KeyStore.current_object kv.2) l → k ∈ l.*1.
Proof.
  induction l as [|[k vs] l IH]; simpl.
  - intros _ _. split; [constructor|]. by intros k ?%elem_of_nil.
  - intros [Hk Hl]%NoDup_cons [Hx Hf]%Forall_cons.
    destruct (IH Hl Hf) as [IHn IHk]. simpl in Hx.
    destruct (KeyStore.current_object vs) as [o|] eqn:Hc; simpl.
    + rewrite (Hx o eq_refl). split.
      * constructor; [|done]. intros Hin. by apply Hk, IHk.
      * intros k' [-> | Hin]%elem_of_cons; [apply list_elem_of_here|].
        apply list_elem_of_further. by apply IHk.
    + split; [done|]. intros k' Hin. apply list_elem_of_further. by apply IHk.
Qed.

(** The current objects of a store have distinct keys. *)
Lemma values_keys_NoDup s :
  store_wf s → NoDup (S3Object.key <$> KeyStore.values s).
Proof.
  intros Hwf. unfold KeyStore.values. apply omap_keys_NoDup.
  - apply NoDup_fst_map_to_list.
  - apply Forall_forall. intros [k vs] Hin%elem_of_map_to_list o Hc. simpl in *.
    apply current_object_elem in Hc. specialize (Hwf k vs Hin). simpl in Hwf.
    rewrite Forall_forall in Hwf. exact (Hwf (Object o) Hc).
Qed.

Lemma sorted_distinct (l : list S3Object.t) :
  StronglySorted KeyStore.le_key l → NoDup (S3Object.key <$> l) → sorted_keys l.
Proof.
  induction 1 as [|o l Hs IH Hf]; [constructor|].
  rewrite fmap_cons. intros [Hn Hd]%NoDup_cons. constructor; [by apply IH|].
  apply Forall_forall. intros y Hy Hle.
  rewrite Forall_forall in Hf. specialize (Hf y Hy). unfold KeyStore.le_key in Hf.
  apply Hn. rewrite (anti_symm String.le _ _ Hf Hle).
  by apply list_elem_of_fmap_2.
Qed.

(** [sorted(s3_bucket.objects.values(), key=lambda r: r.key)] is strictly
    increasing in the key. *)
Lemma sorted_values s :
  store_wf s → sorted_keys (KeyStore.sorted_by_key (KeyStore.values s)).
Proof.
  intros Hwf. unfold KeyStore.sorted_by_key. apply sorted_distinct.
  - apply StronglySorted_merge_sort; apply _.
  - rewrite merge_sort_Permutation. by apply values_keys_NoDup.
Qed.

Lemma sorted_keys_cons o l :
  sorted_keys (o :: l) → Forall (lt_key o) l ∧ sorted_keys l.
Proof. apply StronglySorted_cons. Qed.

Lemma sorted_keys_app d s :
  sorted_keys (d ++ s) → sorted_keys s.
Proof. apply StronglySorted_app_1_r. Qed.

Lemma sorted_keys_before d o s x :
  sorted_keys (d ++ o :: s) → x ∈ d → lt_key x o.
Proof.
  intros Hs Hx. apply (StronglySorted_app_1_elem_of _ _ _ _ _ Hs Hx).
  apply list_elem_of_here.
Qed.

Lemma sorted_keys_after d o s x :
  sorted_keys (d ++ o :: s) → x ∈ s → lt_key o x.
Proof.
  intros Hs%sorted_keys_app Hx. apply sorted_keys_cons in Hs as [Hf _].
  rewrite Forall_forall in Hf. by apply Hf.
Qed.

Lemma sorted_keys_NoDup l : sorted_keys l → NoDup (S3Object.key <$> l).
Proof.
  induction 1 as [|o l Hs IH Hf]; [constructor|].
  rewrite fmap_cons. constructor; [|done].
  intros (y & Hk & Hy)%list_elem_of_fmap.
  rewrite Forall_forall in Hf. by apply (lt_key_ne _ _ (Hf y Hy)).
Qed.

(** A list in order splits into the objects with a property that passes
    to smaller keys and the objects without it. *)
Lemma sorted_keys_split (P : S3Object.t → bool) l :
  sorted_keys l →
  (∀ x y, lt_key x y → P y = true → P x = true) →
  ∃ l1 l2, l = (l1 ++ l2)%list
           ∧ Forall (λ x, P x = true) l1 ∧ Forall (λ x, P x = false) l2.
Proof.
  intros Hs HP. induction Hs as [|o l Hs IH Hf].
  - exists [], []. by repeat split.
  - destruct (P o) eqn:Ho.
    + destruct IH as (l1 & l2 & -> & H1 & H2).
      exists (o :: l1), l2. repeat split; [|done]. by constructor.
    + exists [], (o :: l). repeat split; [constructor|]. constructor; [done|].
      apply Forall_forall. intros y Hy. rewrite Forall_forall in Hf.
      destruct (P y) eqn:Hy'; [|done].
      rewrite (HP o y (Hf y Hy) Hy') in Ho. done.
Qed.

(** ** Common prefixes are intervals of the keys *)

Section Contiguity.
Variables prefix delimiter : string.

(** A key between two strings that start with a common prefix of the
    listing passes the prefix filter and has this common prefix. *)
Lemma group_convex (a c : string) (o : S3Object.t) (p : string) :
  delimiter ≠ "" → Group.is_group prefix delimiter p →
  String.le a (S3Object.key o) → String.le (S3Object.key o) c →
  Py.startswith a p = true → Py.startswith c p = true →
  matches prefix o = true ∧ pid prefix delimiter o = Some p.
Proof.
  intros Hd Hg Ha Hc Hap Hcp.
  pose proof (StrOrder.startswith_convex p a _ c Ha Hc Hap Hcp) as Ho.
  split.
  - unfold matches. eapply Str.startswith_trans; [exact Ho|].
    by eapply Group.group_startswith_prefix.
  - by apply Group.group_pid.
Qed.

Lemma pid_is_group o p :
  matches prefix o = true → pid prefix delimiter o = Some p →
  delimiter ≠ "" ∧ Group.is_group prefix delimiter p
  ∧ Py.startswith (S3Object.key o) p = true ∧ p ≠ "".
Proof.
  intros Hm Hp. pose proof (Group.pid_delimiter _ _ _ _ Hp) as Hd.
  destruct (Group.pid_group _ _ _ _ Hm Hp) as [Hg Hs].
  repeat split; try done. by eapply Group.group_nonempty.
Qed.

(** An object between two objects of a common prefix has it too. *)
Lemma pid_between x o y p :
  String.le (S3Object.key x) (S3Object.key o) →
  String.le (S3Object.key o) (S3Object.key y) →
  matches prefix x = true → pid prefix delimiter x = Some p →
  matches prefix y = true → pid prefix delimiter y = Some p →
  matches prefix o = true ∧ pid prefix delimiter o = Some p.
Proof.
  intros Hxo Hoy Hmx Hpx Hmy Hpy.
  destruct (pid_is_group x p Hmx Hpx) as (Hd & Hg & Hsx & _).
  destruct (pid_is_group y p Hmy Hpy) as (_ & _ & Hsy & _).
  by apply (group_convex (S3Object.key x) (S3Object.key y)).
Qed.

(** The common prefixes after an object that opens a new entry are not
    among those before it. *)
Lemma pids_of_fresh d o s :
  sorted_keys (d ++ o :: s) →
  matches prefix o = true →
  (∀ p, pid prefix delimiter o = Some p → p ∉ pids_of prefix delimiter d) →
  pids_of prefix delimiter (o :: s) ## pids_of prefix delimiter d.
Proof.
  intros Hs Hm Hfresh p Hp1 Hp2.
  apply elem_of_pids_of in Hp1 as (y & Hy & Hmy & Hpy).
  apply elem_of_pids_of in Hp2 as (x & Hx & Hmx & Hpx).
  pose proof (lt_key_le _ _ (sorted_keys_before d o s x Hs Hx)) as Hxo.
  assert (Hoy : String.le (S3Object.key o) (S3Object.key y)).
  { apply elem_of_cons in Hy as [-> | Hy]; [apply reflexivity|].
    apply lt_key_le. by eapply sorted_keys_after. }
  destruct (pid_between x o y p Hxo Hoy Hmx Hpx Hmy Hpy) as [_ Hpo].
  apply (Hfresh p Hpo). apply elem_of_pids_of. eauto.
Qed.

End Contiguity.

(** ** The loops of the listings *)

(** [r] is [acc] with the entries [es] added. *)
Definition adds (es : list Entry) (acc r : Listing) : Prop :=
  common_prefixes r = list_to_set (entries_prefixes es) ∪ common_prefixes acc
  ∧ s3_objects r = (s3_objects acc ++ entries_objects es)%list
  ∧ count r = (count acc + Z.of_nat (length es))%Z.

Lemma adds_nil acc : adds [] acc acc.
Proof.
  repeat split; simpl.
  - by rewrite (left_id_L ∅ (∪)).
  - by rewrite app_nil_r.
  - lia.
Qed.

Lemma adds_truncate es acc r token :
  adds es acc r → adds es acc (listing_truncate token r).
Proof. by intros (? & ? & ?). Qed.

Lemma adds_prefix p data es acc r :
  p ≠ "" →
  adds es (listing_add (Some p) data acc) r → adds (EPrefix p :: es) acc r.
Proof.
  intros Hp. unfold listing_add.
  assert (Ht : Py.truthy (Some p) = true) by by destruct p.
  rewrite Ht. intros (Hc & Ho & Hn).
  cbn [common_prefixes s3_objects count] in Hc, Ho, Hn. repeat split.
  - rewrite Hc. cbn [entries_prefixes omap list_omap]. rewrite list_to_set_cons.
    fold (entries_prefixes es). set_solver.
  - done.
  - rewrite Hn. cbn [length]. lia.
Qed.

Lemma adds_object data es acc r :
  adds es (listing_add None data acc) r → adds (EObject data :: es) acc r.
Proof.
  unfold listing_add. cbn [Py.truthy]. intros (Hc & Ho & Hn).
  cbn [common_prefixes s3_objects count] in Hc, Ho, Hn. repeat split.
  - done.
  - rewrite Ho. cbn [entries_objects omap list_omap].
    fold (entries_objects es). by rewrite <- app_assoc.
  - rewrite Hn. cbn [length]. lia.
Qed.

Section Loops.
Context `{C : Collaborators}.
Variables (prefix delimiter : string) (max_keys : Z).

Lemma prefix_filter (k : string) :
  Py.truthy (Some prefix) && negb (Py.startswith k prefix)
  = negb (Py.startswith k prefix).
Proof.
  destruct prefix; [|done]. simpl. unfold Py.startswith.
  by rewrite Str.prefix_nil.
Qed.

(** *** ListObjectsV2 *)

(** One turn of the loop of [list_objects_v2], for a request without
    [encoding_type] and [start_after]. *)
Lemma list_objects_v2_loop_cons ct dt x l acc :
  list_objects_v2_loop None ct dt None prefix delimiter max_keys (x :: l) acc
  = let continue :=
      list_objects_v2_loop None ct dt None prefix delimiter max_keys l in
    if Py.truthy ct && Py.lt (S3Object.key x) (default "" dt) then continue acc
    else if negb (matches prefix x) then continue acc
    else
      let stop :=
        listing_truncate (Some (urlsafe_b64encode (S3Object.key x))) acc in
      let data := object_data (S3Object.key x) x in
      match pid prefix delimiter x with
      | Some p =>
          if bool_decide (p ∈ common_prefixes acc) then continue acc
          else if (max_keys <=? count acc)%Z then stop
          else continue (listing_add (Some p) data acc)
      | None =>
          if (max_keys <=? count acc)%Z then stop
          else continue (listing_add None data acc)
      end.
Proof.
  cbn [list_objects_v2_loop]. cbn [Py.truthy]. rewrite prefix_filter.
  unfold matches, pid. cbn zeta.
  destruct (Py.truthy ct); cbn [andb];
    [destruct (Py.lt _ _); [done|]|];
    (destruct (negb _); [done|]);
    by destruct (prefix_including_delimiter _ _ _).
Qed.

(** The keys below the continuation token are skipped. *)
Lemma list_objects_v2_loop_skip ct t d s acc :
  Py.truthy (Some ct) = true →
  Forall (λ x, Py.lt (S3Object.key x) t = true) d →
  list_objects_v2_loop None (Some ct) (Some t) None prefix delimiter max_keys
    (d ++ s) acc
  = list_objects_v2_loop None (Some ct) (Some t) None prefix delimiter max_keys
      s acc.
Proof.
  intros Ht. induction 1 as [|x d Hx Hd IH]; [done|].
  rewrite <- app_comm_cons, list_objects_v2_loop_cons. cbn zeta.
  rewrite Ht. simpl. by rewrite Hx.
Qed.

(** On the other keys the token changes nothing. *)
Lemma list_objects_v2_loop_keep ct t s acc :
  Forall (λ x, Py.lt (S3Object.key x) t = false) s →
  list_objects_v2_loop None (Some ct) (Some t) None prefix delimiter max_keys s acc
  = list_objects_v2_loop None None None None prefix delimiter max_keys s acc.
Proof.
  intros Hs. revert acc. induction Hs as [|x s Hx Hs IH]; intros acc; [done|].
  rewrite !list_objects_v2_loop_cons. cbn zeta. simpl default.
  rewrite Hx, andb_false_r. cbn [Py.truthy andb].
  destruct (negb (matches prefix x)); [apply IH|].
  destruct (pid prefix delimiter x) as [p|].
  - case_bool_decide; [apply IH|]. destruct (max_keys <=? count acc)%Z; [done|].
    apply IH.
  - destruct (max_keys <=? count acc)%Z; [done|]. apply IH.
Qed.

(** A pass without token adds the entries of its objects one after the
    other, and stops before the entry that would exceed [max_keys]; the
    token is the key of the object of this entry. *)
Lemma list_objects_v2_loop_page l acc :
  let r :=
    list_objects_v2_loop None None None None prefix delimiter max_keys l acc in
  (adds (emit prefix delimiter (common_prefixes acc) l) acc r
   ∧ is_truncated r = is_truncated acc ∧ next_token r = next_token acc)
  ∨ ∃ d o s,
      l = (d ++ o :: s)%list
      ∧ adds (emit prefix delimiter (common_prefixes acc) d) acc r
      ∧ is_truncated r = true
      ∧ next_token r = Some (urlsafe_b64encode (S3Object.key o))
      ∧ matches prefix o = true
      ∧ (∀ p, pid prefix delimiter o = Some p →
              (p ∉ pids_of prefix delimiter d) ∧ (p ∉ common_prefixes acc))
      ∧ ((count acc < max_keys)%Z → d ≠ []).
Proof.
  revert acc. induction l as [|x l IH]; intros acc r.
  { left. split; [apply adds_nil|done]. }
  subst r. rewrite list_objects_v2_loop_cons. cbn zeta. cbn [Py.truthy andb].
  destruct (matches prefix x) eqn:Hm; cbn [negb].
  2:{ cbn [emit]. rewrite Hm. cbn [negb].
      destruct (IH acc) as [H|(d & o & s & -> & Ha & Ht & Hn & Hmo & Hp & Hc)];
        [by left|right].
      exists (x :: d), o, s. cbn [emit]. rewrite Hm. cbn [negb].
      rewrite (pids_of_cons_skip _ _ _ _ Hm). by split_and!. }
  destruct (pid prefix delimiter x) as [p|] eqn:Hp.
  - destruct (pid_is_group _ _ _ _ Hm Hp) as (_ & _ & _ & Hne).
    case_bool_decide as Hin.
    { cbn [emit]. rewrite Hm, Hp. cbn [negb]. rewrite bool_decide_true by done.
      destruct (IH acc) as [H|(d & o & s & -> & Ha & Ht & Hn & Hmo & Hpo & Hc)];
        [by left|right].
      exists (x :: d), o, s. cbn [emit]. rewrite Hm, Hp. cbn [negb].
      rewrite bool_decide_true by done.
      rewrite (pids_of_cons_matches _ _ _ _ _ Hm Hp).
      split_and!; try done. intros q Hq. destruct (Hpo q Hq) as [H1 H2].
      split; [|done]. set_solver. }
    destruct (max_keys <=? count acc)%Z eqn:Hk.
    { right. exists [], x, l. split_and!; try done.
      - apply adds_truncate, adds_nil.
      - intros q Hq. assert (q = p) as -> by congruence.
        split; [set_solver|done].
      - lia. }
    cbn [emit]. rewrite Hm, Hp. cbn [negb]. rewrite bool_decide_false by done.
    set (acc' := listing_add (Some p) (object_data (S3Object.key x) x) acc).
    assert (Hcp : common_prefixes acc' = {[p]} ∪ common_prefixes acc).
    { unfold acc', listing_add. by destruct p. }
    destruct (IH acc') as [(Ha & Ht & Hn)|(d & o & s & -> & Ha & Ht & Hn & Hmo & Hpo & Hc)].
    + left. rewrite Hcp in Ha. split; [by eapply adds_prefix|].
      rewrite Ht, Hn. unfold acc', listing_add. by destruct p.
    + right. exists (x :: d), o, s. cbn [emit]. rewrite Hm, Hp. cbn [negb].
      rewrite bool_decide_false by done. rewrite Hcp in Ha.
      rewrite (pids_of_cons_matches _ _ _ _ _ Hm Hp).
      split_and!; try done.
      * by eapply adds_prefix.
      * intros q Hq. destruct (Hpo q Hq) as [H1 H2]. rewrite Hcp in H2.
        set_solver.
  - destruct (max_keys <=? count acc)%Z eqn:Hk.
    { right. exists [], x, l. split_and!; try done.
      - apply adds_truncate, adds_nil.
      - intros q Hq. congruence.
      - lia. }
    cbn [emit]. rewrite Hm, Hp. cbn [negb].
    set (acc' := listing_add None (object_data (S3Object.key x) x) acc).
    assert (Hcp : common_prefixes acc' = common_prefixes acc) by done.
    destruct (IH acc') as [(Ha & Ht & Hn)|(d & o & s & -> & Ha & Ht & Hn & Hmo & Hpo & Hc)].
    + left. rewrite Hcp in Ha. split; [by eapply adds_object|].
      by rewrite Ht, Hn.
    + right. exists (x :: d), o, s. cbn [emit]. rewrite Hm, Hp. cbn [negb].
      rewrite Hcp in Ha. rewrite (pids_of_cons_object _ _ _ _ Hm Hp).
      split_and!; try done.
      * by eapply adds_object.
Qed.

(** *** ListObjects *)

(** One turn of the loop of [list_objects], for a request without
    [encoding_type]. *)
Lemma list_objects_loop_cons marker last_key x l acc :
  list_objects_loop None marker prefix delimiter max_keys last_key (x :: l) acc
  = let continue :=
      list_objects_loop None marker prefix delimiter max_keys last_key l in
    if Py.truthy marker && Py.le (S3Object.key x) (default "" marker)
    then continue acc
    else if negb (matches prefix x) then continue acc
    else
      let data := object_data (S3Object.key x) x in
      let full acc' :=
        (max_keys <=? count acc')%Z
        && negb (bool_decide
                   (S3Object.key <$> last_key = Some (S3Object.key x))) in
      match pid prefix delimiter x with
      | Some p =>
          if bool_decide (p ∈ common_prefixes acc)
             || (Py.truthy marker && Py.startswith (default "" marker) p)
          then continue acc
          else
            let acc' := listing_add (Some p) data acc in
            if full acc'
            then listing_truncate
                   (if Py.truthy (Some p) then Some p
                    else ObjectData.Key <$> last (s3_objects acc')) acc'
            else continue acc'
      | None =>
          let acc' := listing_add None data acc in
          if full acc'
          then listing_truncate (ObjectData.Key <$> last (s3_objects acc')) acc'
          else continue acc'
      end.
Proof.
  cbn [list_objects_loop]. cbn [Py.truthy]. rewrite prefix_filter.
  unfold matches, pid. cbn zeta.
  destruct (Py.truthy marker && Py.le _ _); [done|].
  destruct (negb _); [done|].
  by destruct (prefix_including_delimiter _ _ _).
Qed.

(** What a marker makes the loop pass over: the keys up to the marker,
    and the keys of a common prefix that the marker starts with. *)
Definition marked (marker : string) (x : S3Object.t) : bool :=
  Py.le (S3Object.key x) marker
  || (matches prefix x
      && match pid prefix delimiter x with
         | Some q => Py.startswith marker q
         | None => false
         end).

Lemma list_objects_loop_skip marker last_key d s acc :
  Py.truthy (Some marker) = true →
  Forall (λ x, marked marker x = true) d →
  list_objects_loop None (Some marker) prefix delimiter max_keys last_key
    (d ++ s) acc
  = list_objects_loop None (Some marker) prefix delimiter max_keys last_key
      s acc.
Proof.
  intros Ht. induction 1 as [|x d Hx Hd IH]; [done|].
  rewrite <- app_comm_cons, list_objects_loop_cons. cbn zeta.
  rewrite Ht. simpl default. cbn [andb]. unfold marked in Hx.
  destruct (Py.le (S3Object.key x) marker); [apply IH|]. cbn [orb] in Hx.
  destruct (matches prefix x); [|done]. cbn [negb andb] in *.
  destruct (pid prefix delimiter x) as [q|]; [|done].
  rewrite Hx, orb_true_r. apply IH.
Qed.

Lemma list_objects_loop_keep marker last_key s acc :
  Forall (λ x, marked marker x = false) s →
  list_objects_loop None (Some marker) prefix delimiter max_keys last_key s acc
  = list_objects_loop None None prefix delimiter max_keys last_key s acc.
Proof.
  intros Hs. revert acc. induction Hs as [|x s Hx Hs IH]; intros acc; [done|].
  rewrite !list_objects_loop_cons. cbn zeta. simpl default.
  unfold marked in Hx. apply orb_false_elim in Hx as [Hle Hx].
  rewrite Hle, andb_false_r. cbn [Py.truthy andb].
  destruct (matches prefix x); cbn [negb andb] in *; [|apply IH].
  destruct (pid prefix delimiter x) as [q|].
  - rewrite Hx, andb_false_r, !orb_false_r.
    case_bool_decide; [apply IH|].
    match goal with |- context [if ?b then _ else _] => destruct b end;
      [done|apply IH].
  - match goal with |- context [if ?b then _ else _] => destruct b end;
      [done|apply IH].
Qed.

(** A pass without marker adds the entries of its objects one after the
    other, and stops after the entry that reaches [max_keys] unless its
    object is the last of the bucket; the marker is the common prefix or
    the key of this entry. *)
Lemma list_objects_loop_page last_key l acc :
  let r :=
    list_objects_loop None None prefix delimiter max_keys last_key l acc in
  (adds (emit prefix delimiter (common_prefixes acc) l) acc r
   ∧ is_truncated r = is_truncated acc ∧ next_token r = next_token acc)
  ∨ ∃ d o s,
      l = (d ++ o :: s)%list
      ∧ adds (emit prefix delimiter (common_prefixes acc) (d ++ [o])) acc r
      ∧ is_truncated r = true
      ∧ matches prefix o = true
      ∧ S3Object.key <$> last_key ≠ Some (S3Object.key o)
      ∧ match pid prefix delimiter o with
        | Some p =>
            (p ∉ pids_of prefix delimiter d) ∧ (p ∉ common_prefixes acc)
            ∧ next_token r = Some p
        | None => next_token r = Some (S3Object.key o)
        end.
Proof.
  revert acc. induction l as [|x l IH]; intros acc r.
  { left. split; [apply adds_nil|done]. }
  subst r. rewrite list_objects_loop_cons. cbn zeta.
  change (Py.truthy None) with false. cbn [andb].
  destruct (matches prefix x) eqn:Hm; cbn [negb].
  2:{ cbn [emit]. rewrite Hm. cbn [negb].
      destruct (IH acc) as [H|(d & o & s & -> & Ha & Ht & Hmo & Hl & Hp)];
        [by left|right].
      exists (x :: d), o, s. cbn [app emit].
      rewrite Hm. cbn [negb]. rewrite (pids_of_cons_skip _ _ _ _ Hm).
      by split_and!. }
  destruct (pid prefix delimiter x) as [p|] eqn:Hp.
  - destruct (pid_is_group _ _ _ _ Hm Hp) as (_ & _ & _ & Hne).
    assert (Htp : Py.truthy (Some p) = true) by by destruct p.
    rewrite orb_false_r, Htp.
    case_bool_decide as Hin.
    { cbn [emit]. rewrite Hm, Hp. cbn [negb]. rewrite bool_decide_true by done.
      destruct (IH acc) as [H|(d & o & s & -> & Ha & Ht & Hmo & Hl & Hpo)];
        [by left|right].
      exists (x :: d), o, s. cbn [app emit].
      rewrite Hm, Hp. cbn [negb]. rewrite bool_decide_true by done.
      rewrite (pids_of_cons_matches _ _ _ _ _ Hm Hp).
      split_and!; try done.
      destruct (pid prefix delimiter o) as [q|]; [|done].
      destruct Hpo as (H1 & H2 & H3). split_and!; try done. set_solver. }
    set (acc' := listing_add (Some p) (object_data (S3Object.key x) x) acc).
    assert (Hcp : common_prefixes acc' = {[p]} ∪ common_prefixes acc).
    { unfold acc', listing_add. by rewrite Htp. }
    destruct ((max_keys <=? count acc')%Z && _) eqn:Hfull.
    { right. exists [], x, l. apply andb_true_iff in Hfull as [_ Hlast].
      apply negb_true_iff, bool_decide_eq_false in Hlast.
      rewrite Hp. split_and!; try done.
      apply adds_truncate. cbn [app emit]. rewrite Hm, Hp. cbn [negb].
      rewrite bool_decide_false by done.
      eapply adds_prefix; [done|]. apply adds_nil. }
    cbn [emit]. rewrite Hm, Hp. cbn [negb]. rewrite bool_decide_false by done.
    destruct (IH acc') as [(Ha & Ht & Hn)|(d & o & s & -> & Ha & Ht & Hmo & Hl & Hpo)].
    + left. rewrite Hcp in Ha. split; [by eapply adds_prefix|].
      rewrite Ht, Hn. unfold acc', listing_add. by rewrite Htp.
    + right. exists (x :: d), o, s. cbn [app emit].
      rewrite Hm, Hp. cbn [negb]. rewrite bool_decide_false by done.
      rewrite Hcp in Ha. rewrite (pids_of_cons_matches _ _ _ _ _ Hm Hp).
      split_and!; try done; [by eapply adds_prefix|].
      destruct (pid prefix delimiter o) as [q|]; [|done].
      destruct Hpo as (H1 & H2 & H3). rewrite Hcp in H2.
      split_and!; try done; set_solver.
  - set (acc' := listing_add None (object_data (S3Object.key x) x) acc).
    assert (Hcp : common_prefixes acc' = common_prefixes acc) by done.
    destruct ((max_keys <=? count acc')%Z && _) eqn:Hfull.
    { right. exists [], x, l. apply andb_true_iff in Hfull as [_ Hlast].
      apply negb_true_iff, bool_decide_eq_false in Hlast.
      rewrite Hp. split_and!; try done.
      - apply adds_truncate. cbn [app emit]. rewrite Hm, Hp. cbn [negb].
        apply adds_object, adds_nil.
      - unfold acc', listing_add. cbn [Py.truthy s3_objects listing_truncate next_token].
        by rewrite last_snoc. }
    cbn [emit]. rewrite Hm, Hp. cbn [negb].
    destruct (IH acc') as [(Ha & Ht & Hn)|(d & o & s & -> & Ha & Ht & Hmo & Hl & Hpo)].
    + left. rewrite Hcp in Ha. split; [by eapply adds_object|].
      by rewrite Ht, Hn.
    + right. exists (x :: d), o, s. cbn [app emit].
      rewrite Hm, Hp. cbn [negb]. rewrite Hcp in Ha.
      rewrite (pids_of_cons_object _ _ _ _ Hm Hp).
      split_and!; try done. by eapply adds_object.
Qed.

End Loops.

(** ** Following the tokens of a listing *)

(** What it is to list the objects [all] exactly once: [contents] are the
    objects that pass the prefix filter and have no common prefix, in the
    order of the keys; [prefixes] are the common prefixes of the objects
    that pass the filter, each of them once. *)
Definition exactly_once (prefix delimiter : string) (all : list S3Object.t)
    (contents : list ObjectData.t) (prefixes : list string) : Prop :=
  contents
  = (λ o, object_data (S3Object.key o) o)
      <$> filter (λ o, matches prefix o = true ∧ pid prefix delimiter o = None) all
  ∧ NoDup (ObjectData.Key <$> contents)
  ∧ NoDup prefixes
  ∧ ∀ p, p ∈ prefixes ↔
         ∃ o, o ∈ all ∧ matches prefix o = true ∧ pid prefix delimiter o = Some p.

Lemma entries_objects_app (es1 es2 : list Entry) :
  entries_objects (es1 ++ es2) = (entries_objects es1 ++ entries_objects es2)%list.
Proof. apply omap_app. Qed.

Lemma entries_prefixes_app (es1 es2 : list Entry) :
  entries_prefixes (es1 ++ es2)
  = (entries_prefixes es1 ++ entries_prefixes es2)%list.
Proof. apply omap_app. Qed.

Lemma filter_keys_NoDup (P : S3Object.t → Prop) `{∀ o, Decision (P o)} l :
  NoDup (S3Object.key <$> l) → NoDup (S3Object.key <$> filter P l).
Proof.
  induction l as [|x l IH]; [done|]. rewrite fmap_cons, filter_cons.
  intros [Hx Hl]%NoDup_cons. destruct (decide (P x)); [|by apply IH].
  rewrite fmap_cons. constructor; [|by apply IH].
  intros (y & Hk & Hy)%list_elem_of_fmap. apply list_elem_of_filter in Hy as [_ Hy].
  apply Hx. rewrite Hk. by apply list_elem_of_fmap_2.
Qed.

Lemma emit_fresh prefix delimiter seen l :
  pids_of prefix delimiter l ## seen →
  emit prefix delimiter seen l = emit prefix delimiter ∅ l.
Proof.
  intros Hd. rewrite <- (emit_disjoint prefix delimiter seen ∅ l Hd).
  by rewrite (right_id_L ∅ (∪)).
Qed.

(** The entries of a pass over a list in order are split at an object
    that opens a new entry. *)
Lemma emit_split prefix delimiter d o s :
  sorted_keys (d ++ o :: s) →
  matches prefix o = true →
  (∀ p, pid prefix delimiter o = Some p → p ∉ pids_of prefix delimiter d) →
  emit prefix delimiter ∅ (d ++ o :: s)
  = (emit prefix delimiter ∅ d ++ emit prefix delimiter ∅ (o :: s))%list.
Proof.
  intros Hs Hm Hp. rewrite emit_app, (left_id_L ∅ (∪)). f_equal.
  apply emit_fresh. by apply pids_of_fresh.
Qed.

(** The entries of a pass over all objects in order list them exactly
    once. *)
Lemma emit_exactly_once prefix delimiter all contents prefixes :
  sorted_keys all →
  contents = entries_objects (emit prefix delimiter ∅ all) →
  prefixes ≡ₚ entries_prefixes (emit prefix delimiter ∅ all) →
  exactly_once prefix delimiter all contents prefixes.
Proof.
  intros Hs -> Hp. rewrite emit_objects. split_and!.
  - done.
  - rewrite <- list_fmap_compose.
    apply (filter_keys_NoDup _ all), sorted_keys_NoDup, Hs.
  - rewrite Hp. apply emit_prefixes_NoDup.
  - intros p. rewrite Hp, <- elem_of_pids_of.
    pose proof (emit_prefixes prefix delimiter ∅ all) as He.
    rewrite !(right_id_L ∅ (∪)) in He. rewrite <- He.
    by rewrite elem_of_list_to_set.
Qed.

Lemma sorted_prefixes_Permutation (l : list string) :
  NoDup l → sorted_prefixes (list_to_set l ∪ ∅) ≡ₚ l.
Proof.
  intros Hl. unfold sorted_prefixes.
  rewrite merge_sort_Permutation, (right_id_L ∅ (∪)).
  by apply elements_list_to_set.
Qed.

Lemma key_after_nonempty d o s :
  sorted_keys (d ++ o :: s) → d ≠ [] → S3Object.key o ≠ "".
Proof.
  intros Hs Hd Hk. destruct d as [|x d]; [done|].
  apply (sorted_keys_before (x :: d) o s x Hs); [apply list_elem_of_here|].
  rewrite Hk. apply StrOrder.le_nil_l.
Qed.

Section PaginationV2.
Context `{C : Collaborators}.

(** A client that lists a bucket with ListObjectsV2: it sends the request
    again with the [NextContinuationToken] of the last answer as long as
    this answer is truncated. [requests] bounds the number of requests. *)
Fixpoint list_objects_v2_pages (requests : nat) (bucket_name : string)
    (delimiter : option string) (max_keys : option Z)
    (prefix continuation_token : option string) (st : State)
  : option (list ListObjectsV2Output.t) :=
  match requests with
  | O => None
  | S n =>
      match list_objects_v2 bucket_name delimiter None max_keys prefix
              continuation_token None st with
      | (Ok page, st') =>
          if ListObjectsV2Output.IsTruncated page
          then
            (page ::.)
              <$> list_objects_v2_pages n bucket_name delimiter max_keys prefix
                    (ListObjectsV2Output.NextContinuationToken page) st'
          else Some [page]
      | (Raise _, _) => None
      end
  end.

(** The token of a request and the objects it skips: none for the first
    request, the objects before the one that the token names afterwards. *)
Definition token_at (continuation_token : option string)
    (skipped rest : list S3Object.t) : Prop :=
  (continuation_token = None ∧ skipped = [])
  ∨ ∃ o s, rest = o :: s
           ∧ continuation_token = Some (urlsafe_b64encode (S3Object.key o))
           ∧ S3Object.key o ≠ "".

Lemma token_truthy (k : string) :
  k ≠ "" → Py.truthy (Some (urlsafe_b64encode k)) = true.
Proof.
  intros Hk. pose proof (urlsafe_b64encode_nonempty k Hk).
  by destruct (urlsafe_b64encode k).
Qed.

(** The answer of [list_objects_v2] in terms of its loop, for a request
    without [encoding_type] and [start_after] whose token, if any, is the
    encoding of a key. *)
Lemma list_objects_v2_run st bucket_name delimiter max_keys prefix ct dt :
  (ct = None ∧ dt = None)
  ∨ (∃ k, k ≠ "" ∧ ct = Some (urlsafe_b64encode k) ∧ dt = Some k) →
  let r :=
    list_objects_v2_loop None ct dt None (Py.or_str prefix "")
      (Py.or_str delimiter "") (Py.or_int max_keys 1000)
      (KeyStore.sorted_by_key (KeyStore.values (S3Bucket.objects (bucket st))))
      Listing_init in
  ∃ page,
    list_objects_v2 bucket_name delimiter None max_keys prefix ct None st
    = (Ok page, st)
    ∧ ListObjectsV2Output.IsTruncated page = is_truncated r
    ∧ ListObjectsV2Output.Contents page = s3_objects r
    ∧ ListObjectsV2Output.CommonPrefixes page
      = sorted_prefixes (common_prefixes r)
    ∧ ListObjectsV2Output.NextContinuationToken page
      = (if Py.truthy (next_token r) then next_token r else None).
Proof.
  intros Hct r. unfold list_objects_v2. rewrite bind_gets.
  destruct Hct as [[-> ->]|(k & Hk & -> & ->)].
  - rewrite (bind_lift_ok _ tt) by done. cbn [Py.truthy].
    rewrite (bind_lift_ok _ None) by done. eexists. split; [reflexivity|].
    by split_and!.
  - pose proof (urlsafe_b64encode_nonempty k Hk) as Hne.
    rewrite (bind_lift_ok _ tt).
    2:{ rewrite bool_decide_false; [done|]. by intros [= ?]. }
    pose proof (token_truthy k Hk) as Ht.
    rewrite Ht. simpl default. rewrite urlsafe_b64decode_encode.
    rewrite (bind_lift_ok _ (Some k)) by done.
    eexists. split; [reflexivity|]. by split_and!.
Qed.

(** One request of the client: its page holds the entries of the next
    objects [d1], and its token names the object after them. *)
Lemma list_objects_v2_request st bucket_name delimiter max_keys prefix
    skipped rest ct :
  let p := Py.or_str prefix "" in
  let d := Py.or_str delimiter "" in
  sorted_keys (skipped ++ rest) →
  KeyStore.sorted_by_key (KeyStore.values (S3Bucket.objects (bucket st)))
  = (skipped ++ rest)%list →
  (0 < Py.or_int max_keys 1000)%Z →
  token_at ct skipped rest →
  ∃ page d1 s1,
    list_objects_v2 bucket_name delimiter None max_keys prefix ct None st
    = (Ok page, st)
    ∧ rest = (d1 ++ s1)%list
    ∧ ListObjectsV2Output.Contents page = entries_objects (emit p d ∅ d1)
    ∧ ListObjectsV2Output.CommonPrefixes page ≡ₚ entries_prefixes (emit p d ∅ d1)
    ∧ emit p d ∅ rest = (emit p d ∅ d1 ++ emit p d ∅ s1)%list
    ∧ ((ListObjectsV2Output.IsTruncated page = false ∧ s1 = [])
       ∨ (ListObjectsV2Output.IsTruncated page = true ∧ d1 ≠ []
          ∧ token_at (ListObjectsV2Output.NextContinuationToken page)
              (skipped ++ d1) s1)).
Proof.
  intros p d Hs Hall Hm Htok.
  set (m := Py.or_int max_keys 1000) in *.
  assert (Hrun : ∃ dt,
    ((ct = None ∧ dt = None)
     ∨ (∃ k, k ≠ "" ∧ ct = Some (urlsafe_b64encode k) ∧ dt = Some k))
    ∧ list_objects_v2_loop None ct dt None p d m (skipped ++ rest) Listing_init
      = list_objects_v2_loop None None None None p d m rest Listing_init).
  { destruct Htok as [[-> ->]|(o & s & -> & -> & Hk)].
    - exists None. split; [by left|done].
    - exists (Some (S3Object.key o)). split; [right; eauto|].
      rewrite list_objects_v2_loop_skip.
      + apply list_objects_v2_loop_keep. constructor.
        * apply StrOrder.lt_false, reflexivity.
        * apply Forall_forall. intros x Hx. apply StrOrder.lt_false, lt_key_le.
          by eapply sorted_keys_after.
      + by apply token_truthy.
      + apply Forall_forall. intros x Hx. apply lt_key_lt.
        by eapply sorted_keys_before. }
  destruct Hrun as (dt & Hct & Hloop).
  destruct (list_objects_v2_run st bucket_name delimiter max_keys prefix ct dt Hct)
    as (page & Hpage & Htr & Hcont & Hcps & Hnext).
  fold p d m in Htr, Hcont, Hcps, Hnext.
  rewrite Hall, Hloop in Htr, Hcont, Hcps, Hnext.
  exists page.
  destruct (list_objects_v2_loop_page p d m rest Listing_init)
    as [((Hc & Ho & _) & Ht & _)
       |(d1 & o & s1 & -> & (Hc & Ho & _) & Ht & Hn & Hmo & Hpo & Hd)].
  - exists rest, []. split_and!; try done.
    + by rewrite app_nil_r.
    + by rewrite Hcont, Ho.
    + rewrite Hcps, Hc. apply sorted_prefixes_Permutation, emit_prefixes_NoDup.
    + by rewrite app_nil_r.
    + left. by rewrite Htr, Ht.
  - assert (Hd1 : d1 ≠ []) by (apply Hd; simpl; lia).
    assert (Hk : S3Object.key o ≠ "").
    { apply (key_after_nonempty d1 o s1); [|done]. by eapply sorted_keys_app. }
    exists d1, (o :: s1). split_and!; try done.
    + by rewrite Hcont, Ho.
    + rewrite Hcps, Hc. apply sorted_prefixes_Permutation, emit_prefixes_NoDup.
    + apply emit_split; [by eapply sorted_keys_app|done|].
      intros q Hq. by destruct (Hpo q Hq).
    + right. split_and!; [by rewrite Htr, Ht|done|].
      right. exists o, s1. split_and!; try done. rewrite Hnext, Hn.
      by rewrite token_truthy.
Qed.

(** The pages of the client hold the entries of the objects that are
    left, in their order. *)
Lemma list_objects_v2_pages_cover st bucket_name delimiter max_keys prefix :
  let p := Py.or_str prefix "" in
  let d := Py.or_str delimiter "" in
  (0 < Py.or_int max_keys 1000)%Z →
  ∀ n skipped rest ct,
    (length rest < n)%nat →
    sorted_keys (skipped ++ rest) →
    KeyStore.sorted_by_key (KeyStore.values (S3Bucket.objects (bucket st)))
    = (skipped ++ rest)%list →
    token_at ct skipped rest →
    ∃ pages,
      list_objects_v2_pages n bucket_name delimiter max_keys prefix ct st
      = Some pages
      ∧ concat (ListObjectsV2Output.Contents <$> pages)
        = entries_objects (emit p d ∅ rest)
      ∧ concat (ListObjectsV2Output.CommonPrefixes <$> pages)
        ≡ₚ entries_prefixes (emit p d ∅ rest).
Proof.
  intros p d Hm n. induction n as [|n IH]; intros skipped rest ct Hn Hs Hall Htok;
    [lia|].
  destruct (list_objects_v2_request st bucket_name delimiter max_keys prefix
              skipped rest ct Hs Hall Hm Htok)
    as (page & d1 & s1 & Hreq & -> & Hcont & Hcps & Hemit & Hcase).
  cbn [list_objects_v2_pages]. rewrite Hreq. fold p d in Hcont, Hcps, Hemit.
  destruct Hcase as [[Ht ->]|(Ht & Hd1 & Htok')]; rewrite Ht.
  - exists [page]. split; [done|]. cbn [fmap list_fmap concat].
    rewrite !app_nil_r in *. by rewrite Hcont, Hcps.
  - destruct (IH (skipped ++ d1)%list s1
                (ListObjectsV2Output.NextContinuationToken page))
      as (pages & Hpages & Hc & Hp).
    + rewrite length_app in Hn. destruct d1; [done|]. simpl in Hn. lia.
    + by rewrite <- app_assoc.
    + by rewrite <- app_assoc.
    + done.
    + exists (page :: pages). rewrite Hpages. split; [done|].
      rewrite !fmap_cons. cbn [concat].
      rewrite Hemit, entries_objects_app, entries_prefixes_app.
      by rewrite Hcont, Hc, Hcps, Hp.
Qed.

End PaginationV2.

(** ** Following the markers of ListObjects *)

Section Markers.
Variables prefix delimiter : string.

(** The marker that [list_objects] computes after the entry of [o]: its
    common prefix, or else its key. *)
Definition marker_of (o : S3Object.t) (marker : string) : Prop :=
  matches prefix o = true
  ∧ ((pid prefix delimiter o = None ∧ marker = S3Object.key o)
     ∨ pid prefix delimiter o = Some marker).

(** What a marker passes over is closed under smaller keys. *)
Lemma marked_below marker x y :
  lt_key x y →
  marked prefix delimiter marker y = true →
  marked prefix delimiter marker x = true.
Proof.
  intros Hxy%lt_key_le. unfold marked.
  destruct (Py.le (S3Object.key x) marker) eqn:Hx; [done|]. cbn [orb].
  apply StrOrder.le_false in Hx.
  assert (Hmx : String.le marker (S3Object.key x)).
  { by destruct (total String.le marker (S3Object.key x)). }
  destruct (Py.le (S3Object.key y) marker) eqn:Hy.
  { apply StrOrder.le_true in Hy. destruct Hx. by etransitivity. }
  cbn [orb]. destruct (matches prefix y) eqn:Hm; [|done]. cbn [andb].
  destruct (pid prefix delimiter y) as [q|] eqn:Hq; [|done]. intros Hs.
  destruct (pid_is_group _ _ _ _ Hm Hq) as (Hd & Hg & Hyq & _).
  destruct (group_convex prefix delimiter marker (S3Object.key y) x q)
    as [-> ->]; done.
Qed.

(** The marker of an entry passes over the objects up to this entry. *)
Lemma marked_upto o marker x :
  marker_of o marker →
  String.le (S3Object.key x) (S3Object.key o) →
  marked prefix delimiter marker x = true.
Proof.
  intros [Hm [[Hp ->]|Hp]] Hxo; unfold marked.
  { apply StrOrder.le_true in Hxo. by rewrite Hxo. }
  destruct (Py.le (S3Object.key x) marker) eqn:Hx; [done|]. cbn [orb].
  apply StrOrder.le_false in Hx.
  assert (Hmx : String.le marker (S3Object.key x)).
  { by destruct (total String.le marker (S3Object.key x)). }
  destruct (pid_is_group _ _ _ _ Hm Hp) as (Hd & Hg & Ho & _).
  destruct (group_convex prefix delimiter marker (S3Object.key o) x marker)
    as [-> ->]; try done; apply Str.startswith_refl.
Qed.

(** After this entry it passes over the objects of its common prefix
    only. *)
Lemma marked_after o marker x :
  marker_of o marker →
  lt_key o x →
  marked prefix delimiter marker x = true →
  matches prefix x = true ∧ pid prefix delimiter x = Some marker
  ∧ pid prefix delimiter o = Some marker.
Proof.
  intros [Hm Ho] Hox. unfold marked.
  destruct (Py.le (S3Object.key x) marker) eqn:Hx.
  { exfalso. apply StrOrder.le_true in Hx. apply Hox.
    destruct Ho as [[_ ->]|Ho]; [done|].
    destruct (pid_is_group _ _ _ _ Hm Ho) as (_ & _ & Hs & _).
    etransitivity; [exact Hx|]. by apply StrOrder.startswith_le. }
  cbn [orb]. destruct (matches prefix x) eqn:Hmx; [|done]. cbn [andb].
  destruct (pid prefix delimiter x) as [q|] eqn:Hq; [|done]. intros Hs.
  destruct (pid_is_group _ _ _ _ Hmx Hq) as (Hd & Hg & _ & _).
  destruct Ho as [[Ho ->]|Ho].
  - exfalso. unfold pid in Ho.
    by rewrite (Group.group_pid prefix delimiter _ q Hd Hg Hs) in Ho.
  - destruct (pid_is_group _ _ _ _ Hm Ho) as (_ & Hgo & _ & _).
    assert (marker = q) as ->
      by exact (Group.group_startswith_eq prefix delimiter marker q Hd Hgo Hg Hs).
    done.
Qed.

Lemma marked_same_prefix marker x :
  matches prefix x = true → pid prefix delimiter x = Some marker →
  marked prefix delimiter marker x = true.
Proof.
  intros Hm Hp. unfold marked. rewrite Hm, Hp, Str.startswith_refl.
  apply orb_true_r.
Qed.

(** Objects whose common prefix has been seen add no entry. *)
Lemma emit_seen seen g :
  Forall (λ x, matches prefix x = true →
               ∃ q, pid prefix delimiter x = Some q ∧ q ∈ seen) g →
  emit prefix delimiter seen g = [].
Proof.
  induction 1 as [|x g Hx Hg IH]; [done|]. cbn [emit].
  destruct (matches prefix x); cbn [negb]; [|done].
  destruct (Hx eq_refl) as (q & -> & Hq). by rewrite bool_decide_true.
Qed.

(** The entries of a list in order, split after the entry of [o]: the
    objects [g] that the marker passes over add nothing, and the entries
    of the others do not depend on what came before. *)
Lemma emit_marker d o g s marker :
  sorted_keys (d ++ o :: g ++ s) →
  marker_of o marker →
  Forall (λ x, marked prefix delimiter marker x = true) g →
  Forall (λ x, marked prefix delimiter marker x = false) s →
  emit prefix delimiter ∅ (d ++ o :: g ++ s)
  = (emit prefix delimiter ∅ (d ++ [o]) ++ emit prefix delimiter ∅ s)%list.
Proof.
  intros Hs Hmo Hg Hu.
  assert (Hafter : ∀ x, x ∈ (g ++ s)%list → lt_key o x).
  { intros x Hx. by eapply sorted_keys_after. }
  assert (Hbefore : ∀ y, y ∈ (d ++ [o])%list →
                   String.le (S3Object.key y) (S3Object.key o)).
  { intros y [Hy|Hy%list_elem_of_singleton]%elem_of_app.
    - apply lt_key_le. by eapply sorted_keys_before.
    - subst. apply reflexivity. }
  assert (Hgp : ∀ y, y ∈ g → matches prefix y = true →
                pid prefix delimiter y = Some marker
                ∧ pid prefix delimiter o = Some marker).
  { intros y Hy Hmy. rewrite Forall_forall in Hg.
    destruct (marked_after o marker y Hmo) as (_ & H1 & H2); try done.
    - apply Hafter, elem_of_app. by left.
    - by apply Hg. }
  replace (d ++ o :: g ++ s)%list with ((d ++ [o]) ++ g ++ s)%list
    by by rewrite <- app_assoc.
  rewrite emit_app, (left_id_L ∅ (∪)). f_equal.
  rewrite emit_app, emit_seen.
  - cbn [app]. apply emit_fresh. intros q Hq1 Hq2.
    apply elem_of_pids_of in Hq1 as (x & Hx & Hmx & Hpx).
    rewrite Forall_forall in Hu. specialize (Hu x Hx).
    assert (Hq : pid prefix delimiter o = Some q).
    { apply elem_of_union in Hq2 as [Hq2|Hq2];
        apply elem_of_pids_of in Hq2 as (y & Hy & Hmy & Hpy).
      - assert (Hox : String.le (S3Object.key o) (S3Object.key x)).
        { apply lt_key_le, Hafter, elem_of_app. by right. }
        by destruct (pid_between prefix delimiter y o x q (Hbefore y Hy) Hox).
      - destruct (Hgp y Hy Hmy) as [H1 H2]. congruence. }
    destruct Hmo as [Hm [[Ho _]|Ho]]; [congruence|].
    assert (q = marker) as -> by congruence.
    by rewrite (marked_same_prefix marker x Hmx Hpx) in Hu.
  - apply Forall_forall. intros y Hy Hmy. exists marker.
    destruct (Hgp y Hy Hmy) as [H1 H2]. split; [done|].
    apply elem_of_pids_of. exists o. destruct Hmo as [Hm _].
    split_and!; try done. apply elem_of_app. right. apply list_elem_of_here.
Qed.

End Markers.

Section PaginationV1.
Context `{C : Collaborators}.

(** The marker of the next request: [NextMarker], which [list_objects]
    returns for a request with a delimiter only, or else the key of the
    last object of [Contents]. *)
Definition next_marker (page : ListObjectsOutput.t) : option string :=
  match ListObjectsOutput.NextMarker page with
  | Some marker => Some marker
  | None => ObjectData.Key <$> last (ListObjectsOutput.Contents page)
  end.

(** A client that lists a bucket with ListObjects: it sends the request
    again with the marker of the last answer as long as this answer is
    truncated. [requests] bounds the number of requests. *)
Fixpoint list_objects_pages (requests : nat) (bucket_name : string)
    (delimiter : option string) (max_keys : option Z)
    (prefix marker : option string) (st : State)
  : option (list ListObjectsOutput.t) :=
  match requests with
  | O => None
  | S n =>
      match list_objects bucket_name delimiter None marker max_keys prefix st with
      | (Ok page, st') =>
          if ListObjectsOutput.IsTruncated page
          then
            (page ::.)
              <$> list_objects_pages n bucket_name delimiter max_keys prefix
                    (next_marker page) st'
          else Some [page]
      | (Raise _, _) => None
      end
  end.

(** The marker of a request, the objects it passes over and the others:
    no marker for the first request. *)
Definition marker_at (prefix delimiter : string) (marker : option string)
    (skipped rest : list S3Object.t) : Prop :=
  (marker = None ∧ skipped = [])
  ∨ ∃ k, marker = Some k ∧ k ≠ ""
         ∧ Forall (λ x, marked prefix delimiter k x = true) skipped
         ∧ Forall (λ x, marked prefix delimiter k x = false) rest.

(** The answer of [list_objects] in terms of its loop, for a request
    without [encoding_type]. *)
Lemma list_objects_run st bucket_name delimiter max_keys prefix marker :
  let all :=
    KeyStore.sorted_by_key (KeyStore.values (S3Bucket.objects (bucket st))) in
  let r :=
    list_objects_loop None marker (Py.or_str prefix "") (Py.or_str delimiter "")
      (Py.or_int max_keys 1000) (last all) all Listing_init in
  ∃ page,
    list_objects bucket_name delimiter None marker max_keys prefix st
    = (Ok page, st)
    ∧ ListObjectsOutput.IsTruncated page = is_truncated r
    ∧ ListObjectsOutput.Contents page = s3_objects r
    ∧ ListObjectsOutput.CommonPrefixes page = sorted_prefixes (common_prefixes r)
    ∧ ListObjectsOutput.NextMarker page
      = (if Py.truthy (Some (Py.or_str delimiter ""))
            && Py.truthy (next_token r)
         then next_token r else None).
Proof.
  intros all r. unfold list_objects. rewrite bind_gets.
  eexists. split; [reflexivity|]. by split_and!.
Qed.

(** One request of the client: its page holds the entries of the next
    objects [d1], and its marker passes over them and the objects [g] of
    the common prefix it names. *)
Lemma list_objects_request st bucket_name delimiter max_keys prefix
    skipped rest marker :
  let p := Py.or_str prefix "" in
  let d := Py.or_str delimiter "" in
  sorted_keys (skipped ++ rest) →
  Forall (λ x, S3Object.key x ≠ "") (skipped ++ rest) →
  KeyStore.sorted_by_key (KeyStore.values (S3Bucket.objects (bucket st)))
  = (skipped ++ rest)%list →
  marker_at p d marker skipped rest →
  ∃ page d1 g s1,
    list_objects bucket_name delimiter None marker max_keys prefix st
    = (Ok page, st)
    ∧ rest = (d1 ++ g ++ s1)%list
    ∧ ListObjectsOutput.Contents page = entries_objects (emit p d ∅ d1)
    ∧ ListObjectsOutput.CommonPrefixes page ≡ₚ entries_prefixes (emit p d ∅ d1)
    ∧ emit p d ∅ rest = (emit p d ∅ d1 ++ emit p d ∅ s1)%list
    ∧ ((ListObjectsOutput.IsTruncated page = false ∧ g = [] ∧ s1 = [])
       ∨ (ListObjectsOutput.IsTruncated page = true ∧ d1 ≠ []
          ∧ marker_at p d (next_marker page) (skipped ++ d1 ++ g) s1)).
Proof.
  intros p d Hs Hne Hall Hmark.
  set (m := Py.or_int max_keys 1000) in *.
  destruct (list_objects_run st bucket_name delimiter max_keys prefix marker)
    as (page & Hpage & Htr & Hcont & Hcps & Hnext).
  fold p d m in Htr, Hcont, Hcps, Hnext.
  rewrite Hall in Htr, Hcont, Hcps, Hnext.
  set (lk := last (skipped ++ rest)) in *.
  assert (Hloop :
    list_objects_loop None marker p d m lk (skipped ++ rest) Listing_init
    = list_objects_loop None None p d m lk rest Listing_init).
  { destruct Hmark as [[-> ->]|(k & -> & Hk & Hsk & Hre)]; [done|].
    rewrite list_objects_loop_skip; [|by destruct k|done].
    by apply list_objects_loop_keep. }
  rewrite Hloop in Htr, Hcont, Hcps, Hnext.
  exists page.
  pose proof (list_objects_loop_page p d m lk rest Listing_init) as Hpg.
  cbn zeta in Hpg. unfold adds in Hpg.
  change (common_prefixes Listing_init) with (∅ : gset string) in Hpg.
  change (s3_objects Listing_init) with (@nil ObjectData.t) in Hpg.
  destruct Hpg
    as [((Hc & Ho & _) & Ht & _)
       |(d1 & o & s & -> & (Hc & Ho & _) & Ht & Hmo & _ & Hpo)].
  { exists rest, [], []. split_and!; try done.
    - by rewrite !app_nil_r.
    - by rewrite Hcont, Ho.
    - rewrite Hcps, Hc. apply sorted_prefixes_Permutation, emit_prefixes_NoDup.
    - by rewrite app_nil_r.
    - left. by rewrite Htr, Ht. }
  assert (Hko : S3Object.key o ≠ "").
  { rewrite Forall_forall in Hne. apply Hne.
    apply elem_of_app. right. apply elem_of_app. right. apply list_elem_of_here. }
  assert (Hlast :
    ObjectData.Key <$> last (entries_objects (emit p d ∅ (d1 ++ [o])))
    = (if pid p d o is Some _
       then ObjectData.Key <$> last (entries_objects (emit p d ∅ d1))
       else Some (S3Object.key o))).
  { rewrite emit_app, entries_objects_app. cbn [emit]. rewrite Hmo. cbn [negb].
    destruct (pid p d o) as [q|] eqn:Hq.
    - case_bool_decide; cbn; by rewrite app_nil_r.
    - cbn. by rewrite last_snoc. }
  assert (Hmk : ∃ k, next_marker page = Some k ∧ k ≠ "" ∧ marker_of p d o k).
  { unfold next_marker. rewrite Hnext, Hcont, Ho. cbn [app].
    destruct (pid p d o) as [q|] eqn:Hq.
    - destruct Hpo as (_ & _ & ->).
      destruct (pid_is_group _ _ _ _ Hmo Hq) as (Hd & _ & _ & Hqne).
      assert (Htd : Py.truthy (Some d) = true) by by destruct d.
      assert (Htq : Py.truthy (Some q) = true) by by destruct q.
      rewrite Htd, Htq. exists q. split; [done|]. split; [done|].
      split; [done|by right].
    - rewrite Hpo, Hlast.
      assert (Htk : Py.truthy (Some (S3Object.key o)) = true)
        by by destruct (S3Object.key o).
      rewrite Htk, andb_true_r. exists (S3Object.key o).
      split; [by destruct (Py.truthy (Some d))|]. split; [done|].
      split; [done|by left]. }
  destruct Hmk as (k & Hk & Hkne & Hmof).
  apply sorted_keys_app in Hs as Hsr.
  destruct (sorted_keys_split (marked p d k) s) as (g & s1 & -> & Hg & Hs1).
  { apply sorted_keys_app in Hsr. by apply sorted_keys_cons in Hsr as [_ ?]. }
  { intros x y. apply marked_below. }
  exists (d1 ++ [o])%list, g, s1. split_and!.
  - done.
  - by rewrite <- app_assoc.
  - by rewrite Hcont, Ho.
  - rewrite Hcps, Hc. apply sorted_prefixes_Permutation, emit_prefixes_NoDup.
  - by apply emit_marker with (marker := k).
  - right. split_and!; [by rewrite Htr, Ht|by destruct d1|].
    right. exists k. split_and!; try done.
    rewrite !Forall_app. split_and!; try done.
    + apply Forall_forall. intros x Hx. apply (marked_upto p d o k x Hmof).
      apply lt_key_le.
      apply (sorted_keys_before (skipped ++ d1) o (g ++ s1) x);
        [by rewrite <- app_assoc|]. apply elem_of_app. by left.
    + apply Forall_forall. intros x Hx. apply (marked_upto p d o k x Hmof).
      apply lt_key_le. by apply (sorted_keys_before d1 o (g ++ s1) x).
    + constructor; [|constructor].
      apply (marked_upto p d o k o Hmof), reflexivity.
Qed.

(** The pages of the client hold the entries of the objects that are
    left, in their order. *)
Lemma list_objects_pages_cover st bucket_name delimiter max_keys prefix :
  let p := Py.or_str prefix "" in
  let d := Py.or_str delimiter "" in
  ∀ n skipped rest marker,
    (length rest < n)%nat →
    sorted_keys (skipped ++ rest) →
    Forall (λ x, S3Object.key x ≠ "") (skipped ++ rest) →
    KeyStore.sorted_by_key (KeyStore.values (S3Bucket.objects (bucket st)))
    = (skipped ++ rest)%list →
    marker_at p d marker skipped rest →
    ∃ pages,
      list_objects_pages n bucket_name delimiter max_keys prefix marker st
      = Some pages
      ∧ concat (ListObjectsOutput.Contents <$> pages)
        = entries_objects (emit p d ∅ rest)
      ∧ concat (ListObjectsOutput.CommonPrefixes <$> pages)
        ≡ₚ entries_prefixes (emit p d ∅ rest).
Proof.
  intros p d n. induction n as [|n IH];
    intros skipped rest marker Hn Hs Hne Hall Hmark; [lia|].
  destruct (list_objects_request st bucket_name delimiter max_keys prefix
              skipped rest marker Hs Hne Hall Hmark)
    as (page & d1 & g & s1 & Hreq & -> & Hcont & Hcps & Hemit & Hcase).
  cbn [list_objects_pages]. rewrite Hreq. fold p d in Hcont, Hcps, Hemit.
  destruct Hcase as [(Ht & -> & ->)|(Ht & Hd1 & Hmark')]; rewrite Ht.
  - exists [page]. split; [done|]. cbn [fmap list_fmap concat].
    rewrite !app_nil_r in *. by rewrite Hcont, Hcps.
  - destruct (IH (skipped ++ d1 ++ g)%list s1 (next_marker page))
      as (pages & Hpages & Hc & Hp).
    + rewrite !length_app in Hn. destruct d1; [done|]. simpl in Hn. lia.
    + by rewrite <- !app_assoc.
    + by rewrite <- !app_assoc.
    + by rewrite <- !app_assoc.
    + done.
    + exists (page :: pages). rewrite Hpages. split; [done|].
      rewrite !fmap_cons. cbn [concat].
      rewrite Hemit, entries_objects_app, entries_prefixes_app.
      by rewrite Hcont, Hc, Hcps, Hp.
Qed.

End PaginationV1.

(** ** Paginated listings list every entry once (C4) *)

Section Pagination.
Context `{C : Collaborators}.

Lemma sorted_values_nonempty (s : KeyStore.t) :
  store_wf s → s !! "" = None →
  Forall (λ x, S3Object.key x ≠ "") (KeyStore.sorted_by_key (KeyStore.values s)).
Proof.
  intros Hwf Hnone. apply Forall_forall. intros x Hx Hk.
  unfold KeyStore.sorted_by_key in Hx. rewrite merge_sort_Permutation in Hx.
  apply values_current in Hx as (k & vs & Hlook & Hc).
  apply current_object_elem in Hc.
  specialize (Hwf k vs Hlook). simpl in Hwf. rewrite Forall_forall in Hwf.
  specialize (Hwf (Object x) Hc). simpl in Hwf. congruence.
Qed.

(** C4, as the code has it. A client lists a bucket by sending the
    request again with the token of the last answer as long as the answer
    is truncated; the requests carry no [encoding_type], and the store
    keeps every version under its own key. Then at most one request more
    than the bucket has keys ends the listing, and the pages together
    list the bucket exactly once: their [Contents], one after the other,
    are the objects whose key starts with the prefix and has no delimiter
    after it, in the order of the keys; their [CommonPrefixes] are the
    common prefixes of the keys that start with the prefix, none of them
    twice.
    - ListObjectsV2, following [NextContinuationToken], for every prefix
      and delimiter and every [max_keys] that is not negative.
    - ListObjects, for every prefix, delimiter and [max_keys], on a
      bucket without the empty key, following [NextMarker] when the
      answer has one and the key of the last object of [Contents]
      otherwise: [list_objects] returns [NextMarker] for requests with a
      delimiter only. *)
Theorem list_objects_pagination (st : State) (bucket_name : string)
    (delimiter : option string) (max_keys : option Z) (prefix : option string) :
  store_wf (S3Bucket.objects (bucket st)) →
  let all :=
    KeyStore.sorted_by_key (KeyStore.values (S3Bucket.objects (bucket st))) in
  let p := Py.or_str prefix "" in
  let d := Py.or_str delimiter "" in
  ((0 < Py.or_int max_keys 1000)%Z →
   ∃ pages,
     list_objects_v2_pages (S (length all)) bucket_name delimiter max_keys
       prefix None st = Some pages
     ∧ exactly_once p d all
         (concat (ListObjectsV2Output.Contents <$> pages))
         (concat (ListObjectsV2Output.CommonPrefixes <$> pages)))
  ∧ (S3Bucket.objects (bucket st) !! "" = None →
     ∃ pages,
       list_objects_pages (S (length all)) bucket_name delimiter max_keys
         prefix None st = Some pages
       ∧ exactly_once p d all
           (concat (ListObjectsOutput.Contents <$> pages))
           (concat (ListObjectsOutput.CommonPrefixes <$> pages))).
Proof.
  intros Hwf all p d. pose proof (sorted_values _ Hwf) as Hs. fold all in Hs.
  split.
  - intros Hm.
    destruct (list_objects_v2_pages_cover st bucket_name delimiter max_keys
                prefix Hm (S (length all)) [] all None)
      as (pages & Hpages & Hc & Hp); try done.
    + lia.
    + by left.
    + exists pages. split; [done|]. by apply emit_exactly_once.
  - intros Hne.
    destruct (list_objects_pages_cover st bucket_name delimiter max_keys
                prefix (S (length all)) [] all None)
      as (pages & Hpages & Hc & Hp); try done.
    + lia.
    + by apply sorted_values_nonempty.
    + by left.
    + exists pages. split; [done|]. by apply emit_exactly_once.
Qed.

End Pagination.

Global Instance store_wf_dec (s : KeyStore.t) : Decision (store_wf s).
Proof. unfold store_wf. apply _. Defined.

(** A bucket with two keys under [a/] and the key [b]. *)
Definition bucket_with_three_keys : S3Bucket.t :=
  example_bucket None
    {[ "a/1" := [Object (example_object "a/1" "e1" 1)];
       "a/2" := [Object (example_object "a/2" "e2" 2)];
       "b" := [Object (example_object "b" "e3" 3)] ]}
    ∅.

Lemma list_objects_pagination_witness :
  (store_wf (S3Bucket.objects (bucket (example_state bucket_with_three_keys)))
   ∧ (0 < Py.or_int (Some 1%Z) 1000)%Z
   ∧ S3Bucket.objects (bucket (example_state bucket_with_three_keys)) !! "" = None)
  ∧ (∃ pages,
       list_objects_v2_pages (C := reference) 4 "b" (Some "/") (Some 1%Z) None
         None (example_state bucket_with_three_keys) = Some pages
       ∧ ObjectData.Key <$> concat (ListObjectsV2Output.Contents <$> pages) = ["b"]
       ∧ "a/" ∈ concat (ListObjectsV2Output.CommonPrefixes <$> pages))
  ∧ (∃ pages,
       list_objects_pages (C := reference) 4 "b" None (Some 1%Z) None
         None (example_state bucket_with_three_keys) = Some pages
       ∧ ObjectData.Key <$> concat (ListObjectsOutput.Contents <$> pages)
         = ["a/1"; "a/2"; "b"]).
Proof.
  assert (Hwf : store_wf
                  (S3Bucket.objects (bucket (example_state bucket_with_three_keys))))
    by (apply (bool_decide_unpack _); vm_compute; exact I).
  assert (Hm : (0 < Py.or_int (Some 1%Z) 1000)%Z) by (vm_compute; reflexivity).
  assert (Hne : S3Bucket.objects (bucket (example_state bucket_with_three_keys))
                !! "" = None) by (vm_compute; reflexivity).
  split; [done|]. split.
  - destruct (list_objects_pagination (C := reference)
                (example_state bucket_with_three_keys) "b" (Some "/")
                (Some 1%Z) None Hwf) as [H _].
    destruct (H Hm) as (pages & Hpages & Hc & _ & _ & Hp).
    exists pages. split; [exact Hpages|]. split.
    + rewrite Hc. vm_compute. reflexivity.
    + apply Hp. exists (example_object "a/1" "e1" 1). split; [|split].
      * apply list_elem_of_In. vm_compute. by left.
      * vm_compute. reflexivity.
      * vm_compute. reflexivity.
  - destruct (list_objects_pagination (C := reference)
                (example_state bucket_with_three_keys) "b" None
                (Some 1%Z) None Hwf) as [_ H].
    destruct (H Hne) as (pages & Hpages & Hc & _).
    exists pages. split; [exact Hpages|]. rewrite Hc. vm_compute. reflexivity.
Defined.

(** The claim as stated fails for ListObjects without delimiter: the
    answer is truncated and has no [NextMarker], so the request sent
    again with the returned marker is the first request, and its page the
    first page. *)
Lemma list_objects_truncated_without_marker :
  (list_objects (C := reference) "b" None None None (Some 1%Z) None
     (example_state bucket_with_three_keys)).1
  = Ok (ListObjectsOutput.mk true "b" 1 "" ""
          [object_data "a/1" (example_object "a/1" "e1" 1)] None None [] None)
  ∧ S3Object.key
      <$> KeyStore.sorted_by_key
            (KeyStore.values (S3Bucket.objects bucket_with_three_keys))
    = ["a/1"; "a/2"; "b"].
Proof. split; vm_compute; reflexivity. Qed.

Example list_objects_v2_two_pages :
  fmap (M := option) (fmap (M := list) ListObjectsV2Output.CommonPrefixes)
    (list_objects_v2_pages (C := reference) 4 "b" (Some "/") (Some 1%Z) None
       None (example_state bucket_with_three_keys))
  = Some [["a/"]; []].
Proof. vm_compute. reflexivity. Qed.

(** ** ListObjectsV2 and the empty continuation token (C9) *)

Section ContinuationToken.
Context `{C : Collaborators}.

(** A pass that ends truncated has listed [max_keys] entries or more. *)
Lemma list_objects_v2_loop_full prefix delimiter max_keys l acc :
  (is_truncated acc = true → (max_keys ≤ count acc)%Z) →
  let r :=
    list_objects_v2_loop None None None None prefix delimiter max_keys l acc in
  is_truncated r = true → (max_keys ≤ count r)%Z.
Proof.
  revert acc. induction l as [|x l IH]; intros acc Hacc r; [done|].
  subst r. rewrite list_objects_v2_loop_cons. cbn zeta. cbn [Py.truthy andb].
  destruct (negb (matches prefix x)); [by apply IH|].
  assert (Hadd : ∀ pid data,
    (max_keys <=? count acc)%Z = false →
    is_truncated (listing_add pid data acc) = true →
    (max_keys ≤ count (listing_add pid data acc))%Z).
  { intros pid data Hk. unfold listing_add.
    destruct (Py.truthy pid); cbn [is_truncated count]; intros Ht;
      specialize (Hacc Ht); lia. }
  destruct (pid prefix delimiter x) as [p|].
  - case_bool_decide; [by apply IH|].
    destruct (max_keys <=? count acc)%Z eqn:Hk.
    + intros _. cbn. lia.
    + apply IH. by apply Hadd.
  - destruct (max_keys <=? count acc)%Z eqn:Hk.
    + intros _. cbn. lia.
    + apply IH. by apply Hadd.
Qed.

(** C9: ListObjectsV2 with the empty string as continuation token raises
    [InvalidArgument] for [continuation-token], whatever the other
    arguments and the bucket, and leaves the state as it was; without
    continuation token it returns a page. For a request without
    [start_after] and [encoding_type] this page lists from the beginning:
    the keys of the bucket in order are [listed ++ rest], the page holds
    the entries of [listed] and no other, [KeyCount] of them, and [rest]
    is empty unless the page is truncated. A truncated page has no room
    left - it holds [max_keys] entries (1000 without [max_keys]) or more -
    and [rest] starts with an object that would have added an entry: its
    key starts with the prefix and its common prefix, if it has one, is
    not yet listed; the next token names this object. *)
Theorem list_objects_v2_continuation_token (st : State) (bucket_name : string)
    (delimiter encoding_type : option string) (max_keys : option Z)
    (prefix start_after : option string) :
  list_objects_v2 bucket_name delimiter encoding_type max_keys prefix
    (Some "") start_after st
  = (Raise (InvalidArgument "continuation-token"), st)
  ∧ (∃ page,
       list_objects_v2 bucket_name delimiter encoding_type max_keys prefix
         None start_after st = (Ok page, st))
  ∧ ∃ page listed rest,
      list_objects_v2 bucket_name delimiter None max_keys prefix None None st
      = (Ok page, st)
      ∧ KeyStore.sorted_by_key (KeyStore.values (S3Bucket.objects (bucket st)))
        = (listed ++ rest)%list
      ∧ ListObjectsV2Output.Contents page
        = entries_objects
            (emit (Py.or_str prefix "") (Py.or_str delimiter "") ∅ listed)
      ∧ ListObjectsV2Output.CommonPrefixes page
        = sorted_prefixes
            (list_to_set
               (entries_prefixes
                  (emit (Py.or_str prefix "") (Py.or_str delimiter "") ∅ listed)))
      ∧ ListObjectsV2Output.KeyCount page
        = Z.of_nat
            (length (emit (Py.or_str prefix "") (Py.or_str delimiter "") ∅ listed))
      ∧ ListObjectsV2Output.ContinuationToken page = None
      ∧ (ListObjectsV2Output.IsTruncated page = false → rest = [])
      ∧ (ListObjectsV2Output.IsTruncated page = true →
         (Py.or_int max_keys 1000 ≤ ListObjectsV2Output.KeyCount page)%Z
         ∧ ∃ o s,
             rest = o :: s
             ∧ matches (Py.or_str prefix "") o = true
             ∧ (∀ q, pid (Py.or_str prefix "") (Py.or_str delimiter "") o = Some q →
                     q ∉ pids_of (Py.or_str prefix "") (Py.or_str delimiter "")
                           listed)
             ∧ (S3Object.key o ≠ "" →
                ListObjectsV2Output.NextContinuationToken page
                = Some (urlsafe_b64encode (S3Object.key o)))).
Proof.
  split; [|split].
  - unfold list_objects_v2. rewrite bind_gets.
    by rewrite (bind_lift_raise _ (InvalidArgument "continuation-token")).
  - unfold list_objects_v2. rewrite bind_gets.
    rewrite (bind_lift_ok _ tt) by done. cbn [Py.truthy].
    rewrite (bind_lift_ok _ None) by done. by eexists.
  - set (p := Py.or_str prefix ""). set (d := Py.or_str delimiter "").
    set (m := Py.or_int max_keys 1000).
    set (all := KeyStore.sorted_by_key
                  (KeyStore.values (S3Bucket.objects (bucket st)))).
    set (r := list_objects_v2_loop None None None None p d m all Listing_init).
    assert (Hpage : ∃ page,
      list_objects_v2 bucket_name delimiter None max_keys prefix None None st
      = (Ok page, st)
      ∧ ListObjectsV2Output.IsTruncated page = is_truncated r
      ∧ ListObjectsV2Output.Contents page = s3_objects r
      ∧ ListObjectsV2Output.CommonPrefixes page
        = sorted_prefixes (common_prefixes r)
      ∧ ListObjectsV2Output.KeyCount page = count r
      ∧ ListObjectsV2Output.ContinuationToken page = None
      ∧ ListObjectsV2Output.NextContinuationToken page
        = (if Py.truthy (next_token r) then next_token r else None)).
    { unfold list_objects_v2. rewrite bind_gets.
      rewrite (bind_lift_ok _ tt) by done. cbn [Py.truthy].
      rewrite (bind_lift_ok _ None) by done. eexists. split; [reflexivity|].
      by split_and!. }
    destruct Hpage as (page & Hpage & Htr & Hcont & Hcps & Hcount & Htok & Hnext).
    exists page.
    pose proof (list_objects_v2_loop_page p d m all Listing_init) as Hpg.
    pose proof (list_objects_v2_loop_full p d m all Listing_init) as Hfull.
    cbn zeta in Hpg, Hfull. fold r in Hpg, Hfull. unfold adds in Hpg.
    change (common_prefixes Listing_init) with (∅ : gset string) in Hpg.
    change (s3_objects Listing_init) with (@nil ObjectData.t) in Hpg.
    change (count Listing_init) with 0%Z in Hpg.
    destruct Hpg as [((Hc & Ho & Hn) & Ht & _)
                    |(d1 & o & s1 & Hall & (Hc & Ho & Hn) & Ht & Hnt & Hm & Hq & _)].
    + exists all, []. split_and!; try done.
      * by rewrite app_nil_r.
      * by rewrite Hcont, Ho.
      * by rewrite Hcps, Hc, (right_id_L ∅ (∪)).
      * rewrite Hcount, Hn. lia.
      * rewrite Htr, Ht. done.
    + exists d1, (o :: s1). split_and!; try done.
      * by rewrite Hcont, Ho.
      * by rewrite Hcps, Hc, (right_id_L ∅ (∪)).
      * rewrite Hcount, Hn. lia.
      * rewrite Htr, Ht. done.
      * intros _. split.
        -- rewrite Hcount. apply Hfull; [done|exact Ht].
        -- exists o, s1. split_and!; try done.
           ++ intros q Hpq. by destruct (Hq q Hpq).
           ++ intros Hne. rewrite Hnext, Hnt.
              by rewrite (token_truthy _ Hne).
Qed.

End ContinuationToken.

Example list_objects_v2_empty_token :
  (list_objects_v2 (C := reference) "b" None None None None (Some "") None
     (example_state bucket_with_three_keys)).1
  = Raise (InvalidArgument "continuation-token").
Proof. reflexivity. Qed.

(** * More of the listings *)

(** ** Invariants of the listing loops *)

Section LoopInvariants.
Context `{C : Collaborators}.
Variables (encoding_type : option string) (prefix delimiter : string).
Variable max_keys : Z.

(** The key as the listings compare and return it. *)
Definition listed_key (x : S3Object.t) : string :=
  if Py.truthy encoding_type then quote (S3Object.key x) else S3Object.key x.

Definition listed_pid (x : S3Object.t) : option string :=
  prefix_including_delimiter prefix delimiter (listed_key x).

(** The keys that the continuation token or [start_after] of
    ListObjectsV2 skip. *)
Definition skipped_v2 (continuation_token decoded start_after : option string)
    (x : S3Object.t) : bool :=
  if Py.truthy continuation_token then Py.lt (listed_key x) (default "" decoded)
  else Py.truthy start_after && Py.le (listed_key x) (default "" start_after).

(** The keys that the marker of ListObjects skips. *)
Definition skipped_v1 (marker : option string) (x : S3Object.t) : bool :=
  Py.truthy marker && Py.le (listed_key x) (default "" marker).

Lemma prefix_including_delimiter_truthy key p :
  prefix_including_delimiter prefix delimiter key = Some p →
  Py.truthy (Some p) = true ∧ Py.startswith p prefix = true.
Proof.
  unfold prefix_including_delimiter.
  destruct (Py.truthy (Some delimiter)) eqn:Hd; [|done]. cbn [andb].
  destruct (Py.contains _ _); [|done]. intros [= <-]. split.
  - destruct delimiter as [|c d]; [done|].
    destruct prefix as [|c' p']; [|done]. rewrite Str.append_nil_l.
    by destruct ((Py.partition (String c d) _).1.1).
  - apply Str.startswith_append.
Qed.

(** Whatever holds of the initial variables of the loop of
    [list_objects_v2], is kept when an entry is added below [max_keys] for
    an object that passes the filters, and is kept when the listing is
    truncated, holds of the final variables. *)
Lemma list_objects_v2_loop_invariant (Inv : Listing → Prop)
    (P : S3Object.t → Prop) ct dt sa l acc :
  (∀ acc token, Inv acc → Inv (listing_truncate token acc)) →
  (∀ acc x, Inv acc → P x →
     skipped_v2 ct dt sa x = false →
     Py.startswith (listed_key x) prefix = true →
     (∀ p, listed_pid x = Some p → p ∉ common_prefixes acc) →
     (count acc < max_keys)%Z →
     Inv (listing_add (listed_pid x) (object_data (listed_key x) x) acc)) →
  Forall P l → Inv acc →
  Inv (list_objects_v2_loop encoding_type ct dt sa prefix delimiter max_keys l acc).
Proof.
  intros Htrunc Hadd Hl. revert acc.
  induction Hl as [|x l Hx Hl IH]; intros acc Hacc; [done|].
  cbn [list_objects_v2_loop]. fold (listed_key x).
  fold (skipped_v2 ct dt sa x).
  destruct (skipped_v2 ct dt sa x) eqn:Hskip; [by apply IH|].
  rewrite (prefix_filter prefix).
  destruct (Py.startswith (listed_key x) prefix) eqn:Hpre; cbn [negb];
    [|by apply IH].
  fold (listed_pid x).
  destruct (listed_pid x) as [p|] eqn:Hp.
  - case_bool_decide as Hin; [by apply IH|].
    destruct (max_keys <=? count acc)%Z eqn:Hm; [by apply Htrunc|].
    apply IH. rewrite <- Hp. apply Hadd; try done.
    + intros q. rewrite Hp. by intros [= <-].
    + lia.
  - destruct (max_keys <=? count acc)%Z eqn:Hm; [by apply Htrunc|].
    apply IH. rewrite <- Hp. apply Hadd; try done.
    + intros q. by rewrite Hp.
    + lia.
Qed.

(** The same for the loop of [list_objects], which adds the entry before
    it looks at [max_keys]. *)
Lemma list_objects_loop_invariant (Inv : Listing → Prop)
    (P : S3Object.t → Prop) marker last_key l acc :
  (∀ acc token, Inv acc → Inv (listing_truncate token acc)) →
  (∀ acc x, Inv acc → P x →
     skipped_v1 marker x = false →
     Py.startswith (listed_key x) prefix = true →
     (∀ p, listed_pid x = Some p →
           (p ∉ common_prefixes acc)
           ∧ (Py.truthy marker && Py.startswith (default "" marker) p = false)) →
     Inv (listing_add (listed_pid x) (object_data (listed_key x) x) acc)) →
  Forall P l → Inv acc →
  Inv (list_objects_loop encoding_type marker prefix delimiter max_keys
         last_key l acc).
Proof.
  intros Htrunc Hadd Hl. revert acc.
  induction Hl as [|x l Hx Hl IH]; intros acc Hacc; [done|].
  cbn [list_objects_loop]. fold (listed_key x). fold (skipped_v1 marker x).
  destruct (skipped_v1 marker x) eqn:Hskip; [by apply IH|].
  rewrite (prefix_filter prefix).
  destruct (Py.startswith (listed_key x) prefix) eqn:Hpre; cbn [negb];
    [|by apply IH].
  fold (listed_pid x).
  assert (Hnew :
    (match listed_pid x with
     | Some p =>
         bool_decide (p ∈ common_prefixes acc)
         || (Py.truthy marker && Py.startswith (default "" marker) p)
     | None => false
     end) = false →
    Inv (listing_add (listed_pid x) (object_data (listed_key x) x) acc)).
  { intros Hs. apply Hadd; try done. intros p Hp. rewrite Hp in Hs.
    apply orb_false_elim in Hs as [Hs Hs']. apply bool_decide_eq_false in Hs.
    by split. }
  match goal with
  | |- Inv (if ?b then _ else _) => destruct b eqn:Hb
  end; [by apply IH|].
  specialize (Hnew eq_refl).
  match goal with
  | |- Inv (if ?b then _ else _) => destruct b
  end; [by apply Htrunc|by apply IH].
Qed.

End LoopInvariants.

(** ** What a page of a listing holds *)

Section Pages.
Context `{C : Collaborators}.

(** The answer of [list_objects_v2], when it returns, in terms of the
    final variables of its loop. *)
Lemma list_objects_v2_inv st bucket_name delimiter encoding_type max_keys
    prefix continuation_token start_after page :
  (list_objects_v2 bucket_name delimiter encoding_type max_keys prefix
     continuation_token start_after st).1 = Ok page →
  let p := Py.or_str prefix "" in
  let d := Py.or_str delimiter "" in
  let p' := if Py.truthy encoding_type then quote p else p in
  let d' := if Py.truthy encoding_type then quote d else d in
  ∃ decoded,
    (Py.truthy continuation_token = true →
     urlsafe_b64decode (default "" continuation_token) = decoded)
    ∧ page
      = let r :=
          list_objects_v2_loop encoding_type continuation_token decoded
            start_after p' d' (Py.or_int max_keys 1000)
            (KeyStore.sorted_by_key
               (KeyStore.values (S3Bucket.objects (bucket st))))
            Listing_init in
        ListObjectsV2Output.mk (is_truncated r) bucket_name
          (Py.or_int max_keys 1000) p' (count r) (s3_objects r)
          (if Py.truthy encoding_type then Some "url" else None)
          (if Py.truthy (Some d') then Some d' else None)
          (sorted_prefixes (common_prefixes r))
          (if Py.truthy (next_token r) then next_token r else None)
          (if Py.truthy continuation_token then continuation_token else None)
          (if negb (Py.truthy continuation_token) && Py.truthy start_after
           then start_after else None).
Proof.
  intros H. cbn zeta. revert H.
  unfold list_objects_v2. rewrite bind_gets.
  destruct (raise_if _ _) as [[]|e] eqn:Hr;
    [|by rewrite (bind_lift_raise _ e)].
  rewrite (bind_lift_ok _ tt) by done.
  match goal with
  | |- context [lift ?r ≫= _] => destruct r as [dt|e] eqn:Hd
  end; [|by rewrite (bind_lift_raise _ e)].
  rewrite (bind_lift_ok _ dt) by done.
  intros [= <-]. exists dt. split; [|done].
  intros Ht. rewrite Ht in Hd.
  destruct (urlsafe_b64decode _); [|done]. by injection Hd.
Qed.

(** [list_objects] always returns. *)
Lemma list_objects_inv st bucket_name delimiter encoding_type marker max_keys
    prefix :
  let p := Py.or_str prefix "" in
  let d := Py.or_str delimiter "" in
  let p' := if Py.truthy encoding_type then quote p else p in
  let d' := if Py.truthy encoding_type then quote d else d in
  let all :=
    KeyStore.sorted_by_key (KeyStore.values (S3Bucket.objects (bucket st))) in
  list_objects bucket_name delimiter encoding_type marker max_keys prefix st
  = (Ok (let r :=
           list_objects_loop encoding_type marker p' d'
             (Py.or_int max_keys 1000) (last all) all Listing_init in
         ListObjectsOutput.mk (is_truncated r) bucket_name
           (Py.or_int max_keys 1000) p' (Py.or_str marker "") (s3_objects r)
           (if Py.truthy encoding_type then Some "url" else None)
           (if Py.truthy (Some d') then Some d' else None)
           (sorted_prefixes (common_prefixes r))
           (if Py.truthy (Some d') && Py.truthy (next_token r)
            then next_token r else None)), st).
Proof. reflexivity. Qed.

Lemma sorted_prefixes_length (cps : gset string) :
  length (sorted_prefixes cps) = size cps.
Proof. unfold sorted_prefixes. by rewrite merge_sort_Permutation. Qed.

Lemma elem_of_sorted_prefixes (cps : gset string) p :
  p ∈ sorted_prefixes cps ↔ p ∈ cps.
Proof.
  unfold sorted_prefixes. by rewrite merge_sort_Permutation, elem_of_elements.
Qed.

Lemma listing_add_prefix p data acc :
  Py.truthy (Some p) = true →
  listing_add (Some p) data acc
  = mkListing ({[p]} ∪ common_prefixes acc) (count acc + 1) (is_truncated acc)
      (next_token acc) (s3_objects acc).
Proof. unfold listing_add. by intros ->. Qed.

Lemma listing_add_object data acc :
  listing_add None data acc
  = mkListing (common_prefixes acc) (count acc + 1) (is_truncated acc)
      (next_token acc) (s3_objects acc ++ [data]).
Proof. done. Qed.

(** The counter of the loop of [list_objects_v2] counts the entries, and
    stays below [max_keys]. *)
Lemma list_objects_v2_loop_count encoding_type ct dt sa prefix delimiter
    max_keys l :
  let r :=
    list_objects_v2_loop encoding_type ct dt sa prefix delimiter max_keys l
      Listing_init in
  count r = (Z.of_nat (length (s3_objects r)) + Z.of_nat (size (common_prefixes r)))%Z
  ∧ (count r ≤ Z.max 0 max_keys)%Z.
Proof.
  apply (list_objects_v2_loop_invariant encoding_type prefix delimiter max_keys
           (λ acc, count acc
                   = (Z.of_nat (length (s3_objects acc))
                      + Z.of_nat (size (common_prefixes acc)))%Z
                   ∧ (count acc ≤ Z.max 0 max_keys)%Z)
           (λ _, True)).
  - done.
  - intros acc x [Hc Hm] _ _ _ Hfresh Hlt.
    destruct (listed_pid encoding_type prefix delimiter x) as [p|] eqn:Hp.
    + destruct (prefix_including_delimiter_truthy _ _ _ _ Hp) as [Ht _].
      rewrite (listing_add_prefix _ _ _ Ht). cbn [count s3_objects common_prefixes].
      rewrite size_union by (specialize (Hfresh p eq_refl); set_solver).
      rewrite size_singleton. lia.
    + rewrite listing_add_object. cbn [count s3_objects common_prefixes].
      rewrite length_app. cbn [length]. lia.
  - by apply Forall_forall.
  - cbn. rewrite size_empty. lia.
Qed.

(** A page of ListObjectsV2 holds [KeyCount] entries, objects and common
    prefixes together: not more than [MaxKeys] when [MaxKeys] is not
    negative, and none when it is negative ([KeyCount] is at most the
    greater of 0 and [MaxKeys]). *)
Theorem list_objects_v2_key_count (st : State) (bucket_name : string)
    (delimiter encoding_type : option string) (max_keys : option Z)
    (prefix continuation_token start_after : option string)
    (page : ListObjectsV2Output.t) :
  (list_objects_v2 bucket_name delimiter encoding_type max_keys prefix
     continuation_token start_after st).1 = Ok page →
  ListObjectsV2Output.KeyCount page
  = (Z.of_nat (length (ListObjectsV2Output.Contents page))
     + Z.of_nat (length (ListObjectsV2Output.CommonPrefixes page)))%Z
  ∧ (ListObjectsV2Output.KeyCount page
     ≤ Z.max 0 (ListObjectsV2Output.MaxKeys page))%Z
  ∧ ListObjectsV2Output.MaxKeys page = Py.or_int max_keys 1000.
Proof.
  intros (decoded & _ & ->)%list_objects_v2_inv.
  cbn [ListObjectsV2Output.KeyCount ListObjectsV2Output.Contents
       ListObjectsV2Output.CommonPrefixes ListObjectsV2Output.MaxKeys].
  rewrite sorted_prefixes_length.
  match goal with
  | |- context [list_objects_v2_loop ?e ?ct ?dt ?sa ?p ?d ?m ?l _] =>
      destruct (list_objects_v2_loop_count e ct dt sa p d m l) as [H1 H2]
  end.
  by split_and!.
Qed.

(** What a page lists comes from the bucket: each entry of [contents]
    is a current object whose key starts with the prefix and has no
    delimiter after it; each of [prefixes] starts with the prefix and is
    the common prefix of the key of a current object. *)
Definition listed_from (s : KeyStore.t) (encoding_type : option string)
    (prefix delimiter : string) (contents : list ObjectData.t)
    (prefixes : list string) : Prop :=
  (∀ d, d ∈ contents →
     ∃ x, x ∈ KeyStore.values s
          ∧ d = object_data (listed_key encoding_type x) x
          ∧ Py.startswith (ObjectData.Key d) prefix = true
          ∧ listed_pid encoding_type prefix delimiter x = None)
  ∧ (∀ p, p ∈ prefixes →
       Py.startswith p prefix = true
       ∧ ∃ x, x ∈ KeyStore.values s
              ∧ Py.startswith (listed_key encoding_type x) prefix = true
              ∧ listed_pid encoding_type prefix delimiter x = Some p).

Definition listed_from_acc (s : KeyStore.t) (encoding_type : option string)
    (prefix delimiter : string) (acc : Listing) : Prop :=
  (∀ d, d ∈ s3_objects acc →
     ∃ x, x ∈ KeyStore.values s
          ∧ d = object_data (listed_key encoding_type x) x
          ∧ Py.startswith (ObjectData.Key d) prefix = true
          ∧ listed_pid encoding_type prefix delimiter x = None)
  ∧ (∀ p, p ∈ common_prefixes acc →
       Py.startswith p prefix = true
       ∧ ∃ x, x ∈ KeyStore.values s
              ∧ Py.startswith (listed_key encoding_type x) prefix = true
              ∧ listed_pid encoding_type prefix delimiter x = Some p).

Lemma listed_from_acc_add s encoding_type prefix delimiter acc x :
  listed_from_acc s encoding_type prefix delimiter acc →
  x ∈ KeyStore.values s →
  Py.startswith (listed_key encoding_type x) prefix = true →
  listed_from_acc s encoding_type prefix delimiter
    (listing_add (listed_pid encoding_type prefix delimiter x)
       (object_data (listed_key encoding_type x) x) acc).
Proof.
  intros [Ho Hp] Hx Hpre.
  destruct (listed_pid encoding_type prefix delimiter x) as [p|] eqn:Hpid.
  - destruct (prefix_including_delimiter_truthy _ _ _ _ Hpid) as [Ht Hs].
    rewrite (listing_add_prefix _ _ _ Ht). split; [done|].
    cbn [common_prefixes]. intros q [->%elem_of_singleton|Hq]%elem_of_union;
      [|by apply Hp]. split; [done|]. by exists x.
  - rewrite listing_add_object. split; [|done]. cbn [s3_objects].
    intros d [Hd| ->%list_elem_of_singleton]%elem_of_app; [by apply Ho|].
    by exists x.
Qed.

Lemma sorted_values_elem (s : KeyStore.t) :
  Forall (λ x, x ∈ KeyStore.values s)
    (KeyStore.sorted_by_key (KeyStore.values s)).
Proof.
  apply Forall_forall. intros x. unfold KeyStore.sorted_by_key.
  by rewrite merge_sort_Permutation.
Qed.

Lemma listed_from_acc_init s encoding_type prefix delimiter :
  listed_from_acc s encoding_type prefix delimiter Listing_init.
Proof. split; [by intros d ?%elem_of_nil|by intros p ?%elem_of_empty]. Qed.

(** The pages of ListObjects and ListObjectsV2 list nothing but what the
    bucket holds under the prefix of the request, whatever the marker,
    the token, [start_after], [max_keys] and [encoding_type]: each entry
    of [Contents] is made of a current object of the bucket whose key, as
    listed, starts with [Prefix] and has no delimiter after it; each of
    [CommonPrefixes] starts with [Prefix] and is the common prefix of the
    key of a current object. *)
Theorem listings_sound (st : State) (bucket_name : string)
    (delimiter encoding_type : option string) (max_keys : option Z)
    (prefix marker continuation_token start_after : option string) :
  let d := Py.or_str delimiter "" in
  let d' := if Py.truthy encoding_type then quote d else d in
  (∀ page,
     (list_objects bucket_name delimiter encoding_type marker max_keys prefix
        st).1 = Ok page →
     listed_from (S3Bucket.objects (bucket st)) encoding_type
       (ListObjectsOutput.Prefix page) d'
       (ListObjectsOutput.Contents page) (ListObjectsOutput.CommonPrefixes page))
  ∧ (∀ page,
       (list_objects_v2 bucket_name delimiter encoding_type max_keys prefix
          continuation_token start_after st).1 = Ok page →
       listed_from (S3Bucket.objects (bucket st)) encoding_type
         (ListObjectsV2Output.Prefix page) d'
         (ListObjectsV2Output.Contents page)
         (ListObjectsV2Output.CommonPrefixes page)).
Proof.
  intros d d'. split.
  - intros page. rewrite list_objects_inv. cbn zeta. intros [= <-].
    cbn [ListObjectsOutput.Prefix ListObjectsOutput.Contents
         ListObjectsOutput.CommonPrefixes].
    match goal with
    | |- context [list_objects_loop ?e ?mk ?p ?dl ?m ?lk ?l _] =>
        pose proof (list_objects_loop_invariant e p dl m
                      (listed_from_acc (S3Bucket.objects (bucket st)) e p dl)
                      (λ x, x ∈ KeyStore.values (S3Bucket.objects (bucket st)))
                      mk lk l Listing_init) as [Ho Hp]
    end.
    + by intros acc token [? ?].
    + intros acc x Hacc Hx _ Hpre _. by apply listed_from_acc_add.
    + apply sorted_values_elem.
    + apply listed_from_acc_init.
    + split; [exact Ho|]. intros p Hin%elem_of_sorted_prefixes. by apply Hp.
  - intros page (decoded & _ & ->)%list_objects_v2_inv.
    cbn [ListObjectsV2Output.Prefix ListObjectsV2Output.Contents
         ListObjectsV2Output.CommonPrefixes].
    match goal with
    | |- context [list_objects_v2_loop ?e ?ct ?dt ?sa ?p ?dl ?m ?l _] =>
        pose proof (list_objects_v2_loop_invariant e p dl m
                      (listed_from_acc (S3Bucket.objects (bucket st)) e p dl)
                      (λ x, x ∈ KeyStore.values (S3Bucket.objects (bucket st)))
                      ct dt sa l Listing_init) as [Ho Hp]
    end.
    + by intros acc token [? ?].
    + intros acc x Hacc Hx _ Hpre _ _. by apply listed_from_acc_add.
    + apply sorted_values_elem.
    + apply listed_from_acc_init.
    + split; [exact Ho|]. intros p Hin%elem_of_sorted_prefixes. by apply Hp.
Qed.

(** The keys of the objects that the loops add satisfy [Q], when the
    keys that are not skipped do. *)
Lemma listing_add_keys (Q : string → Prop) pid key x acc :
  Forall Q (ObjectData.Key <$> s3_objects acc) → Q key →
  Forall Q (ObjectData.Key <$> s3_objects (listing_add pid (object_data key x) acc)).
Proof.
  intros Hacc Hk. unfold listing_add. destruct (Py.truthy pid); [done|].
  cbn [s3_objects]. rewrite fmap_app. apply Forall_app. split; [done|].
  by repeat constructor.
Qed.

(** A listing starts after its marker: the keys in [Contents] of
    ListObjects are greater than the marker, and no common prefix is one
    that the marker starts with; the keys of ListObjectsV2 are greater
    than [start_after] when there is no continuation token, and not
    smaller than the key that the continuation token encodes. *)
Theorem listings_after_marker (st : State) (bucket_name : string)
    (delimiter encoding_type : option string) (max_keys : option Z)
    (prefix start_after : option string) (after : string) :
  after ≠ "" →
  (∀ page,
     (list_objects bucket_name delimiter encoding_type (Some after) max_keys
        prefix st).1 = Ok page →
     Forall (λ k, ¬ String.le k after)
       (ObjectData.Key <$> ListObjectsOutput.Contents page)
     ∧ Forall (λ p, Py.startswith after p = false)
         (ListObjectsOutput.CommonPrefixes page))
  ∧ (∀ page,
       (list_objects_v2 bucket_name delimiter encoding_type max_keys prefix
          None (Some after) st).1 = Ok page →
       Forall (λ k, ¬ String.le k after)
         (ObjectData.Key <$> ListObjectsV2Output.Contents page))
  ∧ (∀ page,
       (list_objects_v2 bucket_name delimiter encoding_type max_keys prefix
          (Some (urlsafe_b64encode after)) start_after st).1 = Ok page →
       Forall (λ k, String.le after k)
         (ObjectData.Key <$> ListObjectsV2Output.Contents page)).
Proof.
  intros Hne.
  assert (Ht : Py.truthy (Some after) = true) by by destruct after.
  split; [|split].
  - intros page. rewrite list_objects_inv. cbn zeta. intros [= <-].
    cbn [ListObjectsOutput.Contents ListObjectsOutput.CommonPrefixes].
    match goal with
    | |- context [list_objects_loop ?e ?mk ?p ?dl ?m ?lk ?l _] =>
        pose proof (list_objects_loop_invariant e p dl m
                      (λ acc,
                         Forall (λ k, ¬ String.le k after)
                           (ObjectData.Key <$> s3_objects acc)
                         ∧ ∀ q, q ∈ common_prefixes acc →
                                Py.startswith after q = false)
                      (λ _, True) mk lk l Listing_init) as [Ho Hp]
    end.
    + by intros acc token [? ?].
    + intros acc x [Ho Hp] _ Hskip _ Hfresh. unfold skipped_v1 in Hskip.
      rewrite Ht in Hskip. cbn in Hskip.
      apply StrOrder.le_false in Hskip. split.
      * by apply listing_add_keys.
      * destruct (listed_pid _ _ _ x) as [q|] eqn:Hq; [|done].
        destruct (prefix_including_delimiter_truthy _ _ _ _ Hq) as [Htq _].
        rewrite (listing_add_prefix _ _ _ Htq). cbn [common_prefixes].
        intros q' [->%elem_of_singleton|Hq']%elem_of_union; [|by apply Hp].
        destruct (Hfresh q eq_refl) as [_ Hm]. by rewrite Ht in Hm.
    + by apply Forall_forall.
    + split; [constructor|]. by intros q ?%elem_of_empty.
    + split; [exact Ho|]. apply Forall_forall.
      intros p Hin%elem_of_sorted_prefixes. by apply Hp.
  - intros page (decoded & _ & ->)%list_objects_v2_inv.
    cbn [ListObjectsV2Output.Contents].
    match goal with
    | |- context [list_objects_v2_loop ?e ?ct ?dt ?sa ?p ?dl ?m ?l _] =>
        apply (list_objects_v2_loop_invariant e p dl m
                 (λ acc, Forall (λ k, ¬ String.le k after)
                           (ObjectData.Key <$> s3_objects acc))
                 (λ _, True) ct dt sa l Listing_init)
    end.
    + done.
    + intros acc x Ho _ Hskip _ _ _. unfold skipped_v2 in Hskip.
      rewrite Ht in Hskip. cbn in Hskip.
      apply StrOrder.le_false in Hskip. by apply listing_add_keys.
    + by apply Forall_forall.
    + constructor.
  - intros page (decoded & Hdec & ->)%list_objects_v2_inv.
    pose proof (token_truthy after Hne) as Htok. specialize (Hdec Htok).
    cbn in Hdec. rewrite urlsafe_b64decode_encode in Hdec. subst decoded.
    cbn [ListObjectsV2Output.Contents].
    match goal with
    | |- context [list_objects_v2_loop ?e ?ct ?dt ?sa ?p ?dl ?m ?l _] =>
        apply (list_objects_v2_loop_invariant e p dl m
                 (λ acc, Forall (λ k, String.le after k)
                           (ObjectData.Key <$> s3_objects acc))
                 (λ _, True) ct dt sa l Listing_init)
    end.
    + done.
    + intros acc x Ho _ Hskip _ _ _. unfold skipped_v2 in Hskip.
      rewrite Htok in Hskip. cbn in Hskip.
      apply StrOrder.lt_false in Hskip. by apply listing_add_keys.
    + by apply Forall_forall.
    + constructor.
Qed.

(** The listings read the bucket and change nothing, whether they return
    a page or raise. *)
Theorem listings_read_only (st : State) (bucket_name : string)
    (delimiter encoding_type : option string) (max_keys : option Z)
    (prefix marker continuation_token start_after : option string) :
  (list_objects bucket_name delimiter encoding_type marker max_keys prefix st).2
  = st
  ∧ (list_objects_v2 bucket_name delimiter encoding_type max_keys prefix
       continuation_token start_after st).2 = st.
Proof.
  split; [done|]. unfold list_objects_v2. rewrite bind_gets.
  destruct (raise_if _ _) as [[]|e] eqn:Hr;
    [|by rewrite (bind_lift_raise _ e)].
  rewrite (bind_lift_ok _ tt) by done.
  match goal with
  | |- context [lift ?r ≫= _] => destruct r as [dt|e] eqn:Hd
  end; [|by rewrite (bind_lift_raise _ e)].
  by rewrite (bind_lift_ok _ dt).
Qed.

End Pages.

Lemma list_objects_v2_key_count_witness :
  (list_objects_v2 (C := reference) "b" (Some "/") None (Some 2%Z) None None None
     (example_state bucket_with_three_keys)).1
  = Ok (ListObjectsV2Output.mk false "b" 2 "" 2
          [object_data "b" (example_object "b" "e3" 3)] None (Some "/") ["a/"]
          None None None)
  ∧ (2 = Z.of_nat 1 + Z.of_nat 1)%Z.
Proof.
  assert (H : (list_objects_v2 (C := reference) "b" (Some "/") None (Some 2%Z)
                 None None None (example_state bucket_with_three_keys)).1
              = Ok (ListObjectsV2Output.mk false "b" 2 "" 2
                      [object_data "b" (example_object "b" "e3" 3)] None
                      (Some "/") ["a/"] None None None))
    by (vm_compute; reflexivity).
  split; [exact H|].
  exact (proj1 (list_objects_v2_key_count (C := reference) _ _ _ _ _ _ _ _ _ H)).
Defined.

Lemma listings_after_marker_witness :
  "a/1" ≠ ""
  ∧ (list_objects (C := reference) "b" None None (Some "a/1") None None
       (example_state bucket_with_three_keys)).1
    = Ok (ListObjectsOutput.mk false "b" 1000 "" "a/1"
            [object_data "a/2" (example_object "a/2" "e2" 2);
             object_data "b" (example_object "b" "e3" 3)] None None [] None)
  ∧ Forall (λ k, ¬ String.le k "a/1") ["a/2"; "b"].
Proof.
  assert (Hne : "a/1" ≠ "") by done.
  assert (H : (list_objects (C := reference) "b" None None (Some "a/1") None
                 None (example_state bucket_with_three_keys)).1
              = Ok (ListObjectsOutput.mk false "b" 1000 "" "a/1"
                      [object_data "a/2" (example_object "a/2" "e2" 2);
                       object_data "b" (example_object "b" "e3" 3)] None None
                      [] None)) by (vm_compute; reflexivity).
  split; [exact Hne|]. split; [exact H|].
  exact (proj1 (proj1 (listings_after_marker (C := reference)
                         (example_state bucket_with_three_keys) "b" None None
                         None None None "a/1" Hne) _ H)).
Defined.

(** * Multipart uploads: abort and the list of parts *)

Section AbortMultipartUpload.
Context `{C : Collaborators}.

(** AbortMultipartUpload raises [NoSuchUpload] and changes nothing when
    the bucket has no upload of this id for this key. Otherwise it
    removes this upload, and only it, from the bucket, tells the storage
    backend to drop its parts, and leaves the objects and the tags as
    they were; afterwards the upload is gone for good: aborting it again,
    listing its parts and completing it raise [NoSuchUpload]. *)
Theorem abort_multipart_upload_removes (st : State)
    (bucket_name key upload_id : string) :
  let r := abort_multipart_upload bucket_name key upload_id st in
  (get_multipart (bucket st) upload_id key = Raise NoSuchUpload →
   r = (Raise NoSuchUpload, st))
  ∧ (∀ s3_multipart,
       get_multipart (bucket st) upload_id key = Ok s3_multipart →
       r.1 = Ok tt
       ∧ S3Bucket.multiparts (bucket r.2)
         = delete upload_id (S3Bucket.multiparts (bucket st))
       ∧ S3Bucket.objects (bucket r.2) = S3Bucket.objects (bucket st)
       ∧ tags r.2 = tags st
       ∧ backend r.2
         = (backend st
            ++ [BackendRemoveMultipart bucket_name (S3Multipart.id s3_multipart)])%list
       ∧ abort_multipart_upload bucket_name key upload_id r.2
         = (Raise NoSuchUpload, r.2)
       ∧ (∀ max_parts part_number_marker,
            list_parts bucket_name key upload_id max_parts part_number_marker r.2
            = (Raise NoSuchUpload, r.2))
       ∧ (∀ request,
            CompleteMultipartUploadRequest.UploadId request = upload_id →
            CompleteMultipartUploadRequest.Key request = key →
            complete_multipart_upload request r.2 = (Raise NoSuchUpload, r.2))).
Proof.
  intros r. subst r. unfold abort_multipart_upload. rewrite bind_gets. split.
  - intros H. by rewrite (bind_lift_raise _ NoSuchUpload).
  - intros m Hm. rewrite (bind_lift_ok _ m) by done.
    rewrite bind_modify, bind_modify. cbn [fst snd mret M_ret].
    set (st' := call_backend _ (multiparts_pop upload_id st)).
    assert (Hgone : get_multipart (bucket st') upload_id key = Raise NoSuchUpload).
    { unfold st', get_multipart, multiparts_pop. cbn. by rewrite lookup_delete_eq. }
    split_and!; try done.
    + rewrite bind_gets. by rewrite (bind_lift_raise _ NoSuchUpload).
    + intros max_parts marker. unfold list_parts. rewrite bind_gets.
      by rewrite (bind_lift_raise _ NoSuchUpload).
    + intros request Hid Hkey. unfold complete_multipart_upload.
      rewrite bind_gets, Hid, Hkey.
      by rewrite (bind_lift_raise _ NoSuchUpload).
Qed.

End AbortMultipartUpload.

(** ** ListParts *)

(** Every part is stored under its own part number, as [upload_part]
    stores it. *)
Definition parts_wf (parts : gmap Z S3Part.t) : Prop :=
  map_Forall (λ n part, S3Part.part_number part = n) parts.

Global Instance parts_wf_dec parts : Decision (parts_wf parts).
Proof. unfold parts_wf. apply _. Defined.

(** In ascending order of the part numbers, none of them twice. *)
Definition numbers_ascending (l : list (Z * S3Part.t)) : Prop :=
  StronglySorted (λ a b, (a.1 < b.1)%Z) l.

(** The parts after a part number marker. *)
Definition parts_after (marker : Z) (l : list (Z * S3Part.t))
  : list (Z * S3Part.t) :=
  filter (λ kv, (marker < kv.1)%Z) l.

Global Instance le_part_number_trans : Transitive le_part_number.
Proof. intros a b c. unfold le_part_number. lia. Qed.

Global Instance le_part_number_total : Total le_part_number.
Proof. intros a b. unfold le_part_number. lia. Qed.

Lemma sorted_items_elem parts n part :
  (n, part) ∈ sorted_items parts ↔ parts !! n = Some part.
Proof.
  unfold sorted_items. rewrite merge_sort_Permutation.
  apply elem_of_map_to_list.
Qed.

Lemma sorted_items_ascending parts : numbers_ascending (sorted_items parts).
Proof.
  unfold sorted_items.
  assert (Hs : StronglySorted le_part_number
                 (merge_sort le_part_number (map_to_list parts)))
    by (apply StronglySorted_merge_sort; apply _).
  assert (Hn : NoDup (merge_sort le_part_number (map_to_list parts)).*1).
  { rewrite merge_sort_Permutation. apply NoDup_fst_map_to_list. }
  induction Hs as [|x l Hs IH Hf]; [constructor|].
  rewrite fmap_cons in Hn. apply NoDup_cons in Hn as [Hx Hn].
  constructor; [by apply IH|]. apply Forall_forall. intros y Hy.
  rewrite Forall_forall in Hf. specialize (Hf y Hy). unfold le_part_number in Hf.
  assert (x.1 ≠ y.1); [|lia]. intros Heq. apply Hx. rewrite Heq.
  by apply list_elem_of_fmap_2.
Qed.

Lemma sorted_items_wf parts :
  parts_wf parts →
  Forall (λ kv, S3Part.part_number kv.2 = kv.1) (sorted_items parts).
Proof.
  intros Hwf. apply Forall_forall. intros [n part] Hin%sorted_items_elem.
  exact (Hwf n part Hin).
Qed.

Lemma numbers_ascending_last x l y :
  numbers_ascending (x :: l) → last l = Some y → (x.1 < y.1)%Z.
Proof.
  intros [Hf _]%StronglySorted_cons Hy. rewrite Forall_forall in Hf.
  apply Hf. apply last_Some in Hy as [l' ->]. apply elem_of_app. right.
  apply list_elem_of_here.
Qed.

Lemma parts_after_ascending marker l :
  numbers_ascending l → numbers_ascending (parts_after marker l).
Proof.
  induction 1 as [|x l Hs IH Hf]; [constructor|].
  unfold parts_after. rewrite filter_cons. destruct (decide _); [|done].
  constructor; [done|]. apply Forall_forall. intros y [_ Hy]%list_elem_of_filter.
  rewrite Forall_forall in Hf. by apply Hf.
Qed.

Section ListParts.
Context `{C : Collaborators}.

(** The loop of [list_parts] adds the parts after the marker, one after
    the other, until it has [max_parts] of them, and at least one. *)
Lemma list_parts_loop_spec alg marker max_parts last_part_number l parts count :
  numbers_ascending l →
  Forall (λ kv, S3Part.part_number kv.2 = kv.1) l →
  (l ≠ [] → last_part_number = fst <$> last l) →
  let rest := parts_after marker l in
  let k := Z.to_nat (Z.max 1 (max_parts - count)) in
  list_parts_loop alg marker max_parts last_part_number l parts count
  = ((parts ++ ((λ kv, part_item alg kv.1 kv.2) <$> take k rest))%list,
     bool_decide (k < length rest)%nat).
Proof.
  intros Hs. revert parts count.
  induction Hs as [|[n part] l Hs IH Hf]; intros parts count Hwf Hlast rest k.
  { subst rest k. cbn. rewrite take_nil. cbn. by rewrite app_nil_r. }
  apply Forall_cons in Hwf as [Hn Hwf]. cbn in Hn.
  assert (Hlast' : l ≠ [] → last_part_number = fst <$> last l).
  { intros Hl. rewrite Hlast by done. destruct l; [done|]. by rewrite last_cons_cons. }
  cbn [list_parts_loop]. subst rest. unfold parts_after. rewrite filter_cons.
  cbn [fst]. destruct (n <=? marker)%Z eqn:Hm.
  { rewrite decide_False by lia. by apply IH. }
  rewrite decide_True by lia. fold (parts_after marker l).
  rewrite Hn.
  assert (Hk1 : (1 ≤ k)%nat) by (subst k; lia).
  assert (Hasc : numbers_ascending ((n, part) :: l)) by (by apply SSorted_cons).
  destruct l as [|y l'].
  { (* the last part *)
    rewrite Hlast by done. cbn [last fmap option_fmap option_map fst].
    rewrite bool_decide_true by done. cbn [negb]. rewrite andb_false_r.
    change (parts_after marker []) with (@nil (Z * S3Part.t)).
    destruct k as [|k']; [lia|]. cbn [take length list_parts_loop].
    rewrite take_nil. cbn [fmap list_fmap length].
    by rewrite bool_decide_false by lia. }
  assert (Hne : Some n ≠ last_part_number).
  { rewrite Hlast' by done. destruct (last (y :: l')) as [z|] eqn:Hz.
    - pose proof (numbers_ascending_last (n, part) (y :: l') z Hasc Hz) as Hlt.
      cbn in Hlt. intros [= Heq]. lia.
    - by apply last_None in Hz. }
  rewrite bool_decide_false by done. cbn [negb]. rewrite andb_true_r.
  destruct (max_parts <=? count + 1)%Z eqn:Hfull.
  - (* truncated *)
    assert (k = 1%nat) as -> by (subst k; lia).
    cbn [take fmap list_fmap length]. f_equal.
    symmetry. apply bool_decide_eq_true.
    assert (∃ z, z ∈ parts_after marker (y :: l')) as [z Hz].
    { destruct (last (y :: l')) as [z|] eqn:Hz; [|by apply last_None in Hz].
      exists z. apply list_elem_of_filter. split.
      - pose proof (numbers_ascending_last (n, part) (y :: l') z Hasc Hz) as Hlt.
        cbn in Hlt. cbn. lia.
      - apply last_Some in Hz as [l'' ->]. apply elem_of_app. right.
        apply list_elem_of_here. }
    destruct (parts_after marker (y :: l')); [by apply elem_of_nil in Hz|].
    cbn. lia.
  - rewrite (IH _ _ Hwf Hlast'). cbn zeta.
    assert (k = S (Z.to_nat (Z.max 1 (max_parts - (count + 1))))) as ->
      by (subst k; lia).
    cbn [take fmap list_fmap length]. rewrite <- app_assoc. f_equal.
    apply bool_decide_ext. lia.
Qed.

(** The page that [list_parts] returns for an upload that the bucket
    holds. *)
Lemma list_parts_found (st : State) (bucket_name key upload_id : string)
    (max_parts part_number_marker : option Z) (s3_multipart : S3Multipart.t) :
  get_multipart (bucket st) upload_id key = Ok s3_multipart →
  parts_wf (S3Multipart.parts s3_multipart) →
  let marker := Py.or_int part_number_marker 0 in
  let rest := parts_after marker (sorted_items (S3Multipart.parts s3_multipart)) in
  let listed := take (Z.to_nat (Z.max 1 (Py.or_int max_parts 1000))) rest in
  (numbers_ascending rest
   ∧ ∀ n part, (n, part) ∈ rest ↔
               S3Multipart.parts s3_multipart !! n = Some part ∧ (marker < n)%Z)
  ∧ ∃ page,
      list_parts bucket_name key upload_id max_parts part_number_marker st
      = (Ok page, st)
      ∧ ListPartsOutput.Parts page
        = (λ kv, part_item (S3Multipart.checksum_algorithm s3_multipart)
                   kv.1 kv.2) <$> listed
      ∧ ListPartsOutput.IsTruncated page
        = bool_decide (length listed < length rest)%nat
      ∧ ListPartsOutput.NextPartNumberMarker page
        = default 0%Z (fst <$> last listed)
      ∧ ListPartsOutput.PartNumberMarker page = marker.
Proof.
  intros Hmp Hwf marker rest listed. split.
  - split; [apply parts_after_ascending, sorted_items_ascending|].
    intros n part. unfold rest, parts_after.
    rewrite list_elem_of_filter, sorted_items_elem. cbn. tauto.
  - unfold list_parts. rewrite bind_gets.
    rewrite (bind_lift_ok _ s3_multipart) by done.
    pose proof (list_parts_loop_spec (S3Multipart.checksum_algorithm s3_multipart)
                  marker (Py.or_int max_parts 1000)
                  (fst <$> last (sorted_items (S3Multipart.parts s3_multipart)))
                  (sorted_items (S3Multipart.parts s3_multipart)) [] 0
                  (sorted_items_ascending _) (sorted_items_wf _ Hwf)
                  (λ _, eq_refl)) as Hloop.
    cbn zeta in Hloop. rewrite Z.sub_0_r in Hloop. fold marker.
    rewrite Hloop. fold rest. fold listed. cbn [app].
    eexists. split; [reflexivity|].
    cbn [ListPartsOutput.Parts ListPartsOutput.IsTruncated
         ListPartsOutput.NextPartNumberMarker ListPartsOutput.PartNumberMarker].
    split_and!; try done.
    + apply bool_decide_ext. unfold listed. rewrite length_take. lia.
    + rewrite fmap_last. by destruct (last listed).
Qed.

(** What [list_parts] answers. When the bucket has no upload of this id
    for this key it raises [NoSuchUpload]. Otherwise [Parts] are the
    first [max_parts] parts with a number above the marker, one at
    least, in ascending order of part number; the answer is truncated
    exactly when there are more of them, and [NextPartNumberMarker] is
    the number of the last part listed. ListParts changes nothing. *)
Theorem list_parts_page (st : State) (bucket_name key upload_id : string)
    (max_parts part_number_marker : option Z) :
  (get_multipart (bucket st) upload_id key = Raise NoSuchUpload →
   list_parts bucket_name key upload_id max_parts part_number_marker st
   = (Raise NoSuchUpload, st))
  ∧ ∀ s3_multipart,
      get_multipart (bucket st) upload_id key = Ok s3_multipart →
      parts_wf (S3Multipart.parts s3_multipart) →
      let marker := Py.or_int part_number_marker 0 in
      let rest := parts_after marker (sorted_items (S3Multipart.parts s3_multipart)) in
      let listed := take (Z.to_nat (Z.max 1 (Py.or_int max_parts 1000))) rest in
      (numbers_ascending rest
       ∧ ∀ n part, (n, part) ∈ rest ↔
                   S3Multipart.parts s3_multipart !! n = Some part ∧ (marker < n)%Z)
      ∧ ∃ page,
          list_parts bucket_name key upload_id max_parts part_number_marker st
          = (Ok page, st)
          ∧ ListPartsOutput.Parts page
            = (λ kv, part_item (S3Multipart.checksum_algorithm s3_multipart)
                       kv.1 kv.2) <$> listed
          ∧ ListPartsOutput.IsTruncated page
            = bool_decide (length listed < length rest)%nat
          ∧ ListPartsOutput.NextPartNumberMarker page
            = default 0%Z (fst <$> last listed)
          ∧ ListPartsOutput.PartNumberMarker page = marker.
Proof.
  split.
  - intros H. unfold list_parts. rewrite bind_gets.
    by rewrite (bind_lift_raise _ NoSuchUpload).
  - intros mp Hmp Hwf. by apply list_parts_found.
Qed.

End ListParts.

(** ** Following [NextPartNumberMarker] *)

Lemma parts_after_all marker (l : list (Z * S3Part.t)) :
  Forall (λ kv, (marker < kv.1)%Z) l → parts_after marker l = l.
Proof.
  induction 1 as [|x l Hx Hl IH]; [done|]. unfold parts_after.
  rewrite filter_cons_True by done. f_equal. exact IH.
Qed.

Lemma parts_after_none marker (l : list (Z * S3Part.t)) :
  Forall (λ kv, (kv.1 ≤ marker)%Z) l → parts_after marker l = [].
Proof.
  induction 1 as [|x l Hx Hl IH]; [done|]. unfold parts_after.
  rewrite filter_cons_False by lia. exact IH.
Qed.

(** After the number of the last of the first [k] parts come the parts
    from the [k]-th on. *)
Lemma parts_after_take (l : list (Z * S3Part.t)) (k : nat) y :
  numbers_ascending l → last (take k l) = Some y →
  parts_after y.1 l = drop k l.
Proof.
  intros Hs Hy. rewrite <- (take_drop k l) at 1.
  rewrite <- (take_drop k l) in Hs.
  apply StronglySorted_app in Hs as (Hbetween & Htake & Hdrop).
  apply last_Some in Hy as [l' Hl']. rewrite Hl' in Htake, Hbetween.
  unfold parts_after. rewrite filter_app, Hl'.
  fold (parts_after y.1 (l' ++ [y])). fold (parts_after y.1 (drop k l)).
  rewrite parts_after_none, parts_after_all; [done| |].
  - apply Forall_forall. intros z Hz. apply Hbetween; [|done].
    apply elem_of_app. right. apply list_elem_of_here.
  - apply StronglySorted_app in Htake as (Hlt & _ & _).
    apply Forall_app. split; [|by repeat constructor].
    apply Forall_forall. intros z Hz.
    cut (z.1 < y.1)%Z; [lia|]. apply Hlt; [done|apply list_elem_of_here].
Qed.

Lemma parts_after_after m1 m2 (l : list (Z * S3Part.t)) :
  (m1 ≤ m2)%Z → parts_after m2 (parts_after m1 l) = parts_after m2 l.
Proof.
  intros Hle. induction l as [|x l IH]; [done|]. unfold parts_after in *.
  rewrite (filter_cons (λ kv : Z * S3Part.t, (m1 < kv.1)%Z)).
  rewrite (filter_cons (λ kv : Z * S3Part.t, (m2 < kv.1)%Z) x l).
  destruct (decide (m1 < x.1)%Z), (decide (m2 < x.1)%Z); try lia.
  - rewrite filter_cons_True by done. by rewrite IH.
  - rewrite filter_cons_False by done. by rewrite IH.
  - exact IH.
Qed.

Section ListPartsPages.
Context `{C : Collaborators}.

(** A client that lists the parts of an upload: it sends the request
    again with [NextPartNumberMarker] as marker as long as the answer is
    truncated. [requests] bounds the number of requests. *)
Fixpoint list_parts_pages (requests : nat) (bucket_name key upload_id : string)
    (max_parts part_number_marker : option Z) (st : State)
  : option (list ListPartsOutput.t) :=
  match requests with
  | O => None
  | S n =>
      match list_parts bucket_name key upload_id max_parts part_number_marker st with
      | (Ok page, st') =>
          if ListPartsOutput.IsTruncated page
          then
            (page ::.)
              <$> list_parts_pages n bucket_name key upload_id max_parts
                    (Some (ListPartsOutput.NextPartNumberMarker page)) st'
          else Some [page]
      | (Raise _, _) => None
      end
  end.

Lemma or_int_marker (n : Z) : Py.or_int (Some n) 0 = n.
Proof. unfold Py.or_int, Py.truthy_int. by destruct (Z.eqb_spec n 0). Qed.

Lemma list_parts_pages_cover st bucket_name key upload_id max_parts mp :
  get_multipart (bucket st) upload_id key = Ok mp →
  parts_wf (S3Multipart.parts mp) →
  ∀ n marker,
    let rest :=
      parts_after (Py.or_int marker 0) (sorted_items (S3Multipart.parts mp)) in
    (length rest < n)%nat →
    ∃ pages,
      list_parts_pages n bucket_name key upload_id max_parts marker st
      = Some pages
      ∧ concat (ListPartsOutput.Parts <$> pages)
        = (λ kv, part_item (S3Multipart.checksum_algorithm mp) kv.1 kv.2)
            <$> rest.
Proof.
  intros Hmp Hwf n. induction n as [|n IH]; intros marker rest Hn; [lia|].
  destruct (list_parts_found st bucket_name key upload_id max_parts marker
              mp Hmp Hwf) as [[Hasc _] (page & Hpage & Hparts & Htr & Hnext & _)].
  fold rest in Hasc, Hparts, Htr, Hnext.
  set (k := Z.to_nat (Z.max 1 (Py.or_int max_parts 1000))) in *.
  cbn [list_parts_pages]. rewrite Hpage, Htr.
  case_bool_decide as Hlen.
  - destruct (last (take k rest)) as [y|] eqn:Hy.
    2:{ apply last_None in Hy. apply (f_equal length) in Hy.
        rewrite length_take in Hy. cbn in Hy, Hlen.
        rewrite length_take in Hlen. lia. }
    cbn in Hnext.
    assert (Hy1 : (Py.or_int marker 0 < y.1)%Z).
    { assert (Hin : y ∈ rest).
      { apply last_Some in Hy as [l' Hl'].
        rewrite <- (take_drop k rest), Hl'. rewrite !elem_of_app.
        left. right. apply list_elem_of_here. }
      unfold rest, parts_after in Hin. by apply list_elem_of_filter in Hin as [? _]. }
    destruct (IH (Some (ListPartsOutput.NextPartNumberMarker page)))
      as (pages & Hpages & Hc).
    + rewrite Hnext, or_int_marker. cbn zeta.
      rewrite <- (parts_after_after (Py.or_int marker 0) y.1) by lia.
      fold rest. rewrite (parts_after_take rest k y Hasc Hy).
      rewrite length_drop. rewrite length_take in Hlen. lia.
    + exists (page :: pages). rewrite Hpages. split; [done|].
      rewrite fmap_cons. cbn [concat]. rewrite Hparts, Hc.
      rewrite Hnext, or_int_marker.
      rewrite <- (parts_after_after (Py.or_int marker 0) y.1) by lia.
      fold rest. rewrite (parts_after_take rest k y Hasc Hy).
      by rewrite <- fmap_app, take_drop.
  - exists [page]. split; [done|]. cbn [fmap list_fmap concat].
    rewrite app_nil_r, Hparts. f_equal. apply take_ge.
    rewrite length_take in Hlen. lia.
Qed.

(** A client that follows [NextPartNumberMarker] of ListParts gets every
    part of the upload with a positive number exactly once, in ascending
    order of the part numbers, within one request more than the upload
    has parts, for every [max_parts]. *)
Theorem list_parts_pagination (st : State) (bucket_name key upload_id : string)
    (max_parts : option Z) (s3_multipart : S3Multipart.t) :
  get_multipart (bucket st) upload_id key = Ok s3_multipart →
  parts_wf (S3Multipart.parts s3_multipart) →
  let all := sorted_items (S3Multipart.parts s3_multipart) in
  ∃ pages,
    list_parts_pages (S (length all)) bucket_name key upload_id max_parts None st
    = Some pages
    ∧ concat (ListPartsOutput.Parts <$> pages)
      = (λ kv, part_item (S3Multipart.checksum_algorithm s3_multipart) kv.1 kv.2)
          <$> parts_after 0 all
    ∧ numbers_ascending (parts_after 0 all)
    ∧ (map_Forall (λ n _, (0 < n)%Z) (S3Multipart.parts s3_multipart) →
       parts_after 0 all = all).
Proof.
  intros Hmp Hwf all.
  destruct (list_parts_pages_cover st bucket_name key upload_id max_parts
              s3_multipart Hmp Hwf (S (length all)) None)
    as (pages & Hpages & Hc).
  { cbn zeta. change (Py.or_int None 0) with 0%Z. fold all.
    unfold parts_after.
    pose proof (length_filter (λ kv : Z * S3Part.t, (0 < kv.1)%Z) all). lia. }
  exists pages. split_and!; try done.
  - apply parts_after_ascending, sorted_items_ascending.
  - intros Hpos. apply parts_after_all, Forall_forall.
    intros [n part] Hin%sorted_items_elem. exact (Hpos n part Hin).
Qed.

End ListPartsPages.

(** An upload of the key [k] with the parts 1, 2 and 3. *)
Definition example_part (n : Z) : S3Part.t :=
  S3Part.mk n "e" 5 n None None.

Definition upload_with_parts : S3Multipart.t :=
  S3Multipart.mk "u" (example_object "k" "" 10) 10 false
    {[ 1%Z := example_part 1; 2%Z := example_part 2; 3%Z := example_part 3 ]}
    None None None.

Definition bucket_with_upload : S3Bucket.t :=
  example_bucket None ∅ {["u" := upload_with_parts]}.

Lemma list_parts_pagination_witness :
  (get_multipart (bucket (example_state bucket_with_upload)) "u" "k"
   = Ok upload_with_parts
   ∧ parts_wf (S3Multipart.parts upload_with_parts))
  ∧ ∃ pages,
      list_parts_pages (C := reference) 4 "b" "k" "u" (Some 2%Z) None
        (example_state bucket_with_upload) = Some pages
      ∧ Part.PartNumber <$> concat (ListPartsOutput.Parts <$> pages)
        = [1%Z; 2%Z; 3%Z].
Proof.
  assert (H1 : get_multipart (bucket (example_state bucket_with_upload)) "u" "k"
               = Ok upload_with_parts) by (vm_compute; reflexivity).
  assert (H2 : parts_wf (S3Multipart.parts upload_with_parts))
    by (apply (bool_decide_unpack _); vm_compute; exact I).
  split; [done|].
  destruct (list_parts_pagination (C := reference)
              (example_state bucket_with_upload) "b" "k" "u" (Some 2%Z)
              upload_with_parts H1 H2) as (pages & Hpages & Hc & _).
  exists pages. split; [exact Hpages|]. rewrite Hc. vm_compute. reflexivity.
Defined.

Example list_parts_two_pages :
  fmap (M := option)
    (fmap (M := list)
       (λ page, (Part.PartNumber <$> ListPartsOutput.Parts page,
                 ListPartsOutput.IsTruncated page,
                 ListPartsOutput.NextPartNumberMarker page)))
    (list_parts_pages (C := reference) 4 "b" "k" "u" (Some 2%Z) None
       (example_state bucket_with_upload))
  = Some [([1%Z; 2%Z], true, 2%Z); ([3%Z], false, 3%Z)].
Proof. vm_compute. reflexivity. Qed.

Example abort_then_list_parts :
  (list_parts (C := reference) "b" "k" "u" None None
     (abort_multipart_upload (C := reference) "b" "k" "u"
        (example_state bucket_with_upload)).2).1
  = Raise NoSuchUpload.
Proof. vm_compute. reflexivity. Qed.

(** * What a write commits, and the ETag it returns *)

(** ** [strip] and a quoted string *)

Lemma rstrip_snoc (c : ascii) (u : string) :
  Py.rstrip c (u +:+ String c "") = Py.rstrip c u.
Proof.
  induction u as [|x u IH]; simpl.
  - by rewrite Ascii.eqb_refl.
  - by rewrite IH.
Qed.

Lemma lstrip_snoc (c : ascii) (s : string) :
  Py.lstrip c (s +:+ String c "")
  = match Py.lstrip c s with
    | "" => ""
    | r => r +:+ String c ""
    end.
Proof.
  induction s as [|x s IH]; simpl.
  - by rewrite Ascii.eqb_refl.
  - by destruct (Ascii.eqb x c).
Qed.

(** Quotes around a string do not change what is left of it once the
    quotes are stripped. *)
Lemma strip_quoted (c : ascii) (s : string) :
  Py.strip c (String c (s +:+ String c "")) = Py.strip c s.
Proof.
  unfold Py.strip. cbn [Py.lstrip]. rewrite Ascii.eqb_refl, lstrip_snoc.
  destruct (Py.lstrip c s) as [|x r] eqn:H; [done|].
  by rewrite rstrip_snoc.
Qed.

(** ** Getting a version after a write to the key store

    A version that is set can be got under its version id, and what
    [get_version] returns for any other version id of the key, and for
    any other key, is what it returned before: the write touches the
    version of this id and no other. *)

Lemma get_version_set_same versioned k v (s : KeyStore.t) :
  KeyStore.get_version (KeyStore.set versioned k v s) k (version_version_id v)
  = Some v.
Proof.
  unfold KeyStore.get_version, KeyStore.set.
  destruct versioned; rewrite lookup_insert_eq.
  - change (head (filter (λ x, version_version_id x = version_version_id v)
                    (v :: default [] (s !! k))) = Some v).
    by rewrite filter_cons_True.
  - change (head (filter (λ x, version_version_id x = version_version_id v) [v])
            = Some v).
    by rewrite filter_cons_True.
Qed.

Lemma get_version_set_other k v (s : KeyStore.t) v' :
  v' ≠ version_version_id v →
  KeyStore.get_version (KeyStore.set true k v s) k v'
  = KeyStore.get_version s k v'.
Proof.
  intros Hne. unfold KeyStore.get_version, KeyStore.set.
  rewrite lookup_insert_eq.
  change (head (filter (λ x, version_version_id x = v')
                  (v :: default [] (s !! k)))
          = s !! k ≫= λ vs, head (filter (λ x, version_version_id x = v') vs)).
  rewrite filter_cons_False by done. by destruct (s !! k).
Qed.

Section PutObjectCommits.
Context `{C : Collaborators}.

(** The checks on the written stream keep the object as written, its
    checksum value apart, and on success touch nothing. *)
Lemma put_object_verify_content_keeps bucket_name md5 o body st o' st' :
  put_object_verify_content bucket_name md5 o body st = (Ok o', st') →
  st' = st
  ∧ S3Object.key o' = S3Object.key o
  ∧ S3Object.version_id o' = S3Object.version_id o
  ∧ S3Object.etag o' = S3Object.etag o
  ∧ S3Object.size o' = S3Object.size o
  ∧ S3Object.last_modified o' = S3Object.last_modified o.
Proof.
  unfold put_object_verify_content, mbind, M_bind, mret, M_ret, modify, raise.
  repeat match goal with
         | |- context [if ?b then _ else _] => destruct b; simpl
         end;
    intros [= <- <-]; eauto 10.
Qed.

(** What a successful [put_object_write] has done. *)
Lemma put_object_write_commits request v fields st response st' :
  put_object_write request v fields st = (Ok response, st') →
  ∃ o,
    put_object_precondition (bucket st) request = Ok tt
    ∧ S3Object.key o = PutObjectRequest.Key request
    ∧ S3Object.version_id o = v
    ∧ S3Object.etag o = md5_hexdigest (ObjectFields.body fields)
    ∧ S3Object.size o = Z.of_nat (String.length (ObjectFields.body fields))
    ∧ S3Object.last_modified o = now st
    ∧ PutObjectOutput.ETag response = S3Object.quoted_etag o
    ∧ bucket st'
      = S3Bucket.with_objects
          (KeyStore.set (S3Bucket.versioned (bucket st))
             (PutObjectRequest.Key request) (Object o)
             (S3Bucket.objects (bucket st)))
          (bucket st)
    ∧ (∃ written,
         backend st'
         = (backend st
            ++ [BackendWrite (PutObjectRequest.Bucket request) written
                  (ObjectFields.body fields)])%list)
    ∧ notifications st' = (notifications st ++ [("PutObject", Object o)])%list
    ∧ entropy st' = entropy st.
Proof.
  unfold put_object_write. rewrite !bind_gets.
  destruct (put_object_precondition (bucket st) request) as [[]|e0] eqn:Hpre;
    [|by rewrite (bind_lift_raise _ e0)].
  rewrite (bind_lift_ok _ tt) by done. rewrite bind_modify.
  match goal with
  | |- context [put_object_verify_content ?b ?m ?o ?bd ≫= ?k] =>
      destruct (put_object_verify_content b m o bd
                  (call_backend
                     (BackendWrite (PutObjectRequest.Bucket request)
                        (S3Object.mk (PutObjectRequest.Key request) v "" 0 (now st)
                           (PutObjectRequest.StorageClass request)
                           (ObjectFields.checksum_algorithm fields)
                           (ObjectFields.checksum_value fields) None
                           (ObjectFields.sse_c_key_md5 fields)
                           (ObjectFields.kms_key_id fields) None)
                        (ObjectFields.body fields)) st))
        as [[o'|e1] st1] eqn:Hv
  end.
  - rewrite (bind_run_ok _ _ _ _ _ Hv). rewrite !bind_modify.
    apply put_object_verify_content_keeps in Hv
      as (-> & Hkey & Hvid & Hetag & Hsize & Hlm).
    intros [= <- <-]. exists o'. cbn in Hkey, Hvid, Hetag, Hsize, Hlm.
    split_and!; try done.
    + cbn [notify bucket]. by rewrite bucket_tags_replace.
    + eexists. cbn [notify backend].
      by destruct (ObjectFields.tagging fields) as [[|? ?]|].
    + cbn [notify notifications].
      by destruct (ObjectFields.tagging fields) as [[|? ?]|].
    + cbn [notify entropy]. by rewrite entropy_tags_replace.
  - by rewrite (bind_run_raise _ _ _ _ _ Hv).
Qed.


(** A successful PutObject has passed the validations, drawn its version
    id and run the write. *)
Lemma put_object_ok request st response st' :
  put_object request st = (Ok response, st') →
  ∃ v e fields,
    put_object_validate_conditions request = Ok tt
    ∧ put_object_fields_of (bucket st) request = Ok fields
    ∧ put_object_write request v fields (set_entropy e st) = (Ok response, st').
Proof.
  unfold put_object. rewrite bind_gets.
  destruct (put_object_validate_parameters (bucket st) request) as [[]|e] eqn:Hp;
    [|by rewrite (bind_lift_raise _ e)].
  rewrite (bind_lift_ok _ tt) by done.
  destruct (put_object_validate_conditions request) as [[]|e] eqn:Hc;
    [|by rewrite (bind_lift_raise _ e)].
  rewrite (bind_lift_ok _ tt) by done.
  destruct (generate_version_id_run (S3Bucket.versioning_status (bucket st)) st)
    as (v & e & Hg).
  rewrite (bind_run_ok _ _ _ _ _ Hg).
  destruct (put_object_fields_of (bucket st) request) as [fields|e'] eqn:Hf;
    [|by rewrite (bind_lift_raise _ e')].
  rewrite (bind_lift_ok _ fields) by done. intros Hw. by exists v, e, fields.
Qed.

(** What a successful PutObject has committed. The current version of
    the key is an object with the key of the request, the MD5 digest of
    the written body as etag, the length of the body as size and the time
    of the request as modification time; it is the version that the key
    has under the version id of the object, and [ETag] of the response
    is its etag in quotes. On a bucket whose versioning was never set the
    object is the only version of its key. On a bucket with a versioning
    status every version of the key with another version id is got as
    before. No other key, no multipart upload and not the versioning
    status is touched; the storage backend has been asked for this one
    write and nothing else, and one [PutObject] notification has been
    sent. *)
Theorem put_object_commits (st st' : State)
    (request : PutObjectRequest.t) (response : PutObjectOutput.t) :
  put_object request st = (Ok response, st') →
  let key := PutObjectRequest.Key request in
  ∃ o fields,
    put_object_fields_of (bucket st) request = Ok fields
    ∧ live_object (bucket st') key o
    ∧ KeyStore.get_version (S3Bucket.objects (bucket st')) key
        (S3Object.version_id o) = Some (Object o)
    ∧ S3Object.key o = key
    ∧ S3Object.etag o = md5_hexdigest (ObjectFields.body fields)
    ∧ S3Object.size o = Z.of_nat (String.length (ObjectFields.body fields))
    ∧ S3Object.last_modified o = now st
    ∧ PutObjectOutput.ETag response = S3Object.quoted_etag o
    ∧ (S3Bucket.versioning_status (bucket st) = None →
       S3Bucket.objects (bucket st') !! key = Some [Object o])
    ∧ (is_Some (S3Bucket.versioning_status (bucket st)) →
       ∀ v', v' ≠ S3Object.version_id o →
             KeyStore.get_version (S3Bucket.objects (bucket st')) key v'
             = KeyStore.get_version (S3Bucket.objects (bucket st)) key v')
    ∧ (∀ k, k ≠ key →
         S3Bucket.objects (bucket st') !! k = S3Bucket.objects (bucket st) !! k)
    ∧ S3Bucket.multiparts (bucket st') = S3Bucket.multiparts (bucket st)
    ∧ S3Bucket.versioning_status (bucket st')
      = S3Bucket.versioning_status (bucket st)
    ∧ (∃ written,
         backend st'
         = (backend st
            ++ [BackendWrite (PutObjectRequest.Bucket request) written
                  (ObjectFields.body fields)])%list)
    ∧ notifications st' = (notifications st ++ [("PutObject", Object o)])%list.
Proof.
  intros Hput key.
  apply put_object_ok in Hput as (v & e & fields & _ & Hf & Hw).
  apply put_object_write_commits in Hw
    as (o & _ & Hkey & _ & Hetag & Hsize & Hlm & HE & Hb & Hbk & Hn & _).
  cbn [set_entropy bucket now backend notifications] in *.
  exists o, fields. fold key in Hb. rewrite Hb.
  cbn [S3Bucket.with_objects S3Bucket.objects S3Bucket.multiparts
       S3Bucket.versioning_status].
  split_and!; try done.
  - unfold live_object. cbn. apply KeyStore_get_set.
  - apply (get_version_set_same _ key (Object o)).
  - intros Hs. unfold KeyStore.set, S3Bucket.versioned. rewrite Hs.
    rewrite bool_decide_eq_false_2 by (by intros [? ?]).
    by rewrite lookup_insert_eq.
  - intros Hs v' Hv'. unfold S3Bucket.versioned.
    rewrite bool_decide_eq_true_2 by done.
    by apply (get_version_set_other key (Object o)).
  - intros k Hk. unfold KeyStore.set.
    destruct (S3Bucket.versioned (bucket st)); by rewrite lookup_insert_ne.
Qed.

(** The ETag that PutObject returns names the object it has written.
    After a successful PutObject, a write to the same key with
    [If-None-Match: *] fails its precondition with [PreconditionFailed];
    a write with [If-Match] passes the precondition when the header,
    stripped of its quotes, is the etag of the object, and fails it with
    [PreconditionFailed] otherwise; and the [ETag] of the response, sent
    back as [If-Match], is accepted by the validation of the headers and
    passes the precondition - provided the digest itself neither starts
    nor ends with a quote. *)
Theorem put_object_etag_round_trip (st st' : State)
    (request : PutObjectRequest.t) (response : PutObjectOutput.t) :
  put_object request st = (Ok response, st') →
  ∃ o,
    live_object (bucket st') (PutObjectRequest.Key request) o
    ∧ PutObjectOutput.ETag response = S3Object.quoted_etag o
    ∧ ∀ next,
        PutObjectRequest.Key next = PutObjectRequest.Key request →
        (PutObjectRequest.IfNoneMatch next = Some "*" →
         Py.truthy (PutObjectRequest.IfMatch next) = false →
         put_object_precondition (bucket st') next
         = Raise (PreconditionFailed "If-None-Match"))
        ∧ (∀ etag,
             etag ≠ "" →
             PutObjectRequest.IfMatch next = Some etag →
             Py.truthy (PutObjectRequest.IfNoneMatch next) = false →
             put_object_precondition (bucket st') next
             = if String.eqb (S3Object.etag o) (Py.strip Py.dquote etag)
               then Ok tt else Raise (PreconditionFailed "If-Match"))
        ∧ (Py.strip Py.dquote (S3Object.etag o) = S3Object.etag o →
           PutObjectRequest.IfMatch next = Some (PutObjectOutput.ETag response) →
           Py.truthy (PutObjectRequest.IfNoneMatch next) = false →
           put_object_validate_conditions next = Ok tt
           ∧ put_object_precondition (bucket st') next = Ok tt).
Proof.
  intros Hput.
  apply put_object_ok in Hput as (v & e & fields & _ & Hf & Hw).
  apply put_object_write_commits in Hw
    as (o & _ & Hkey & _ & _ & _ & _ & HE & Hb & _).
  assert (Hlive : live_object (bucket st') (PutObjectRequest.Key request) o).
  { rewrite Hb. unfold live_object. cbn. apply KeyStore_get_set. }
  exists o. split; [done|]. split; [done|].
  intros next Hk.
  assert (Hetag : ∀ etag,
    etag ≠ "" →
    PutObjectRequest.IfMatch next = Some etag →
    Py.truthy (PutObjectRequest.IfNoneMatch next) = false →
    put_object_precondition (bucket st') next
    = if String.eqb (S3Object.etag o) (Py.strip Py.dquote etag)
      then Ok tt else Raise (PreconditionFailed "If-Match")).
  { intros etag Hne Him Hinm. unfold put_object_precondition.
    rewrite Hinm, Him, Hk. cbn [andb].
    assert (Py.truthy (Some etag) = true) as -> by by destruct etag.
    unfold verify_object_equality_precondition_write.
    unfold live_object in Hlive. rewrite Hlive. cbn [default].
    by destruct (String.eqb _ _). }
  split; [|split].
  - intros Hinm Him. unfold put_object_precondition. rewrite Hinm, Him, Hk.
    cbn [Py.truthy]. cbn.
    by rewrite (proj2 (object_exists_live _ _) (ex_intro _ o Hlive)).
  - exact Hetag.
  - intros Hq Him Hinm.
    assert (Hne : PutObjectOutput.ETag response ≠ "") by by rewrite HE.
    split.
    + apply (put_object_validate_conditions_etag next
               (PutObjectOutput.ETag response)); try done.
      rewrite HE. unfold S3Object.quoted_etag. by intros [=].
    + rewrite (Hetag _ Hne Him Hinm), HE. unfold S3Object.quoted_etag.
      by rewrite strip_quoted, Hq, String.eqb_refl.
Qed.

End PutObjectCommits.

(** A second write to a key of a bucket with versioning [Enabled]: the
    first version is still got under its version id. *)
Lemma put_object_commits_witness :
  ∃ response st',
    put_object (C := reference) (plain_put "k" "v2")
      (put_object (C := reference) (plain_put "k" "v1")
         (example_state (example_bucket (Some "Enabled") ∅ ∅))).2
    = (Ok response, st')
    ∧ (∃ o, live_object (bucket st') "k" o ∧ S3Object.size o = 2%Z)
    ∧ KeyStore.get_version (S3Bucket.objects (bucket st')) "k"
        (Some "AAAAAAAAAAAAAAAAAAAAAAAAAAAAAAAA")
      = KeyStore.get_version
          (S3Bucket.objects
             (bucket (put_object (C := reference) (plain_put "k" "v1")
                        (example_state (example_bucket (Some "Enabled") ∅ ∅))).2))
          "k" (Some "AAAAAAAAAAAAAAAAAAAAAAAAAAAAAAAA").
Proof.
  assert (H : put_object (C := reference) (plain_put "k" "v2")
                (put_object (C := reference) (plain_put "k" "v1")
                   (example_state (example_bucket (Some "Enabled") ∅ ∅))).2
              = (Ok (PutObjectOutput.mk
                       (S3Object.quoted_etag (example_object "k" "v2" 0))
                       (Some "BAAAAAAAAAAAAAAAAAAAAAAAAAAAAAAA") None None None),
                 (put_object (C := reference) (plain_put "k" "v2")
                    (put_object (C := reference) (plain_put "k" "v1")
                       (example_state
                          (example_bucket (Some "Enabled") ∅ ∅))).2).2))
    by (vm_compute; reflexivity).
  eexists _, _. split; [exact H|].
  destruct (put_object_commits (C := reference) _ _ _ _ H)
    as (o & fields & Hf & Hlive & _ & _ & _ & Hsize & _ & _ & _ & Hkeep & _).
  injection Hf as <-. split.
  - exists o. split; [exact Hlive|exact Hsize].
  - apply Hkeep; [by eexists|].
    injection Hlive as <-. discriminate.
Defined.

Definition if_match_put (key body etag : string) : PutObjectRequest.t :=
  PutObjectRequest.mk "b" key None None (Some etag) None None body ∅.

Lemma put_object_etag_round_trip_witness :
  put_object (C := reference) (plain_put "k" "v1")
    (example_state (example_bucket None ∅ ∅))
  = (Ok (PutObjectOutput.mk (S3Object.quoted_etag (example_object "k" "v1" 0))
           None None None None),
     (put_object (C := reference) (plain_put "k" "v1")
        (example_state (example_bucket None ∅ ∅))).2)
  ∧ put_object_precondition
      (bucket (put_object (C := reference) (plain_put "k" "v1")
                 (example_state (example_bucket None ∅ ∅))).2)
      (if_match_put "k" "v2" (S3Object.quoted_etag (example_object "k" "v1" 0)))
    = Ok tt.
Proof.
  assert (H : put_object (C := reference) (plain_put "k" "v1")
    (example_state (example_bucket None ∅ ∅))
  = (Ok (PutObjectOutput.mk (S3Object.quoted_etag (example_object "k" "v1" 0))
           None None None None),
     (put_object (C := reference) (plain_put "k" "v1")
        (example_state (example_bucket None ∅ ∅))).2))
    by (vm_compute; reflexivity).
  split; [exact H|].
  destruct (put_object_etag_round_trip (C := reference) _ _ _ _ H)
    as (o & Ho & _ & Hnext).
  destruct (Hnext (if_match_put "k" "v2"
                     (S3Object.quoted_etag (example_object "k" "v1" 0)))
              eq_refl) as (_ & _ & Hrt).
  injection Ho as <-.
  exact (proj2 (Hrt eq_refl eq_refl eq_refl)).
Defined.

(** A stale ETag does not pass. *)
Example put_object_stale_etag :
  (put_object (C := reference)
     (if_match_put "k" "v3" (S3Object.quoted_etag (example_object "k" "v1" 0)))
     (put_object (C := reference) (plain_put "k" "v2")
        (put_object (C := reference) (plain_put "k" "v1")
           (example_state (example_bucket None ∅ ∅))).2).2).1
  = Raise (PreconditionFailed "If-Match").
Proof. vm_compute. reflexivity. Qed.

(** * Deletes on a versioned bucket *)

(** ** The key store *)

Lemma store_wf_set versioned k v (s : KeyStore.t) :
  store_wf s → version_key v = k → store_wf (KeyStore.set versioned k v s).
Proof.
  intros Hwf Hk. unfold store_wf, KeyStore.set.
  destruct versioned; apply map_Forall_insert_2; try done.
  - constructor; [done|].
    destruct (s !! k) as [vs|] eqn:H; [exact (Hwf k vs H)|constructor].
  - by repeat constructor.
Qed.

Lemma store_wf_pop_version (s : KeyStore.t) k v :
  store_wf s → store_wf (KeyStore.pop_version s k v).
Proof.
  intros Hwf. unfold KeyStore.pop_version.
  destruct (filter _ _) as [|x vs] eqn:H; [by apply map_Forall_delete|].
  apply map_Forall_insert_2; [|done]. rewrite <- H.
  apply Forall_forall. intros y [_ Hy]%list_elem_of_filter.
  destruct (s !! k) as [l|] eqn:Hl; [|by apply elem_of_nil in Hy].
  specialize (Hwf k l Hl). cbn in Hwf. rewrite Forall_forall in Hwf. by apply Hwf.
Qed.

(** A key whose current version is not an object has no entry among the
    values of the store. *)
Lemma values_key_hidden (s : KeyStore.t) key :
  store_wf s → (∀ o, KeyStore.get s key ≠ Some (Object o)) →
  ∀ x, x ∈ KeyStore.values s → S3Object.key x ≠ key.
Proof.
  intros Hwf Hget x (k & vs & Hk & Hc)%values_current Heq.
  pose proof (current_object_elem _ _ Hc) as Hin.
  specialize (Hwf k vs Hk). cbn in Hwf. rewrite Forall_forall in Hwf.
  specialize (Hwf _ Hin). cbn in Hwf. subst k. rewrite Heq in Hk.
  apply (Hget x). unfold KeyStore.get. rewrite Hk. cbn.
  destruct vs as [|[o|m] vs]; cbn in Hc; [done| |done]. by injection Hc as ->.
Qed.

Lemma get_version_id (s : KeyStore.t) k v found :
  KeyStore.get_version s k v = Some found → version_version_id found = v.
Proof.
  unfold KeyStore.get_version. destruct (s !! k) as [vs|]; [|done]. cbn.
  intros H. apply head_Some_elem_of in H.
  by apply list_elem_of_filter in H as [? _].
Qed.

Lemma get_version_elem (s : KeyStore.t) k v found :
  KeyStore.get_version s k v = Some found → found ∈ default [] (s !! k).
Proof.
  unfold KeyStore.get_version. destruct (s !! k) as [vs|]; [|done]. cbn.
  intros H. apply head_Some_elem_of in H.
  by apply list_elem_of_filter in H as [_ ?].
Qed.

Lemma pop_version_lookup (s : KeyStore.t) k v :
  KeyStore.pop_version s k v !! k
  = match filter (λ x, version_version_id x ≠ v) (default [] (s !! k)) with
    | [] => None
    | vs => Some vs
    end.
Proof.
  unfold KeyStore.pop_version. destruct (filter _ _) as [|x vs].
  - by rewrite lookup_delete_eq.
  - by rewrite lookup_insert_eq.
Qed.

Lemma pop_version_lookup_ne (s : KeyStore.t) k v k' :
  k' ≠ k → KeyStore.pop_version s k v !! k' = s !! k'.
Proof.
  intros Hne. unfold KeyStore.pop_version. destruct (filter _ _) as [|x vs].
  - by rewrite lookup_delete_ne.
  - by rewrite lookup_insert_ne.
Qed.

Lemma filter_version_removed (v v' : option string) (l : list S3Version) :
  filter (λ x, version_version_id x = v')
    (filter (λ x, version_version_id x ≠ v) l)
  = if decide (v' = v) then [] else filter (λ x, version_version_id x = v') l.
Proof.
  induction l as [|x l IH]; [by destruct (decide _)|].
  rewrite (filter_cons (λ x, version_version_id x ≠ v)).
  rewrite (filter_cons (λ x, version_version_id x = v') x l).
  destruct (decide (version_version_id x ≠ v)) as [Hx|Hx].
  - rewrite filter_cons, IH.
    destruct (decide (version_version_id x = v')) as [Hx'|Hx'];
      destruct (decide (v' = v)); congruence.
  - rewrite IH. apply dec_stable in Hx.
    destruct (decide (version_version_id x = v')) as [Hx'|Hx'];
      destruct (decide (v' = v)); congruence.
Qed.

Lemma get_version_pop_version (s : KeyStore.t) k v v' :
  KeyStore.get_version (KeyStore.pop_version s k v) k v'
  = if decide (v' = v) then None else KeyStore.get_version s k v'.
Proof.
  unfold KeyStore.get_version. rewrite pop_version_lookup.
  set (l := default [] (s !! k)).
  assert (Hl : (match filter (λ x, version_version_id x ≠ v) l with
                | [] => None
                | vs => Some vs
                end) ≫= (λ vs, head (filter (λ x, version_version_id x = v') vs))
               = head (filter (λ x, version_version_id x = v')
                         (filter (λ x, version_version_id x ≠ v) l))).
  { by destruct (filter (λ x, version_version_id x ≠ v) l). }
  rewrite Hl, filter_version_removed. destruct (decide (v' = v)); [done|].
  unfold l. by destruct (s !! k).
Qed.

Lemma get_version_other_key (s : KeyStore.t) k v k' v' :
  k' ≠ k →
  KeyStore.get_version (KeyStore.pop_version s k v) k' v'
  = KeyStore.get_version s k' v'.
Proof.
  intros Hne. unfold KeyStore.get_version. by rewrite pop_version_lookup_ne.
Qed.

Lemma filter_all {A} (P : A → Prop) `{∀ x, Decision (P x)} (l : list A) :
  Forall P l → filter P l = l.
Proof.
  induction 1 as [|x l Hx Hl IH]; [done|].
  rewrite filter_cons_True by done. by rewrite IH.
Qed.

Section Listed.
Context `{C : Collaborators}.

Lemma list_objects_listed_from st bucket_name delimiter encoding_type marker
    max_keys prefix page :
  (list_objects bucket_name delimiter encoding_type marker max_keys prefix
     st).1 = Ok page →
  ∀ d, d ∈ ListObjectsOutput.Contents page →
       ∃ x, x ∈ KeyStore.values (S3Bucket.objects (bucket st))
            ∧ d = object_data (listed_key encoding_type x) x.
Proof.
  rewrite list_objects_inv. cbn zeta. intros [= <-].
  cbn [ListObjectsOutput.Contents].
  match goal with
  | |- context [list_objects_loop ?e ?mk ?p ?dl ?m ?lk ?l _] =>
      pose proof (list_objects_loop_invariant e p dl m
                    (listed_from_acc (S3Bucket.objects (bucket st)) e p dl)
                    (λ x, x ∈ KeyStore.values (S3Bucket.objects (bucket st)))
                    mk lk l Listing_init) as [Ho Hp]
  end.
  - by intros acc token [? ?].
  - intros acc x Hacc Hx _ Hpre _. by apply listed_from_acc_add.
  - apply sorted_values_elem.
  - apply listed_from_acc_init.
  - intros d Hd. destruct (Ho d Hd) as (x & Hx & Hdx & _). eauto.
Qed.

Lemma list_objects_v2_listed_from st bucket_name delimiter encoding_type
    max_keys prefix continuation_token start_after page :
  (list_objects_v2 bucket_name delimiter encoding_type max_keys prefix
     continuation_token start_after st).1 = Ok page →
  ∀ d, d ∈ ListObjectsV2Output.Contents page →
       ∃ x, x ∈ KeyStore.values (S3Bucket.objects (bucket st))
            ∧ d = object_data (listed_key encoding_type x) x.
Proof.
  intros (decoded & _ & ->)%list_objects_v2_inv.
  cbn [ListObjectsV2Output.Contents].
  match goal with
  | |- context [list_objects_v2_loop ?e ?ct ?dt ?sa ?p ?dl ?m ?l _] =>
      pose proof (list_objects_v2_loop_invariant e p dl m
                    (listed_from_acc (S3Bucket.objects (bucket st)) e p dl)
                    (λ x, x ∈ KeyStore.values (S3Bucket.objects (bucket st)))
                    ct dt sa l Listing_init) as [Ho Hp]
  end.
  - by intros acc token [? ?].
  - intros acc x Hacc Hx _ Hpre _ _. by apply listed_from_acc_add.
  - apply sorted_values_elem.
  - apply listed_from_acc_init.
  - intros d Hd. destruct (Ho d Hd) as (x & Hx & Hdx & _). eauto.
Qed.

(** A key without a current object is in no page of a listing. *)
Lemma hidden_key_not_listed st key :
  store_wf (S3Bucket.objects (bucket st)) →
  object_exists_for_precondition_write (bucket st) key = false →
  ∀ bucket_name delimiter max_keys prefix,
    (∀ marker page,
       (list_objects bucket_name delimiter None marker max_keys prefix st).1
       = Ok page →
       key ∉ ObjectData.Key <$> ListObjectsOutput.Contents page)
    ∧ (∀ continuation_token start_after page,
         (list_objects_v2 bucket_name delimiter None max_keys prefix
            continuation_token start_after st).1 = Ok page →
         key ∉ ObjectData.Key <$> ListObjectsV2Output.Contents page).
Proof.
  intros Hwf Hex bucket_name delimiter max_keys prefix.
  assert (Hhid : ∀ x, x ∈ KeyStore.values (S3Bucket.objects (bucket st)) →
                      S3Object.key x ≠ key).
  { apply values_key_hidden; [done|]. intros o Ho.
    unfold object_exists_for_precondition_write in Hex. by rewrite Ho in Hex. }
  split.
  - intros marker page Hpage (d & -> & Hd)%list_elem_of_fmap.
    destruct (list_objects_listed_from _ _ _ _ _ _ _ _ Hpage d Hd)
      as (x & Hx & ->).
    by apply (Hhid x Hx).
  - intros token start_after page Hpage (d & -> & Hd)%list_elem_of_fmap.
    destruct (list_objects_v2_listed_from _ _ _ _ _ _ _ _ _ Hpage d Hd)
      as (x & Hx & ->).
    by apply (Hhid x Hx).
Qed.

End Listed.

Section DeleteVersioned.
Context `{C : Collaborators}.

(** Lines 1208-1220: the delete without version id on a bucket with a
    versioning status. *)
Lemma delete_object_marker_run st bucket_name key version_id bypass status :
  S3Bucket.versioning_status (bucket st) = Some status →
  bypass = None ∨ S3Bucket.object_lock_enabled (bucket st) = true →
  Py.truthy version_id = false →
  ∃ v e,
    generate_version_id (Some status) st = (Ok v, set_entropy e st)
    ∧ delete_object bucket_name key version_id bypass st
      = (Ok (DeleteObjectOutput.mk v (Some true)),
         notify "DeleteObject:MarkerCreated"
           (DeleteMarker (S3DeleteMarker.mk key v (now st)))
           (objects_set key (DeleteMarker (S3DeleteMarker.mk key v (now st)))
              (set_entropy e st))).
Proof.
  intros Hs Hb Hv.
  destruct (generate_version_id_run (Some status) st) as (v & e & Hg).
  exists v, e. split; [done|].
  unfold delete_object. rewrite bind_gets.
  rewrite (bind_lift_ok _ tt).
  2:{ destruct Hb as [-> | ->]; [done|]. by rewrite andb_false_r. }
  rewrite Hs, Hv. cbn [negb].
  rewrite (bind_run_ok _ _ _ _ _ Hg). by rewrite bind_gets, !bind_modify.
Qed.

(** Lines 1222-1244: the delete of a named version. *)
Lemma delete_object_version_run st bucket_name key v bypass status :
  S3Bucket.versioning_status (bucket st) = Some status →
  bypass = None ∨ S3Bucket.object_lock_enabled (bucket st) = true →
  v ≠ "" →
  delete_object bucket_name key (Some v) bypass st
  = if negb (KeyStore.mem (S3Bucket.objects (bucket st)) key)
    then (Ok (DeleteObjectOutput.mk None None), st)
    else
      match KeyStore.get_version (S3Bucket.objects (bucket st)) key (Some v) with
      | None => (Raise (InvalidArgument "versionId"), st)
      | Some found =>
          if is_locked found bypass then (Raise AccessDenied, st)
          else
            let st1 :=
              set_bucket
                (S3Bucket.with_objects
                   (KeyStore.pop_version (S3Bucket.objects (bucket st)) key (Some v))
                   (bucket st)) st in
            (Ok (DeleteObjectOutput.mk (version_version_id found)
                   (if isinstance_S3DeleteMarker found then Some true else None)),
             notify "DeleteObject" found
               (if isinstance_S3DeleteMarker found then st1
                else set_tags
                       (delete (get_unique_key_id bucket_name key (Some v))
                          (tags st1))
                       (call_backend (BackendRemove bucket_name found) st1)))
      end.
Proof.
  intros Hs Hb Hv. unfold delete_object. rewrite bind_gets.
  rewrite (bind_lift_ok _ tt).
  2:{ destruct Hb as [-> | ->]; [done|]. by rewrite andb_false_r. }
  rewrite Hs.
  assert (Py.truthy (Some v) = true) as -> by by destruct v.
  cbn [negb].
  destruct (negb (KeyStore.mem _ _)); [done|].
  destruct (KeyStore.get_version _ _ _) as [found|]; [|done].
  destruct (is_locked found bypass) eqn:Hl.
  - by rewrite (bind_lift_raise _ AccessDenied).
  - rewrite (bind_lift_ok _ tt) by done. rewrite bind_modify.
    by destruct (isinstance_S3DeleteMarker found).
Qed.

(** DeleteObject without version id on a bucket that has a versioning
    status puts a delete marker into the key store and answers with the
    version id of the marker and [DeleteMarker]. The marker carries the
    key and the time of the request; its version id is a token drawn for
    this delete when the status is [Enabled] and ["null"] when it is
    [Suspended], and under this id the key has the marker. Every version
    of the key with another version id is got as before, no other key is
    touched, nothing is removed from the storage backend, the tags and
    the uploads stay. When no version of the key carried the version id
    of the marker, all versions of the key stay, below the marker, which
    is the current version: the key has no live object, the writes
    conditional on its absence pass their precondition, and, the store
    keeping every version under its own key, no page of ListObjects or
    ListObjectsV2 (without [encoding_type]) has the key in [Contents]. *)
Theorem delete_object_creates_marker (st : State) (bucket_name key : string)
    (version_id : option string) (bypass : option bool) (status : string) :
  S3Bucket.versioning_status (bucket st) = Some status →
  bypass = None ∨ S3Bucket.object_lock_enabled (bucket st) = true →
  Py.truthy version_id = false →
  ∃ marker st',
    delete_object bucket_name key version_id bypass st
    = (Ok (DeleteObjectOutput.mk (S3DeleteMarker.version_id marker) (Some true)),
       st')
    ∧ S3DeleteMarker.key marker = key
    ∧ S3DeleteMarker.last_modified marker = now st
    ∧ (status = "Enabled" →
       ∃ token, generate_safe_version_id (entropy st) = (token, entropy st')
                ∧ S3DeleteMarker.version_id marker = Some token)
    ∧ (status = "Suspended" → S3DeleteMarker.version_id marker = Some "null")
    ∧ KeyStore.get_version (S3Bucket.objects (bucket st')) key
        (S3DeleteMarker.version_id marker) = Some (DeleteMarker marker)
    ∧ (∀ v', v' ≠ S3DeleteMarker.version_id marker →
             KeyStore.get_version (S3Bucket.objects (bucket st')) key v'
             = KeyStore.get_version (S3Bucket.objects (bucket st)) key v')
    ∧ (∀ k, k ≠ key →
         S3Bucket.objects (bucket st') !! k = S3Bucket.objects (bucket st) !! k)
    ∧ S3Bucket.multiparts (bucket st') = S3Bucket.multiparts (bucket st)
    ∧ backend st' = backend st
    ∧ tags st' = tags st
    ∧ (Forall (λ x, version_version_id x ≠ S3DeleteMarker.version_id marker)
         (default [] (S3Bucket.objects (bucket st) !! key)) →
       S3Bucket.objects (bucket st') !! key
       = Some (DeleteMarker marker
               :: default [] (S3Bucket.objects (bucket st) !! key))
       ∧ object_exists_for_precondition_write (bucket st') key = false
       ∧ (∀ request,
            PutObjectRequest.Key request = key →
            Py.truthy (PutObjectRequest.IfMatch request) = false →
            put_object_precondition (bucket st') request = Ok tt)
       ∧ (store_wf (S3Bucket.objects (bucket st)) →
          store_wf (S3Bucket.objects (bucket st'))
          ∧ ∀ name delimiter max_keys prefix,
              (∀ marker page,
                 (list_objects name delimiter None marker max_keys prefix st').1
                 = Ok page →
                 key ∉ ObjectData.Key <$> ListObjectsOutput.Contents page)
              ∧ (∀ continuation_token start_after page,
                   (list_objects_v2 name delimiter None max_keys prefix
                      continuation_token start_after st').1 = Ok page →
                   key ∉ ObjectData.Key <$> ListObjectsV2Output.Contents page))).
Proof.
  intros Hs Hb Hv.
  destruct (delete_object_marker_run st bucket_name key version_id bypass status
              Hs Hb Hv) as (v & e & Hg & Hrun).
  set (m := S3DeleteMarker.mk key v (now st)) in *.
  set (st' := notify "DeleteObject:MarkerCreated" (DeleteMarker m)
                (objects_set key (DeleteMarker m) (set_entropy e st))) in *.
  assert (Hver : S3Bucket.versioned (bucket st) = true).
  { unfold S3Bucket.versioned. rewrite Hs. by apply bool_decide_eq_true. }
  assert (Hset : S3Bucket.objects (bucket st')
                 = KeyStore.set true key (DeleteMarker m)
                     (S3Bucket.objects (bucket st))).
  { unfold st'. cbn. by rewrite Hver. }
  assert (Hobj : S3Bucket.objects (bucket st')
                 = <[key := DeleteMarker m
                            :: default [] (S3Bucket.objects (bucket st) !! key)]>
                     (S3Bucket.objects (bucket st))) by exact Hset.
  exists m, st'. split; [exact Hrun|]. split_and!; try done.
  - intros ->. rewrite generate_version_id_enabled in Hg.
    injection Hg as <- He.
    exists (generate_safe_version_id (entropy st)).1. split; [|done].
    change (entropy st') with e.
    rewrite <- He. by destruct (generate_safe_version_id (entropy st)).
  - intros ->. rewrite generate_version_id_suspended in Hg. by injection Hg as <- _.
  - rewrite Hset. apply (get_version_set_same true key (DeleteMarker m)).
  - intros v' Hv'. rewrite Hset.
    by apply (get_version_set_other key (DeleteMarker m)).
  - intros k Hk. by rewrite Hobj, lookup_insert_ne.
  - intros _.
    assert (Hex : object_exists_for_precondition_write (bucket st') key = false).
    { unfold object_exists_for_precondition_write, KeyStore.get.
      by rewrite Hobj, lookup_insert_eq. }
    split_and!; try done.
    + by rewrite Hobj, lookup_insert_eq.
    + intros request Hk Him. unfold put_object_precondition.
      rewrite Hk, Hex, Him. by rewrite andb_false_r.
    + intros Hwf.
      assert (Hwf' : store_wf (S3Bucket.objects (bucket st'))).
      { rewrite Hset. by apply (store_wf_set true key (DeleteMarker m)). }
      split; [exact Hwf'|]. intros name delimiter max_keys prefix.
      by apply hidden_key_not_listed.
Qed.


(** DeleteObject with a version id on a bucket that has a versioning
    status. When the bucket does not hold the key the answer is empty
    and nothing changes. When it holds the key but not this version it
    raises [InvalidArgument] for [versionId], and when the version is
    locked [AccessDenied], both leaving the state as it was. Otherwise
    it removes this version and no other: the version can no longer be
    got, every other version of the key and every other key stay as they
    were, in their order, so that the newest version left is the current
    one. The answer carries the version id, and [DeleteMarker] when the
    version was a delete marker; the bytes are removed from the storage
    backend when it was an object, and only then. *)
Theorem delete_object_removes_version (st : State) (bucket_name key v : string)
    (bypass : option bool) (status : string) :
  S3Bucket.versioning_status (bucket st) = Some status →
  bypass = None ∨ S3Bucket.object_lock_enabled (bucket st) = true →
  v ≠ "" →
  let objects := S3Bucket.objects (bucket st) in
  let r := delete_object bucket_name key (Some v) bypass st in
  (objects !! key = None → r = (Ok (DeleteObjectOutput.mk None None), st))
  ∧ (is_Some (objects !! key) →
     KeyStore.get_version objects key (Some v) = None →
     r = (Raise (InvalidArgument "versionId"), st))
  ∧ ∀ found,
      KeyStore.get_version objects key (Some v) = Some found →
      (is_locked found bypass = true → r = (Raise AccessDenied, st))
      ∧ (is_locked found bypass = false →
         let objects' := S3Bucket.objects (bucket r.2) in
         r.1 = Ok (DeleteObjectOutput.mk (Some v)
                     (if isinstance_S3DeleteMarker found then Some true else None))
         ∧ (∀ v', KeyStore.get_version objects' key v'
                  = if decide (v' = Some v) then None
                    else KeyStore.get_version objects key v')
         ∧ KeyStore.get objects' key
           = head (filter (λ x, version_version_id x ≠ Some v)
                     (default [] (objects !! key)))
         ∧ (∀ k, k ≠ key → objects' !! k = objects !! k)
         ∧ S3Bucket.multiparts (bucket r.2) = S3Bucket.multiparts (bucket st)
         ∧ backend r.2
           = (if isinstance_S3DeleteMarker found then backend st
              else backend st ++ [BackendRemove bucket_name found])%list
         ∧ notifications r.2 = (notifications st ++ [("DeleteObject", found)])%list
         ∧ (store_wf objects → store_wf objects')).
Proof.
  intros Hs Hb Hv objects r. subst r.
  rewrite (delete_object_version_run st bucket_name key v bypass status Hs Hb Hv).
  fold objects. unfold KeyStore.mem.
  split; [|split].
  - intros Hk. rewrite Hk.
    rewrite bool_decide_eq_false_2; [done|]. by intros [? ?].
  - intros Hk Hg. rewrite bool_decide_eq_true_2 by done. cbn [negb].
    by rewrite Hg.
  - intros found Hg.
    assert (Hk : is_Some (objects !! key)).
    { unfold KeyStore.get_version in Hg. by destruct (objects !! key). }
    rewrite bool_decide_eq_true_2 by done. cbn [negb]. rewrite Hg.
    split; [by intros ->|]. intros ->. cbn zeta.
    assert (Hobj : ∀ st0,
      S3Bucket.objects
        (bucket
           (notify "DeleteObject" found
              (if isinstance_S3DeleteMarker found then st0
               else set_tags
                      (delete (get_unique_key_id bucket_name key (Some v))
                         (tags st0))
                      (call_backend (BackendRemove bucket_name found) st0))))
      = S3Bucket.objects (bucket st0)).
    { intros st0. by destruct (isinstance_S3DeleteMarker found). }
    cbn [fst snd]. rewrite Hobj. cbn [set_bucket bucket S3Bucket.with_objects
                                       S3Bucket.objects].
    split_and!.
    + by rewrite (get_version_id _ _ _ _ Hg).
    + intros v'. apply get_version_pop_version.
    + unfold KeyStore.get. rewrite pop_version_lookup. fold objects.
      by destruct (filter _ _).
    + intros k Hne. by apply pop_version_lookup_ne.
    + by destruct (isinstance_S3DeleteMarker found).
    + by destruct (isinstance_S3DeleteMarker found).
    + by destruct (isinstance_S3DeleteMarker found).
    + intros Hwf. by apply store_wf_pop_version.
Qed.

(** Deleting the delete marker undoes the delete. When DeleteObject
    without version id has answered with the version id of its delete
    marker, and no version of the key had this id before, DeleteObject
    with this version id takes the marker away again: the bucket is as it
    was before the first delete, nothing was removed from the storage
    backend and the tags are as they were. The marker is one that is
    not locked. *)
Theorem delete_marker_undone (st st1 : State) (bucket_name key : string)
    (bypass : option bool) (status marker_id : string) :
  S3Bucket.versioning_status (bucket st) = Some status →
  bypass = None ∨ S3Bucket.object_lock_enabled (bucket st) = true →
  delete_object bucket_name key None bypass st
  = (Ok (DeleteObjectOutput.mk (Some marker_id) (Some true)), st1) →
  marker_id ≠ "" →
  S3Bucket.objects (bucket st) !! key ≠ Some [] →
  Forall (λ x, version_version_id x ≠ Some marker_id)
    (default [] (S3Bucket.objects (bucket st) !! key)) →
  is_locked (DeleteMarker (S3DeleteMarker.mk key (Some marker_id) (now st)))
    bypass = false →
  ∃ st2,
    delete_object bucket_name key (Some marker_id) bypass st1
    = (Ok (DeleteObjectOutput.mk (Some marker_id) (Some true)), st2)
    ∧ bucket st2 = bucket st
    ∧ backend st2 = backend st
    ∧ tags st2 = tags st.
Proof.
  intros Hs Hb Hdel Hne Hnonempty Hfresh Hlock.
  destruct (delete_object_marker_run st bucket_name key None bypass status
              Hs Hb eq_refl) as (v & e & _ & Hrun).
  rewrite Hrun in Hdel. injection Hdel as -> <-.
  set (m := S3DeleteMarker.mk key (Some marker_id) (now st)) in *.
  set (st1 := notify "DeleteObject:MarkerCreated" (DeleteMarker m)
                (objects_set key (DeleteMarker m) (set_entropy e st))).
  assert (Hver : S3Bucket.versioned (bucket st) = true).
  { unfold S3Bucket.versioned. rewrite Hs. by apply bool_decide_eq_true. }
  set (old := default [] (S3Bucket.objects (bucket st) !! key)) in *.
  assert (Hb1 : bucket st1
                = S3Bucket.with_objects
                    (<[key := DeleteMarker m :: old]> (S3Bucket.objects (bucket st)))
                    (bucket st)).
  { unfold st1. cbn. by rewrite Hver. }
  assert (Hbk1 : backend st1 = backend st) by done.
  assert (Htg1 : tags st1 = tags st) by done.
  clearbody st1.
  assert (Hs1 : S3Bucket.versioning_status (bucket st1) = Some status)
    by by rewrite Hb1.
  assert (Hlock1 : bypass = None ∨ S3Bucket.object_lock_enabled (bucket st1) = true)
    by by rewrite Hb1.
  rewrite (delete_object_version_run st1 bucket_name key marker_id bypass status
             Hs1 Hlock1 Hne).
  assert (Hobj1 : S3Bucket.objects (bucket st1)
                  = <[key := DeleteMarker m :: old]> (S3Bucket.objects (bucket st)))
    by by rewrite Hb1.
  unfold KeyStore.mem. rewrite Hobj1, lookup_insert_eq.
  rewrite bool_decide_eq_true_2 by done. cbn [negb].
  assert (Hget : KeyStore.get_version
                   (<[key := DeleteMarker m :: old]> (S3Bucket.objects (bucket st)))
                   key (Some marker_id) = Some (DeleteMarker m)).
  { unfold KeyStore.get_version. rewrite lookup_insert_eq.
    change (head (filter (λ x, version_version_id x = Some marker_id)
                    (DeleteMarker m :: old)) = Some (DeleteMarker m)).
    by rewrite filter_cons_True. }
  rewrite Hget, Hlock. cbn zeta. cbn [isinstance_S3DeleteMarker version_version_id].
  eexists. split; [reflexivity|].
  assert (Hpop : KeyStore.pop_version
                   (<[key := DeleteMarker m :: old]> (S3Bucket.objects (bucket st)))
                   key (Some marker_id)
                 = S3Bucket.objects (bucket st)).
  { unfold KeyStore.pop_version. rewrite lookup_insert_eq.
    change (default [] (Some (DeleteMarker m :: old))) with (DeleteMarker m :: old).
    rewrite filter_cons_False by (cbn; tauto).
    rewrite (filter_all _ old Hfresh). unfold old in *.
    destruct (S3Bucket.objects (bucket st) !! key) as [[|x l]|] eqn:Hk;
      simpl; [done| |].
    - by rewrite insert_insert_eq, insert_id.
    - by rewrite delete_insert_eq, delete_id. }
  rewrite Hpop. cbn [notify bucket backend tags set_bucket].
  split; [|done]. rewrite Hb1. by destruct (bucket st).
Qed.

End DeleteVersioned.

(** The key [k] written twice to a bucket with versioning [Enabled]. *)
Definition written_twice : State (C := reference) :=
  (put_object (C := reference) (plain_put "k" "v2")
     (put_object (C := reference) (plain_put "k" "v1")
        (example_state (example_bucket (Some "Enabled") ∅ ∅))).2).2.

Definition first_version : S3Object.t :=
  S3Object.mk "k" (Some "AAAAAAAAAAAAAAAAAAAAAAAAAAAAAAAA") "v1" 2 100
    None None None None None None None.

Definition second_version : S3Object.t :=
  S3Object.mk "k" (Some "BAAAAAAAAAAAAAAAAAAAAAAAAAAAAAAA") "v2" 2 100
    None None None None None None None.

Example written_twice_versions :
  S3Bucket.objects (bucket written_twice) !! "k"
  = Some [Object second_version; Object first_version].
Proof. vm_compute. reflexivity. Qed.

Lemma delete_object_creates_marker_witness :
  (S3Bucket.versioning_status (bucket written_twice) = Some "Enabled"
   ∧ (@None bool = None
      ∨ S3Bucket.object_lock_enabled (bucket written_twice) = true)
   ∧ Py.truthy None = false)
  ∧ ∃ marker st',
      delete_object (C := reference) "b" "k" None None written_twice
      = (Ok (DeleteObjectOutput.mk (S3DeleteMarker.version_id marker) (Some true)),
         st')
      ∧ S3Bucket.objects (bucket st') !! "k"
        = Some (DeleteMarker marker
                :: default [] (S3Bucket.objects (bucket written_twice) !! "k"))
      ∧ object_exists_for_precondition_write (bucket st') "k" = false
      ∧ backend st' = backend written_twice.
Proof.
  assert (H1 : S3Bucket.versioning_status (bucket written_twice) = Some "Enabled")
    by (vm_compute; reflexivity).
  assert (H2 : @None bool = None
               ∨ S3Bucket.object_lock_enabled (bucket written_twice) = true)
    by (by left).
  split; [done|].
  destruct (delete_object_creates_marker (C := reference) written_twice "b" "k"
              None None "Enabled" H1 H2 eq_refl)
    as (marker & st' & Hrun & _ & _ & Hen & _ & _ & _ & _ & _ & Hbk & _ & Hfresh).
  exists marker, st'. split; [exact Hrun|].
  destruct (Hen eq_refl) as (token & Htok & Hid).
  assert (Ht : token = "CAAAAAAAAAAAAAAAAAAAAAAAAAAAAAAA").
  { apply (f_equal fst) in Htok. cbn [fst] in Htok. rewrite <- Htok.
    vm_compute. reflexivity. }
  destruct Hfresh as (Hk & Hex & _).
  { rewrite Hid, Ht, written_twice_versions.
    repeat constructor; discriminate. }
  by split_and!.
Defined.

Lemma delete_object_removes_version_witness :
  (S3Bucket.versioning_status (bucket written_twice) = Some "Enabled"
   ∧ (@None bool = None
      ∨ S3Bucket.object_lock_enabled (bucket written_twice) = true)
   ∧ "AAAAAAAAAAAAAAAAAAAAAAAAAAAAAAAA" ≠ "")
  ∧ (delete_object (C := reference) "b" "k"
       (Some "AAAAAAAAAAAAAAAAAAAAAAAAAAAAAAAA") None written_twice).1
    = Ok (DeleteObjectOutput.mk (Some "AAAAAAAAAAAAAAAAAAAAAAAAAAAAAAAA") None)
  ∧ KeyStore.get
      (S3Bucket.objects
         (bucket (delete_object (C := reference) "b" "k"
                    (Some "AAAAAAAAAAAAAAAAAAAAAAAAAAAAAAAA") None written_twice).2))
      "k"
    = Some (Object second_version).
Proof.
  assert (H1 : S3Bucket.versioning_status (bucket written_twice) = Some "Enabled")
    by (vm_compute; reflexivity).
  assert (H2 : @None bool = None
               ∨ S3Bucket.object_lock_enabled (bucket written_twice) = true)
    by (by left).
  assert (H3 : "AAAAAAAAAAAAAAAAAAAAAAAAAAAAAAAA" ≠ "") by discriminate.
  split; [done|].
  destruct (delete_object_removes_version (C := reference) written_twice "b" "k"
              "AAAAAAAAAAAAAAAAAAAAAAAAAAAAAAAA" None "Enabled" H1 H2 H3)
    as (_ & _ & Hfound).
  destruct (Hfound (Object first_version)) as [_ Hrem];
    [vm_compute; reflexivity|].
  destruct (Hrem eq_refl) as (Hr & _ & Hcur & _).
  split; [exact Hr|]. rewrite Hcur. vm_compute. reflexivity.
Defined.

Lemma delete_marker_undone_witness :
  (S3Bucket.versioning_status (bucket written_twice) = Some "Enabled"
   ∧ (@None bool = None
      ∨ S3Bucket.object_lock_enabled (bucket written_twice) = true)
   ∧ "CAAAAAAAAAAAAAAAAAAAAAAAAAAAAAAA" ≠ ""
   ∧ S3Bucket.objects (bucket written_twice) !! "k" ≠ Some [])
  ∧ ∃ st2,
      delete_object (C := reference) "b" "k"
        (Some "CAAAAAAAAAAAAAAAAAAAAAAAAAAAAAAA") None
        (delete_object (C := reference) "b" "k" None None written_twice).2
      = (Ok (DeleteObjectOutput.mk (Some "CAAAAAAAAAAAAAAAAAAAAAAAAAAAAAAA")
               (Some true)), st2)
      ∧ bucket st2 = bucket written_twice.
Proof.
  assert (H1 : S3Bucket.versioning_status (bucket written_twice) = Some "Enabled")
    by (vm_compute; reflexivity).
  assert (H2 : @None bool = None
               ∨ S3Bucket.object_lock_enabled (bucket written_twice) = true)
    by (by left).
  assert (H3 : "CAAAAAAAAAAAAAAAAAAAAAAAAAAAAAAA" ≠ "") by discriminate.
  assert (H4 : S3Bucket.objects (bucket written_twice) !! "k" ≠ Some [])
    by (rewrite written_twice_versions; discriminate).
  split; [done|].
  assert (H5 : delete_object (C := reference) "b" "k" None None written_twice
               = (Ok (DeleteObjectOutput.mk
                        (Some "CAAAAAAAAAAAAAAAAAAAAAAAAAAAAAAA") (Some true)),
                  (delete_object (C := reference) "b" "k" None None
                     written_twice).2))
    by (vm_compute; reflexivity).
  assert (H6 : Forall (λ x, version_version_id x
                            ≠ Some "CAAAAAAAAAAAAAAAAAAAAAAAAAAAAAAA")
                 (default [] (S3Bucket.objects (bucket written_twice) !! "k"))).
  { rewrite written_twice_versions. repeat constructor; discriminate. }
  destruct (delete_marker_undone (C := reference) written_twice _ "b" "k" None
              "Enabled" "CAAAAAAAAAAAAAAAAAAAAAAAAAAAAAAA" H1 H2 H5 H3 H4 H6
              eq_refl) as (st2 & Hrun & Hb & _).
  by exists st2.
Defined.

(** * The versioning status of a bucket *)

Lemma values_from_key_store (s : KeyStore.t) :
  KeyStore.values (from_key_store s)
  = S3Object.with_version_id (Some "null") <$> KeyStore.values s.
Proof.
  unfold KeyStore.values, from_key_store. rewrite map_to_list_fmap.
  induction (map_to_list s) as [|[k vs] l IH]; [done|].
  cbn [fmap list_fmap omap list_omap prod_map fst snd] in *.
  change (list_fmap _ _ (prod_map id (fmap migrated)) l)
    with (prod_map id (fmap (M := list) migrated) <$> l).
  destruct vs as [|[o|m] vs]; cbn; by rewrite ?IH.
Qed.

Lemma store_wf_from_key_store (s : KeyStore.t) :
  store_wf s → store_wf (from_key_store s).
Proof.
  intros Hwf k vs. unfold from_key_store. rewrite lookup_fmap.
  destruct (s !! k) as [l|] eqn:Hl; [|done]. intros [= <-]. cbn.
  specialize (Hwf k l Hl). cbn in Hwf. rewrite Forall_fmap.
  eapply Forall_impl; [exact Hwf|]. by intros [o|m].
Qed.

Section Versioning.
Context `{C : Collaborators}.

(** The four ways [put_bucket_versioning] ends. *)
Lemma put_bucket_versioning_run bucket_name Status st :
  put_bucket_versioning bucket_name Status st
  = if negb (Py.truthy Status)
    then (Raise (OtherError "IllegalVersioningConfigurationException"), st)
    else if negb (bool_decide (default "" Status ∈ ["Enabled"; "Suspended"]))
    then (Raise (OtherError "MalformedXML"), st)
    else if S3Bucket.object_lock_enabled (bucket st)
            && String.eqb (default "" Status) "Suspended"
    then (Raise (OtherError "InvalidBucketState"), st)
    else (Ok tt, set_versioning_status (default "" Status) st).
Proof.
  unfold put_bucket_versioning. rewrite bind_gets.
  destruct (negb (Py.truthy Status)); [done|].
  destruct (negb (bool_decide _)); [done|].
  by destruct (_ && _).
Qed.

(** The requests for a versioning status, one after the other, each on
    the state that the one before has left, whether it was accepted or
    not. *)
Definition put_bucket_versioning_all (bucket_name : string)
    (requests : list (option string)) (st : State) : State :=
  foldl (λ st Status, (put_bucket_versioning bucket_name Status st).2) st requests.

(** PutBucketVersioning accepts [Enabled], and [Suspended] on a bucket
    without object lock, and nothing else; a request that it refuses
    changes nothing. An accepted request sets the status, which
    GetBucketVersioning then returns, and touches neither the multipart
    uploads, the tags nor the storage backend; the objects stay as they
    are when the bucket had a status before. Whatever requests are sent
    and in whatever order, a bucket that has a status keeps having one -
    versioning is never switched off again, it can only be suspended -
    and a bucket with object lock whose versioning is [Enabled] stays
    [Enabled]. *)
Theorem put_bucket_versioning_transitions (st : State) (bucket_name : string)
    (Status : option string) :
  let r := put_bucket_versioning bucket_name Status st in
  (r.1 = Ok tt ↔
   Status = Some "Enabled"
   ∨ (Status = Some "Suspended" ∧ S3Bucket.object_lock_enabled (bucket st) = false))
  ∧ (r.1 ≠ Ok tt → r.2 = st)
  ∧ (r.1 = Ok tt →
     S3Bucket.versioning_status (bucket r.2) = Status
     ∧ get_bucket_versioning bucket_name r.2 = (Ok Status, r.2)
     ∧ (Py.truthy (S3Bucket.versioning_status (bucket st)) = true →
        S3Bucket.objects (bucket r.2) = S3Bucket.objects (bucket st))
     ∧ S3Bucket.multiparts (bucket r.2) = S3Bucket.multiparts (bucket st)
     ∧ S3Bucket.object_lock_enabled (bucket r.2)
       = S3Bucket.object_lock_enabled (bucket st)
     ∧ tags r.2 = tags st ∧ backend r.2 = backend st)
  ∧ ∀ requests,
      let st' := put_bucket_versioning_all bucket_name requests st in
      (Py.truthy (S3Bucket.versioning_status (bucket st)) = true →
       Py.truthy (S3Bucket.versioning_status (bucket st')) = true)
      ∧ (S3Bucket.object_lock_enabled (bucket st) = true →
         S3Bucket.versioning_status (bucket st) = Some "Enabled" →
         S3Bucket.versioning_status (bucket st') = Some "Enabled").
Proof.
  assert (Hcases : ∀ s Status0,
    let r := put_bucket_versioning bucket_name Status0 s in
    (r = (Ok tt, set_versioning_status (default "" Status0) s)
     ∧ (Status0 = Some "Enabled"
        ∨ (Status0 = Some "Suspended"
           ∧ S3Bucket.object_lock_enabled (bucket s) = false)))
    ∨ ((∃ e, r = (Raise e, s))
       ∧ ¬ (Status0 = Some "Enabled"
            ∨ (Status0 = Some "Suspended"
               ∧ S3Bucket.object_lock_enabled (bucket s) = false)))).
  { intros s Status0. cbn zeta. rewrite put_bucket_versioning_run.
    destruct Status0 as [status|].
    2:{ right. cbn. split; [by eexists|]. by intros [?|[? _]]. }
    change (default "" (Some status)) with status.
    destruct (String.eqb_spec status "Enabled") as [->|Hen].
    { left. cbn. split; [|by left].
      by rewrite andb_false_r. }
    destruct (String.eqb_spec status "Suspended") as [->|Hsu].
    { cbn. rewrite andb_true_r.
      destruct (S3Bucket.object_lock_enabled (bucket s)) eqn:Hl.
      - right. split; [by eexists|]. by intros [?|[_ ?]].
      - left. split; [done|]. by right. }
    right. split.
    - destruct (negb (Py.truthy (Some status))); [by eexists|].
      destruct (negb (bool_decide _)) eqn:Hd; [by eexists|]. exfalso.
      apply negb_false_iff, bool_decide_eq_true in Hd.
      apply elem_of_cons in Hd as [->|Hd]; [done|].
      apply elem_of_cons in Hd as [->|Hd]; [done|]. by apply elem_of_nil in Hd.
    - intros [[= ->]|[[= ->] _]]; done. }
  intros r. subst r. split_and!.
  - destruct (Hcases st Status) as [[-> Hs]|[[e ->] Hn]]; cbn; split; try done.
  - destruct (Hcases st Status) as [[-> Hs]|[[e ->] Hn]]; cbn; done.
  - intros Hok.
    destruct (Hcases st Status) as [[Hr Hs]|[[e Hr] Hn]]; rewrite Hr in Hok |- *;
      [|done].
    cbn [fst snd].
    assert (Hst : S3Bucket.versioning_status
                    (bucket (set_versioning_status (default "" Status) st))
                  = Status).
    { by destruct Hs as [->|[-> _]]. }
    split_and!; try done.
    + unfold get_bucket_versioning. rewrite bind_gets, Hst.
      by destruct Hs as [->|[-> _]].
    + intros Ht. cbn. by rewrite Ht.
  - intros requests. cbn zeta. revert st.
    induction requests as [|Status0 requests IH]; intros st; [done|].
    cbn [put_bucket_versioning_all foldl].
    fold (put_bucket_versioning_all bucket_name requests
            (put_bucket_versioning bucket_name Status0 st).2).
    destruct (IH (put_bucket_versioning bucket_name Status0 st).2) as [IH1 IH2].
    destruct (Hcases st Status0) as [[Hr Hs]|[[e Hr] Hn]];
      rewrite Hr in IH1, IH2 |- *; cbn [snd] in *; [|done].
    split.
    + intros _. apply IH1. by destruct Hs as [->|[-> _]].
    + intros Hl He. apply IH2; [done|].
      destruct Hs as [->|[-> Hl']]; [done|congruence].
Qed.

(** The first status that a bucket gets migrates its objects: each
    object is kept under its key with the version id ["null"], under
    which it can then be addressed, and is otherwise unchanged; the
    current objects of the bucket, which the listings enumerate, are the
    same but for this version id, and a store that keeps every version
    under its own key still does. *)
Theorem put_bucket_versioning_migrates (st : State) (bucket_name : string)
    (Status : option string) :
  S3Bucket.versioning_status (bucket st) = None →
  (put_bucket_versioning bucket_name Status st).1 = Ok tt →
  let st' := (put_bucket_versioning bucket_name Status st).2 in
  (∀ key o,
     live_object (bucket st) key o →
     live_object (bucket st') key (S3Object.with_version_id (Some "null") o)
     ∧ KeyStore.get_version (S3Bucket.objects (bucket st')) key (Some "null")
       = Some (Object (S3Object.with_version_id (Some "null") o)))
  ∧ (∀ key, S3Bucket.objects (bucket st) !! key = None →
            S3Bucket.objects (bucket st') !! key = None)
  ∧ KeyStore.values (S3Bucket.objects (bucket st'))
    = S3Object.with_version_id (Some "null")
        <$> KeyStore.values (S3Bucket.objects (bucket st))
  ∧ (store_wf (S3Bucket.objects (bucket st)) →
     store_wf (S3Bucket.objects (bucket st'))).
Proof.
  intros Hnone Hok st'. subst st'. revert Hok.
  rewrite put_bucket_versioning_run.
  destruct (negb (Py.truthy Status)); [done|].
  destruct (negb (bool_decide _)); [done|].
  destruct (_ && _); [done|]. intros _. cbn [snd].
  assert (Hobj : S3Bucket.objects
                   (bucket (set_versioning_status (default "" Status) st))
                 = from_key_store (S3Bucket.objects (bucket st))).
  { cbn. by rewrite Hnone. }
  split_and!.
  - intros key o Hlive. unfold live_object, KeyStore.get, KeyStore.get_version in *.
    rewrite Hobj. unfold from_key_store. rewrite lookup_fmap.
    destruct (S3Bucket.objects (bucket st) !! key) as [[|x vs]|]; try done.
    cbn in Hlive. injection Hlive as ->. split; [done|].
    change (head (filter (λ x, version_version_id x = Some "null")
                    (migrated (Object o) :: (migrated <$> vs)))
            = Some (Object (S3Object.with_version_id (Some "null") o))).
    by rewrite filter_cons_True.
  - intros key Hk. rewrite Hobj. unfold from_key_store.
    by rewrite lookup_fmap, Hk.
  - rewrite Hobj. apply values_from_key_store.
  - intros Hwf. rewrite Hobj. by apply store_wf_from_key_store.
Qed.

End Versioning.

Lemma put_bucket_versioning_migrates_witness :
  (S3Bucket.versioning_status (bucket (example_state bucket_with_k)) = None
   ∧ (put_bucket_versioning (C := reference) "b" (Some "Enabled")
        (example_state bucket_with_k)).1 = Ok tt)
  ∧ KeyStore.get_version
      (S3Bucket.objects
         (bucket (put_bucket_versioning (C := reference) "b" (Some "Enabled")
                    (example_state bucket_with_k)).2))
      "k" (Some "null")
    = Some (Object (S3Object.with_version_id (Some "null")
                      (example_object "k" "abc" 50))).
Proof.
  split; [split; reflexivity|].
  destruct (put_bucket_versioning_migrates (C := reference)
              (example_state bucket_with_k) "b" (Some "Enabled")
              eq_refl eq_refl) as (Hlive & _).
  exact (proj2 (Hlive "k" (example_object "k" "abc" 50) eq_refl)).
Defined.

(** Versioning is suspended, not switched off; on a bucket with object
    lock it cannot be suspended. *)
Example versioning_suspended :
  S3Bucket.versioning_status
    (bucket (put_bucket_versioning_all (C := reference) "b"
               [Some "Enabled"; None; Some "Disabled"; Some "Suspended"]
               (example_state bucket_with_k)))
  = Some "Suspended".
Proof. reflexivity. Qed.

Example versioning_with_object_lock :
  (put_bucket_versioning (C := reference) "b" (Some "Suspended")
     (example_state
        (S3Bucket.mk "b" (Some "Enabled") true "us-east-1" ∅ ∅))).1
  = Raise (OtherError "InvalidBucketState").
Proof. reflexivity. Qed.

(** * The life of a multipart upload *)

(** The uploads of a bucket are kept under their own ids, as
    [create_multipart_upload] stores them. *)
Definition multiparts_wf (m : gmap string S3Multipart.t) : Prop :=
  map_Forall (λ id s3_multipart, S3Multipart.id s3_multipart = id) m.

Global Instance multiparts_wf_dec (m : gmap string S3Multipart.t) :
  Decision (multiparts_wf m).
Proof. unfold multiparts_wf. apply _. Defined.

Section MultipartLife.
Context `{C : Collaborators}.

Lemma bind_assoc {A B D} (m : M A) (f : A → M B) (g : B → M D) st :
  ((m ≫= f) ≫= g) st = (m ≫= (λ a, f a ≫= g)) st.
Proof.
  unfold mbind, M_bind. destruct (m st) as [[a|e] st1]; [|done].
  by destruct (f a st1) as [[b|e] st2].
Qed.

(** The object that [complete_multipart_upload] commits for a completed
    upload (lines 2635-2642). *)
Definition completed_object (completed : S3Multipart.t) : S3Object.t :=
  if negb (Py.truthy (S3Multipart.checksum_algorithm completed))
     && Py.truthy (S3Object.checksum_algorithm (S3Multipart.object completed))
  then
    S3Object.with_checksum_type (Some FULL_OBJECT)
      (S3Object.with_checksum_value
         (multipart_stored_checksum completed)
         (S3Multipart.object completed))
  else S3Multipart.object completed.




Lemma get_multipart_lookup b upload_id key m :
  get_multipart b upload_id key = Ok m →
  S3Bucket.multiparts b !! upload_id = Some m
  ∧ S3Object.key (S3Multipart.object m) = key.
Proof.
  unfold get_multipart. destruct (S3Bucket.multiparts b !! upload_id) as [m'|];
    [|done].
  destruct (String.eqb_spec (S3Object.key (S3Multipart.object m')) key);
    cbn [negb]; [|done].
  by intros [= ->].
Qed.





(** A successful CreateMultipartUpload has passed the validations, drawn
    an upload id and registered the upload. *)
Lemma create_multipart_upload_ok request st response st' :
  create_multipart_upload request st = (Ok response, st') →
  ∃ s3_multipart,
    generate_upload_id (entropy st)
    = (CreateMultipartUploadOutput.UploadId response, entropy st')
    ∧ S3Multipart.id s3_multipart = CreateMultipartUploadOutput.UploadId response
    ∧ S3Object.key (S3Multipart.object s3_multipart)
      = CreateMultipartUploadRequest.Key request
    ∧ S3Multipart.parts s3_multipart = ∅
    ∧ S3Multipart.initiated s3_multipart = now st
    ∧ S3Multipart.precondition s3_multipart
      = object_exists_for_precondition_write (bucket st)
          (CreateMultipartUploadRequest.Key request)
    ∧ st' = multiparts_set s3_multipart (set_entropy (entropy st') st).
Proof.
  unfold create_multipart_upload. rewrite bind_gets.
  destruct (create_multipart_upload_validate _ _) as [tagging|e0] eqn:Hv;
    [|by rewrite (bind_lift_raise _ e0)].
  rewrite (bind_lift_ok _ tagging) by done.
  destruct (create_multipart_upload_checksum _ _) as [checksum_type|e0] eqn:Hc;
    [|by rewrite (bind_lift_raise _ e0)].
  rewrite (bind_lift_ok _ checksum_type) by done.
  destruct (create_multipart_upload_fields _ _) as [kms_key_id|e0] eqn:Hf;
    [|by rewrite (bind_lift_raise _ e0)].
  rewrite (bind_lift_ok _ kms_key_id) by done.
  rewrite !bind_gets.
  destruct (generate_upload_id (entropy st)) as [upload_id e'] eqn:Hg.
  rewrite !bind_modify. intros [= <- <-].
  eexists. cbn [CreateMultipartUploadOutput.UploadId].
  split_and!; [done|..]; [| | | | |reflexivity]; done.
Qed.

Lemma sorted_items_empty : sorted_items ∅ = [].
Proof. unfold sorted_items. by rewrite map_to_list_empty. Qed.

(** A successful CreateMultipartUpload registers an upload of the key
    under the upload id that it returns, the id that
    [generate_upload_id] draws: an upload without parts, initiated at the
    time of the request, that remembers whether the key had a live object
    then. The objects, the tags and the storage backend are untouched,
    and so is every other upload. ListParts of the new upload returns an
    empty page that is not truncated. When the id is fresh, aborting the
    upload leaves the bucket as it was before the upload was created. *)
Theorem create_multipart_upload_registers (st st' : State)
    (request : CreateMultipartUploadRequest.t)
    (response : CreateMultipartUploadOutput.t) :
  create_multipart_upload request st = (Ok response, st') →
  let bucket_name := CreateMultipartUploadRequest.Bucket request in
  let key := CreateMultipartUploadRequest.Key request in
  let upload_id := CreateMultipartUploadOutput.UploadId response in
  ∃ s3_multipart,
    get_multipart (bucket st') upload_id key = Ok s3_multipart
    ∧ generate_upload_id (entropy st) = (upload_id, entropy st')
    ∧ S3Multipart.parts s3_multipart = ∅
    ∧ S3Multipart.initiated s3_multipart = now st
    ∧ S3Multipart.precondition s3_multipart
      = object_exists_for_precondition_write (bucket st) key
    ∧ S3Bucket.multiparts (bucket st')
      = <[upload_id := s3_multipart]> (S3Bucket.multiparts (bucket st))
    ∧ S3Bucket.objects (bucket st') = S3Bucket.objects (bucket st)
    ∧ tags st' = tags st
    ∧ backend st' = backend st
    ∧ (multiparts_wf (S3Bucket.multiparts (bucket st)) →
       multiparts_wf (S3Bucket.multiparts (bucket st')))
    ∧ (∀ max_parts part_number_marker,
         ∃ page,
           list_parts bucket_name key upload_id max_parts part_number_marker st'
           = (Ok page, st')
           ∧ ListPartsOutput.Parts page = []
           ∧ ListPartsOutput.IsTruncated page = false)
    ∧ (S3Bucket.multiparts (bucket st) !! upload_id = None →
       ∃ st'',
         abort_multipart_upload bucket_name key upload_id st' = (Ok tt, st'')
         ∧ bucket st'' = bucket st).
Proof.
  intros Hrun bucket_name key upload_id.
  apply create_multipart_upload_ok in Hrun
    as (m & Hg & Hid & Hkey & Hparts & Hinit & Hpre & Hst).
  fold upload_id in Hg, Hid. fold key in Hkey, Hpre.
  assert (Hmp : S3Bucket.multiparts (bucket st')
                = <[upload_id := m]> (S3Bucket.multiparts (bucket st))).
  { rewrite Hst. cbn. by rewrite Hid. }
  assert (Hget : get_multipart (bucket st') upload_id key = Ok m).
  { unfold get_multipart. rewrite Hmp, lookup_insert_eq, Hkey.
    by rewrite String.eqb_refl. }
  exists m. split_and!; try done.
  - by rewrite Hst.
  - by rewrite Hst.
  - by rewrite Hst.
  - intros Hwf. rewrite Hmp. by apply map_Forall_insert_2.
  - intros max_parts marker.
    destruct (list_parts_found st' bucket_name key upload_id max_parts marker m
                Hget) as [_ (page & Hpage & Hp & Ht & _)].
    { rewrite Hparts. apply map_Forall_empty. }
    exists page. split; [done|]. rewrite Hp, Ht, Hparts, sorted_items_empty.
    unfold parts_after. rewrite filter_nil, take_nil. split; [done|].
    by apply bool_decide_eq_false_2, Nat.lt_irrefl.
  - intros Hfresh. unfold abort_multipart_upload. rewrite bind_gets.
    rewrite (bind_lift_ok _ m) by done. rewrite !bind_modify.
    eexists. split; [reflexivity|].
    cbn [call_backend bucket multiparts_pop set_bucket]. rewrite Hmp.
    rewrite delete_insert_eq, delete_id by done.
    rewrite Hst. cbn. by destruct (bucket st).
Qed.

End MultipartLife.

Definition create_upload (key : string) : CreateMultipartUploadRequest.t :=
  CreateMultipartUploadRequest.mk "b" key None None None None None None ∅.

Lemma create_multipart_upload_registers_witness :
  create_multipart_upload (C := reference) (create_upload "k")
    (example_state bucket_with_k)
  = (Ok (CreateMultipartUploadOutput.mk "b" "k" "AAAAAAAAAAAAAAAA" None None),
     (create_multipart_upload (C := reference) (create_upload "k")
        (example_state bucket_with_k)).2)
  ∧ ∃ s3_multipart,
      S3Bucket.multiparts
        (bucket (create_multipart_upload (C := reference) (create_upload "k")
                   (example_state bucket_with_k)).2)
      !! "AAAAAAAAAAAAAAAA" = Some s3_multipart
      ∧ S3Bucket.multiparts
          (bucket (create_multipart_upload (C := reference) (create_upload "k")
                     (example_state bucket_with_k)).2)
        !! "u" = Some (upload_of "k" 10 true)
      ∧ S3Multipart.precondition s3_multipart = true.
Proof.
  assert (H : create_multipart_upload (C := reference) (create_upload "k")
                (example_state bucket_with_k)
              = (Ok (CreateMultipartUploadOutput.mk "b" "k" "AAAAAAAAAAAAAAAA"
                       None None),
                 (create_multipart_upload (C := reference) (create_upload "k")
                    (example_state bucket_with_k)).2))
    by (vm_compute; reflexivity).
  split; [exact H|].
  destruct (create_multipart_upload_registers (C := reference) _ _ _ _ H)
    as (m & _ & _ & _ & _ & Hpre & Hmp & _).
  exists m. rewrite Hmp. split; [|split].
  - apply lookup_insert_eq.
  - by rewrite lookup_insert_ne.
  - by rewrite Hpre.
Defined.




(** * An invariant of the provider *)

(** The operations on a bucket. *)
Inductive Operation : Type :=
  | PutObject (request : PutObjectRequest.t)
  | DeleteObject (bucket_name key : string) (version_id : option string)
      (bypass_governance_retention : option bool)
  | CreateMultipartUpload (request : CreateMultipartUploadRequest.t)
  | CompleteMultipartUpload (request : CompleteMultipartUploadRequest.t)
  | AbortMultipartUpload (bucket_name key upload_id : string)
  | PutBucketVersioning (bucket_name : string) (Status : option string)
  | ListObjects (bucket_name : string) (delimiter encoding_type marker : option string)
      (max_keys : option Z) (prefix : option string)
  | ListObjectsV2 (bucket_name : string) (delimiter encoding_type : option string)
      (max_keys : option Z) (prefix continuation_token start_after : option string)
  | ListParts (bucket_name key upload_id : string)
      (max_parts part_number_marker : option Z).

Section Invariant.
Context `{C : Collaborators}.

(** The state that an operation leaves, whether it returns or raises. *)
Definition run_operation (op : Operation) (st : State) : State :=
  match op with
  | PutObject request => (put_object request st).2
  | DeleteObject bucket_name key version_id bypass =>
      (delete_object bucket_name key version_id bypass st).2
  | CreateMultipartUpload request => (create_multipart_upload request st).2
  | CompleteMultipartUpload request => (complete_multipart_upload request st).2
  | AbortMultipartUpload bucket_name key upload_id =>
      (abort_multipart_upload bucket_name key upload_id st).2
  | PutBucketVersioning bucket_name Status =>
      (put_bucket_versioning bucket_name Status st).2
  | ListObjects bucket_name delimiter encoding_type marker max_keys prefix =>
      (list_objects bucket_name delimiter encoding_type marker max_keys prefix st).2
  | ListObjectsV2 bucket_name delimiter encoding_type max_keys prefix
      continuation_token start_after =>
      (list_objects_v2 bucket_name delimiter encoding_type max_keys prefix
         continuation_token start_after st).2
  | ListParts bucket_name key upload_id max_parts part_number_marker =>
      (list_parts bucket_name key upload_id max_parts part_number_marker st).2
  end.

Definition run_operations (ops : list Operation) (st : State) : State :=
  foldl (λ st op, run_operation op st) st ops.

(** The bucket keeps every version under its own key and every upload
    under its own id. *)
Definition state_wf (st : State) : Prop :=
  store_wf (S3Bucket.objects (bucket st))
  ∧ multiparts_wf (S3Bucket.multiparts (bucket st)).

Lemma state_wf_bucket st st' :
  bucket st' = bucket st → state_wf st → state_wf st'.
Proof. unfold state_wf. by intros ->. Qed.

Lemma state_wf_set_entropy e st : state_wf st → state_wf (set_entropy e st).
Proof. done. Qed.

Lemma state_wf_call_backend c st : state_wf st → state_wf (call_backend c st).
Proof. done. Qed.

Lemma state_wf_notify operation v st : state_wf st → state_wf (notify operation v st).
Proof. done. Qed.

Lemma state_wf_set_tags t st : state_wf st → state_wf (set_tags t st).
Proof. done. Qed.

Lemma state_wf_tags_replace key_id tagging st :
  state_wf st → state_wf (tags_replace key_id tagging st).
Proof. apply state_wf_bucket, bucket_tags_replace. Qed.

Lemma state_wf_objects_set key v st :
  version_key v = key → state_wf st → state_wf (objects_set key v st).
Proof.
  intros Hk [Hs Hm]. split; [|done]. cbn. by apply store_wf_set.
Qed.

Lemma state_wf_multiparts_set m st :
  state_wf st → state_wf (multiparts_set m st).
Proof.
  intros [Hs Hm]. split; [done|]. cbn. by apply map_Forall_insert_2.
Qed.

Lemma state_wf_multiparts_pop id st :
  state_wf st → state_wf (multiparts_pop id st).
Proof.
  intros [Hs Hm]. split; [done|]. cbn. by apply map_Forall_delete.
Qed.

Lemma state_wf_objects st (objects : KeyStore.t) :
  store_wf objects → state_wf st →
  state_wf (set_bucket (S3Bucket.with_objects objects (bucket st)) st).
Proof. intros Ho [Hs Hm]. by split. Qed.

Create HintDb state_wf discriminated.

#[local] Hint Resolve state_wf_set_entropy state_wf_call_backend state_wf_notify
  state_wf_set_tags state_wf_tags_replace state_wf_objects_set
  state_wf_multiparts_set state_wf_multiparts_pop state_wf_objects
  store_wf_pop_version store_wf_from_key_store : state_wf.

(** The checks on the written stream never touch the bucket. *)
Lemma put_object_verify_content_bucket bucket_name md5 o body st :
  bucket (put_object_verify_content bucket_name md5 o body st).2 = bucket st.
Proof.
  unfold put_object_verify_content, mbind, M_bind, mret, M_ret, modify, raise.
  repeat match goal with
         | |- context [if ?b then _ else _] => destruct b; simpl
         end; done.
Qed.

Lemma generate_version_id_state_wf status st :
  state_wf st → state_wf (generate_version_id status st).2.
Proof.
  intros H. destruct (generate_version_id_run status st) as (v & e & ->).
  by apply state_wf_set_entropy.
Qed.

Lemma put_object_state_wf request st :
  state_wf st → state_wf (put_object request st).2.
Proof.
  intros Hwf. unfold put_object. rewrite bind_gets.
  destruct (put_object_validate_parameters (bucket st) request) as [[]|e0] eqn:Hp;
    [|by rewrite (bind_lift_raise _ e0)].
  rewrite (bind_lift_ok _ tt) by done.
  destruct (put_object_validate_conditions request) as [[]|e0] eqn:Hc;
    [|by rewrite (bind_lift_raise _ e0)].
  rewrite (bind_lift_ok _ tt) by done.
  destruct (generate_version_id_run (S3Bucket.versioning_status (bucket st)) st)
    as (v & e & Hg).
  rewrite (bind_run_ok _ _ _ _ _ Hg).
  destruct (put_object_fields_of (bucket st) request) as [fields|e0] eqn:Hf;
    [|by rewrite (bind_lift_raise _ e0)].
  rewrite (bind_lift_ok _ fields) by done.
  unfold put_object_write. rewrite !bind_gets.
  destruct (put_object_precondition _ request) as [[]|e0] eqn:Hpre;
    [|by rewrite (bind_lift_raise _ e0)].
  rewrite (bind_lift_ok _ tt) by done. rewrite bind_modify.
  match goal with
  | |- context [(put_object_verify_content ?b ?m ?o ?bd ≫= ?k) ?s] =>
      pose proof (put_object_verify_content_bucket b m o bd s) as Hb;
      destruct (put_object_verify_content b m o bd s) as [[o'|e1] st1] eqn:Hv
  end.
  - rewrite (bind_run_ok _ _ _ _ _ Hv). rewrite !bind_modify.
    apply put_object_verify_content_keeps in Hv as (-> & Hkey & _).
    cbn [snd mret M_ret]. auto 10 with state_wf.
  - rewrite (bind_run_raise _ _ _ _ _ Hv). cbn [snd] in *.
    by apply (state_wf_bucket st).
Qed.

Lemma delete_object_state_wf bucket_name key version_id bypass st :
  state_wf st → state_wf (delete_object bucket_name key version_id bypass st).2.
Proof.
  intros Hwf. unfold delete_object. rewrite bind_gets.
  destruct (raise_if (bool_decide (is_Some bypass) && _) _) as [[]|e0] eqn:Hb;
    [|by rewrite (bind_lift_raise _ e0)].
  rewrite (bind_lift_ok _ tt) by done.
  destruct (S3Bucket.versioning_status (bucket st)) as [status|] eqn:Hs.
  - destruct (negb (Py.truthy version_id)).
    + destruct (generate_version_id_run (Some status) st) as (v & e & Hg).
      rewrite (bind_run_ok _ _ _ _ _ Hg). rewrite bind_gets, !bind_modify.
      cbn [snd mret M_ret]. auto 10 with state_wf.
    + destruct (negb (KeyStore.mem _ _)); [done|].
      destruct (KeyStore.get_version _ _ _) as [found|]; [|done].
      destruct (raise_if _ AccessDenied) as [[]|e0] eqn:Hl;
        [|by rewrite (bind_lift_raise _ e0)].
      rewrite (bind_lift_ok _ tt) by done. rewrite bind_modify.
      destruct (isinstance_S3DeleteMarker found);
        repeat (rewrite bind_assoc || rewrite bind_ret || rewrite bind_modify);
        cbn beta; cbn [snd mret M_ret]; pose proof Hwf as [Ho Hm];
        auto 10 with state_wf.
  - destruct (raise_if (Py.truthy version_id && _) _) as [[]|e0] eqn:Hv;
      [|by rewrite (bind_lift_raise _ e0)].
    rewrite (bind_lift_ok _ tt) by done.
    unfold KeyStore.pop. rewrite bind_modify.
    assert (Hdel : state_wf
                     (set_bucket
                        (S3Bucket.with_objects
                           (delete key (S3Bucket.objects (bucket st))) (bucket st))
                        st)).
    { destruct Hwf as [Ho Hm]. apply state_wf_objects; [|done].
      by apply map_Forall_delete. }
    destruct (KeyStore.get _ _) as [found|];
      repeat (rewrite bind_assoc || rewrite bind_ret || rewrite bind_modify);
      cbn beta; cbn [snd mret M_ret]; auto 10 with state_wf.
Qed.

Lemma create_multipart_upload_state_wf request st :
  state_wf st → state_wf (create_multipart_upload request st).2.
Proof.
  intros Hwf.
  destruct (create_multipart_upload request st) as [[response|e] st'] eqn:Hrun.
  - apply create_multipart_upload_ok in Hrun as (m & _ & _ & _ & _ & _ & _ & ->).
    cbn [snd]. auto with state_wf.
  - revert Hrun. unfold create_multipart_upload. rewrite bind_gets.
    destruct (create_multipart_upload_validate _ _) as [tagging|e0] eqn:Hv;
      [|rewrite (bind_lift_raise _ e0) by done; by intros [= _ <-]].
    rewrite (bind_lift_ok _ tagging) by done.
    destruct (create_multipart_upload_checksum _ _) as [checksum_type|e0] eqn:Hc;
      [|rewrite (bind_lift_raise _ e0) by done; by intros [= _ <-]].
    rewrite (bind_lift_ok _ checksum_type) by done.
    destruct (create_multipart_upload_fields _ _) as [kms_key_id|e0] eqn:Hf;
      [|rewrite (bind_lift_raise _ e0) by done; by intros [= _ <-]].
    rewrite (bind_lift_ok _ kms_key_id) by done.
    rewrite !bind_gets.
    destruct (generate_upload_id (entropy st)) as [upload_id e'] eqn:Hg.
    by rewrite !bind_modify.
Qed.

Lemma abort_multipart_upload_state_wf bucket_name key upload_id st :
  state_wf st → state_wf (abort_multipart_upload bucket_name key upload_id st).2.
Proof.
  intros Hwf. unfold abort_multipart_upload. rewrite bind_gets.
  destruct (get_multipart _ _ _) as [m|e0] eqn:Hm;
    [|by rewrite (bind_lift_raise _ e0)].
  rewrite (bind_lift_ok _ m) by done. rewrite !bind_modify.
  cbn [snd mret M_ret]. auto with state_wf.
Qed.

Lemma put_bucket_versioning_state_wf bucket_name Status st :
  state_wf st → state_wf (put_bucket_versioning bucket_name Status st).2.
Proof.
  intros [Ho Hm]. rewrite put_bucket_versioning_run.
  destruct (negb (Py.truthy Status)); [done|].
  destruct (negb (bool_decide _)); [done|].
  destruct (_ && _); [done|]. cbn [snd]. split; [|done]. cbn.
  destruct (negb _); [by apply store_wf_from_key_store|done].
Qed.

Lemma completed_object_key completed :
  S3Object.key (completed_object completed)
  = S3Object.key (S3Multipart.object completed).
Proof. unfold completed_object. by destruct (_ && _). Qed.

Lemma complete_multipart_upload_state_wf request st :
  (∀ m parts size checksum m',
     multipart_complete m parts size checksum = Ok m' →
     S3Object.key (S3Multipart.object m') = S3Object.key (S3Multipart.object m)) →
  state_wf st → state_wf (complete_multipart_upload request st).2.
Proof.
  intros Hkeep Hwf. unfold complete_multipart_upload. rewrite bind_gets.
  destruct (get_multipart _ _ _) as [m|e0] eqn:Hm;
    [|by rewrite (bind_lift_raise _ e0)].
  rewrite (bind_lift_ok _ m) by done.
  destruct (complete_multipart_upload_precondition _ _ _ _ _) as [[]|e0] eqn:Hpre;
    [|by rewrite (bind_lift_raise _ e0)].
  rewrite (bind_lift_ok _ tt) by done.
  destruct (complete_multipart_upload_parts _) as [numbers|e0] eqn:Hparts;
    [|by rewrite (bind_lift_raise _ e0)].
  rewrite (bind_lift_ok _ numbers) by done.
  destruct (raise_if _ _) as [[]|e0] eqn:Hct;
    [|by rewrite (bind_lift_raise _ e0)].
  rewrite (bind_lift_ok _ tt) by done.
  destruct (generate_version_id_run (S3Bucket.versioning_status (bucket st)) st)
    as (v & e & Hg).
  rewrite (bind_run_ok _ _ _ _ _ Hg). rewrite bind_modify.
  apply get_multipart_lookup in Hm as [_ Hkey].
  set (mv := S3Multipart.with_object
               (S3Object.with_version_id v (S3Multipart.object m)) m).
  assert (Hcommit : ∀ completed size checksum,
    multipart_complete mv (CompleteMultipartUploadRequest.Parts request)
      size checksum = Ok completed →
    version_key (Object (completed_object completed))
    = CompleteMultipartUploadRequest.Key request).
  { intros completed size checksum Hc. cbn.
    by rewrite completed_object_key, (Hkeep _ _ _ _ _ Hc). }
  destruct (multipart_has_mpu_size mv).
  - match goal with
    | |- context [multipart_complete mv ?p ?s ?c] =>
        destruct (multipart_complete mv p s c) as [completed|e0] eqn:Hc
    end.
    2:{ rewrite bind_assoc. rewrite (bind_lift_raise _ e0) by done.
        cbn [snd]. auto with state_wf. }
    rewrite bind_assoc. rewrite (bind_lift_ok _ completed) by done.
    rewrite bind_assoc, bind_modify.
    match goal with
    | |- context [if ?b then raise BadDigest else _] => destruct b eqn:Hbad
    end.
    + change (state_wf
                (multiparts_set completed (multiparts_set mv (set_entropy e st)))).
      auto with state_wf.
    + rewrite bind_ret, !bind_modify. cbn [snd mret M_ret].
      specialize (Hcommit _ _ _ Hc). auto 12 with state_wf.
  - destruct (multipart_complete mv _ None None) as [completed|e0] eqn:Hc.
    2:{ rewrite bind_assoc. rewrite (bind_lift_raise _ e0) by done.
        cbn [snd]. auto with state_wf. }
    rewrite bind_assoc. rewrite (bind_lift_ok _ completed) by done.
    rewrite bind_assoc, bind_modify.
    rewrite bind_ret, !bind_modify. cbn [snd mret M_ret].
    specialize (Hcommit _ _ _ Hc). auto 12 with state_wf.
Qed.

(** The bucket stays well formed. When the completion of an upload
    leaves the key of its object alone, every operation, whether it
    returns or raises, and so every sequence of operations, leads from a
    bucket that keeps each version under its own key and each upload
    under its own id to a bucket that does. This is what the theorems on
    the listings assume of the key store; the empty bucket has it. *)
Theorem state_wf_invariant (ops : list Operation) (st : State) :
  (∀ m parts size checksum m',
     multipart_complete m parts size checksum = Ok m' →
     S3Object.key (S3Multipart.object m') = S3Object.key (S3Multipart.object m)) →
  state_wf st →
  state_wf (run_operations ops st).
Proof.
  intros Hkeep. revert st. induction ops as [|op ops IH]; intros st Hwf; [done|].
  cbn [run_operations foldl]. apply IH. clear IH.
  destruct op; cbn [run_operation].
  - by apply put_object_state_wf.
  - by apply delete_object_state_wf.
  - by apply create_multipart_upload_state_wf.
  - by apply complete_multipart_upload_state_wf.
  - by apply abort_multipart_upload_state_wf.
  - by apply put_bucket_versioning_state_wf.
  - by rewrite list_objects_inv.
  - eapply state_wf_bucket; [|exact Hwf].
    unfold list_objects_v2. rewrite bind_gets.
    destruct (raise_if _ _) as [[]|e0] eqn:Hr;
      [|by rewrite (bind_lift_raise _ e0)].
    rewrite (bind_lift_ok _ tt) by done.
    match goal with
    | |- context [(lift ?r ≫= _) _] => destruct r as [decoded|e0] eqn:Hd
    end; [|by rewrite (bind_lift_raise _ e0)].
    by rewrite (bind_lift_ok _ decoded).
  - unfold list_parts. rewrite bind_gets.
    destruct (get_multipart _ _ _) as [m|e0] eqn:Hm;
      [|by rewrite (bind_lift_raise _ e0)].
    rewrite (bind_lift_ok _ m) by done. cbn zeta.
    by destruct (list_parts_loop _ _ _ _ _ _ _).
Qed.

End Invariant.

Lemma state_wf_invariant_witness :
  ((∀ m parts size checksum m',
      multipart_complete (Collaborators := reference) m parts size checksum = Ok m' →
      S3Object.key (S3Multipart.object m') = S3Object.key (S3Multipart.object m))
   ∧ state_wf (example_state (example_bucket None ∅ ∅)))
  ∧ state_wf
      (run_operations (C := reference)
         [PutObject (plain_put "k" "v1");
          PutBucketVersioning "b" (Some "Enabled");
          PutObject (plain_put "k" "v2");
          DeleteObject "b" "k" None None;
          CreateMultipartUpload (create_upload "k");
          CompleteMultipartUpload (complete_upload None None);
          ListObjectsV2 "b" None None None None None None]
         (example_state (example_bucket None ∅ ∅))).
Proof.
  assert (H1 : ∀ m parts size checksum m',
      multipart_complete (Collaborators := reference) m parts size checksum = Ok m' →
      S3Object.key (S3Multipart.object m') = S3Object.key (S3Multipart.object m)).
  { intros m parts size checksum m' H. cbn in H. by injection H as <-. }
  assert (H2 : state_wf (example_state (example_bucket None ∅ ∅))).
  { split; apply map_Forall_empty. }
  split; [done|]. by apply (state_wf_invariant (C := reference)).
Defined.

(** The operations of the witness leave the delete marker on top of
    both versions of the key. *)
Example run_operations_versions :
  version_version_id
    <$> default []
          (S3Bucket.objects
             (bucket
                (run_operations (C := reference)
                   [PutObject (plain_put "k" "v1");
                    PutBucketVersioning "b" (Some "Enabled");
                    PutObject (plain_put "k" "v2");
                    DeleteObject "b" "k" None None]
                   (example_state (example_bucket None ∅ ∅))))
           !! "k")
  = [Some "BAAAAAAAAAAAAAAAAAAAAAAAAAAAAAAA";
     Some "AAAAAAAAAAAAAAAAAAAAAAAAAAAAAAAA"; Some "null"].
Proof. vm_compute. reflexivity. Qed.
